(** * Form prefill mapper: dependency resolver, data sources and categorizer

    A shallow embedding of
    - [src/types/index.ts]            (Form, FormGraph, DataField, GlobalData),
    - [src/services/dagTraversal.ts]  (getDependencies, getDirectDependencies,
                                       getTransitiveDependencies,
                                       hasCircularDependencies),
    - [src/services/dataSourceRegistry.ts] (DataSourceRegistry and the three
                                       DataSource classes),
    - [src/hooks/useDataSources.ts]   (useDataSources),
    - [src/services/responseTransformer.ts], [src/hooks/useForms.ts],
      [src/hooks/usePrefillMappings.ts], [src/components/DataSourceModal.tsx],
      [src/components/DataSourceTree.tsx] and [src/App.tsx] (the functions
      that feed the categorizer and consume its result),
    followed by the properties of the specification that concern them.

    Conventions of the embedding.
    - A JavaScript string is a [string].  [toUpperCase] is modelled on the
      ASCII characters; the statements that read it are about names written
      in ASCII ([isAscii]), which is where snake_case names live.
    - A [Set<string>] is the list of its elements in insertion order
      (module [JsSet]); a [Map<string, V>] is the list of its entries in
      insertion order (module [JsMap]).
    - The [FormGraph] object is the list of its own entries in the order in
      which [Object.keys] / [Object.values] enumerate them.  An object holds
      a key once; should a list repeat one, the first entry is found, and
      no result below depends on the keys being distinct.
    - The read [formGraph[id]] goes through the prototype chain
      ([getProperty]): a key that is not an own key and names a member of
      [Object.prototype] yields that member, a truthy value without
      [dependencies] or [fields].  The code that then reads through
      [undefined] throws a [TypeError]; the functions that can end this way
      return an [Outcome].
    - The two loops that are not structurally recursive ([while] over the
      queue, the recursive [hasCycle]) take a fuel argument and answer
      [None] when it runs out; both are shown to end within a bound that
      depends on the graph only. *)

From Stdlib Require Import List String Ascii Bool Arith NArith Lia Permutation.
Import ListNotations.
Open Scope string_scope.
Open Scope list_scope.

(* ------------------------------------------------------------------ *)
(** ** types/index.ts *)

(** The seven tags of [FieldType].  At run time a [type] slot can also hold
    a value that is none of them: [mapFieldType] reads its table with
    [typeMap[avantosType]], and for a key that names a member every object
    inherits the read yields that member.  [inherited_member key] stands
    for the member read under [key]; two such values are the same value
    exactly when the keys are the same. *)
Inductive FieldType : Type :=
  | text | email | date | checkbox | button | object | number
  | inherited_member (key : string).

Record FormField : Type := mkFormField {
  field_id : string;
  field_label : string;
  field_type : FieldType
}.

Record Form : Type := mkForm {
  form_id : string;
  form_name : string;
  fields : list FormField;
  dependencies : list string
}.

(** [interface FormGraph { [formId: string]: Form }] *)
Definition FormGraph : Type := list (string * Form).

Record DataField : Type := mkDataField {
  df_id : string;
  df_label : string;
  df_type : FieldType;
  df_path : string
}.

Inductive DataSourceType : Type := form_t | global_t | custom_t.

Record GlobalData : Type := mkGlobalData {
  actionProperties : list string;
  clientOrgProperties : list string
}.

(** The own property of the graph object stored under the key, if any. *)
Fixpoint lookup (formGraph : FormGraph) (formId : string) : option Form :=
  match formGraph with
  | [] => None
  | (k, f) :: rest => if String.eqb k formId then Some f else lookup rest formId
  end.

(** [Object.keys(formGraph)] and [Object.values(formGraph)]. *)
Definition keys (formGraph : FormGraph) : list string := map fst formGraph.
Definition values (formGraph : FormGraph) : list Form := map snd formGraph.

(** The property names every plain object inherits from [Object.prototype]
    (ECMAScript, with the legacy members of its annex B).  Each of them is a
    function or, for ["__proto__"], [Object.prototype] itself: a truthy
    value that has no [dependencies] and no [fields]. *)
Definition objectPrototypeMembers : list string :=
  [ "constructor"; "hasOwnProperty"; "isPrototypeOf"; "propertyIsEnumerable";
    "toLocaleString"; "toString"; "valueOf"; "__proto__";
    "__defineGetter__"; "__defineSetter__"; "__lookupGetter__"; "__lookupSetter__" ].

Definition isInherited (key : string) : bool :=
  existsb (String.eqb key) objectPrototypeMembers.

(** What the read [formGraph[formId]] yields: the form stored under the
    key; else, for a key of [objectPrototypeMembers], the inherited member;
    else [undefined]. *)
Inductive PropertyRead : Type :=
  | Found (form : Form)
  | Inherited
  | Missing.

Definition getProperty (formGraph : FormGraph) (formId : string) : PropertyRead :=
  match lookup formGraph formId with
  | Some form => Found form
  | None => if isInherited formId then Inherited else Missing
  end.

(** How a call ends: with a value, or with a [TypeError] thrown by a read
    through [undefined] (nothing in the code catches it). *)
Inductive Outcome (A : Type) : Type :=
  | Returns (a : A)
  | Throws.

Arguments Returns {A} a.
Arguments Throws {A}.

(* ------------------------------------------------------------------ *)
(** ** Set<string>, in insertion order *)

Module JsSet.

Definition t : Type := list string.

Definition empty : t := [].

Definition has (s : t) (x : string) : bool := existsb (String.eqb x) s.

(** [s.add(x)]: a new element goes last, an old one keeps its place. *)
Definition add (s : t) (x : string) : t := if has s x then s else s ++ [x].

(** [s.delete(x)]. *)
Definition delete (s : t) (x : string) : t :=
  filter (fun y => negb (String.eqb x y)) s.

(** [new Set(xs)]. *)
Definition of_list (xs : list string) : t := fold_left add xs empty.

(** [Array.from(s)]. *)
Definition to_list (s : t) : list string := s.

End JsSet.

(* ------------------------------------------------------------------ *)
(** ** services/dagTraversal.ts *)

(** The [while (queue.length > 0)] loop of [getDependencies]; one unit of
    fuel per iteration.  For an inherited member [currentForm] is truthy and
    [currentForm.dependencies] is [undefined], so [.forEach] throws. *)
Fixpoint bfs (fuel : nat) (formGraph : FormGraph)
    (deps : JsSet.t) (queue : list string) (visited : JsSet.t)
    : option (Outcome JsSet.t) :=
  match queue with
  | [] => Some (Returns deps)
  | currentFormId :: queue' =>
    match fuel with
    | 0 => None
    | S fuel' =>
      if JsSet.has visited currentFormId then
        bfs fuel' formGraph deps queue' visited
      else
        let visited' := JsSet.add visited currentFormId in
        match getProperty formGraph currentFormId with
        | Missing => bfs fuel' formGraph deps queue' visited'
        | Inherited => Some Throws
        | Found currentForm =>
          bfs fuel' formGraph
              (fold_left JsSet.add (dependencies currentForm) deps)
              (queue' ++ dependencies currentForm)
              visited'
        end
    end
  end.

Definition getDependencies_fuel (fuel : nat)
    (targetFormId : string) (formGraph : FormGraph) : option (Outcome JsSet.t) :=
  bfs fuel formGraph JsSet.empty [targetFormId] JsSet.empty.

(** Dependency entries of the forms not yet visited: what the queue can
    still receive. *)
Definition pending (formGraph : FormGraph) (visited : JsSet.t) (ks : list string) : nat :=
  list_sum
    (map (fun k =>
            if JsSet.has visited k then 0
            else match lookup formGraph k with
                 | Some f => List.length (dependencies f)
                 | None => 0
                 end) ks).

(** Number of loop iterations that always suffices: the root, plus one per
    dependency entry of the graph. *)
Definition getDependencies_bound (formGraph : FormGraph) : nat :=
  S (pending formGraph JsSet.empty (keys formGraph)).

(** [getDependencies], run with the sufficient fuel
    ([getDependencies_returns] below shows the [None] branch is dead). *)
Definition getDependencies (targetFormId : string) (formGraph : FormGraph)
    : Outcome JsSet.t :=
  match getDependencies_fuel (getDependencies_bound formGraph) targetFormId formGraph with
  | Some outcome => outcome
  | None => Throws
  end.

(** For an inherited member [form] is truthy and [new Set(undefined)] is
    the empty set. *)
Definition getDirectDependencies (targetFormId : string) (formGraph : FormGraph) : JsSet.t :=
  match getProperty formGraph targetFormId with
  | Missing => JsSet.empty
  | Inherited => JsSet.of_list []
  | Found form => JsSet.of_list (dependencies form)
  end.

Definition getTransitiveDependencies (targetFormId : string) (formGraph : FormGraph)
    : Outcome JsSet.t :=
  match getDependencies targetFormId formGraph with
  | Throws => Throws
  | Returns allDependencies =>
    let directDependencies := getDirectDependencies targetFormId formGraph in
    Returns (fold_left JsSet.delete (JsSet.to_list directDependencies) allDependencies)
  end.

(** State of [hasCircularDependencies]: the two sets the closure [hasCycle]
    shares with the outer loop. *)
Record DfsState : Type := mkDfs {
  visited : JsSet.t;
  recursionStack : JsSet.t
}.

(** [for (const x of xs) { ... }] whose body may [return true] or throw:
    [Returns (true, _)] is the early return, [Returns (false, _)] is falling
    through to the next element, [None] is fuel running out in the body. *)
Fixpoint forOf (body : string -> DfsState -> option (Outcome (bool * DfsState)))
    (xs : list string) (st : DfsState) : option (Outcome (bool * DfsState)) :=
  match xs with
  | [] => Some (Returns (false, st))
  | x :: xs' =>
    match body x st with
    | None => None
    | Some Throws => Some Throws
    | Some (Returns (true, st')) => Some (Returns (true, st'))
    | Some (Returns (false, st')) => forOf body xs' st'
    end
  end.

(** The inner function [hasCycle(formId)]; one unit of fuel per call.  For
    an inherited member [form] is truthy and [form.dependencies] is
    [undefined], so the [for ... of] throws. *)
Fixpoint hasCycle (fuel : nat) (formGraph : FormGraph)
    (formId : string) (st : DfsState) : option (Outcome (bool * DfsState)) :=
  match fuel with
  | 0 => None
  | S fuel' =>
    let st1 := mkDfs (JsSet.add (visited st) formId)
                     (JsSet.add (recursionStack st) formId) in
    match getProperty formGraph formId with
    | Missing =>
      Some (Returns (false,
                     mkDfs (visited st1) (JsSet.delete (recursionStack st1) formId)))
    | Inherited => Some Throws
    | Found form =>
      match forOf (fun depId s =>
                     if negb (JsSet.has (visited s) depId) then
                       hasCycle fuel' formGraph depId s
                     else if JsSet.has (recursionStack s) depId then
                       Some (Returns (true, s))
                     else Some (Returns (false, s)))
                  (dependencies form) st1 with
      | None => None
      | Some Throws => Some Throws
      | Some (Returns (true, st')) => Some (Returns (true, st'))
      | Some (Returns (false, st')) =>
        Some (Returns (false,
                       mkDfs (visited st') (JsSet.delete (recursionStack st') formId)))
      end
    end
  end.

(** The outer loop over [Object.keys(formGraph)]. *)
Definition hasCircularDependencies_fuel (fuel : nat) (formGraph : FormGraph)
    : option (Outcome bool) :=
  match forOf (fun formId s =>
                 if negb (JsSet.has (visited s) formId) then
                   hasCycle fuel formGraph formId s
                 else Some (Returns (false, s)))
              (keys formGraph) (mkDfs JsSet.empty JsSet.empty) with
  | None => None
  | Some Throws => Some Throws
  | Some (Returns (b, _)) => Some (Returns b)
  end.

(** Every identifier the search can meet: the keys and all dependency
    entries. *)
Definition universe (formGraph : FormGraph) : list string :=
  keys formGraph ++ flat_map dependencies (values formGraph).

(** Recursion depth that always suffices. *)
Definition hasCircularDependencies_bound (formGraph : FormGraph) : nat :=
  List.length (universe formGraph).

Definition hasCircularDependencies (formGraph : FormGraph) : Outcome bool :=
  match hasCircularDependencies_fuel (hasCircularDependencies_bound formGraph) formGraph with
  | Some outcome => outcome
  | None => Throws
  end.

(* ------------------------------------------------------------------ *)
(** ** services/dataSourceRegistry.ts *)

(** [Map<string, V>], in insertion order. *)
Module JsMap.

Section Entries.
Context {V : Type}.

Definition t : Type := list (string * V).

Definition empty : t := [].

(** [m.set(k, v)]: a new key goes last, an old key keeps its place and
    takes the new value. *)
Fixpoint set (m : t) (k : string) (v : V) : t :=
  match m with
  | [] => [(k, v)]
  | (k', v') :: m' =>
    if String.eqb k' k then (k', v) :: m' else (k', v') :: set m' k v
  end.

(** [m.get(k)]; [None] is [undefined]. *)
Fixpoint get (m : t) (k : string) : option V :=
  match m with
  | [] => None
  | (k', v') :: m' => if String.eqb k' k then Some v' else get m' k
  end.

(** [Array.from(m.values())]. *)
Definition values (m : t) : list V := map snd m.
End Entries.

Arguments t : clear implicits.

End JsMap.

(** [String.prototype.split] with a one-character separator. *)
Fixpoint split (sep : ascii) (s : string) : list string :=
  match s with
  | EmptyString => [EmptyString]
  | String c rest =>
    if Ascii.eqb c sep then EmptyString :: split sep rest
    else match split sep rest with
         | [] => [String c EmptyString]
         | w :: ws => String c w :: ws
         end
  end.

(** [Array.prototype.join]. *)
Fixpoint join (sep : string) (ws : list string) : string :=
  match ws with
  | [] => EmptyString
  | [w] => w
  | w :: ws' => w ++ sep ++ join sep ws'
  end.

(** [toUpperCase] on one character of an ASCII string: the letters a to z
    go to A to Z, every other ASCII character is kept.  (Outside ASCII the
    built-in maps further letters, and can lengthen the string.) *)
Definition toUpperCase (c : ascii) : ascii :=
  let n := nat_of_ascii c in
  if andb (Nat.leb 97 n) (Nat.leb n 122) then ascii_of_nat (n - 32) else c.

(** [word.charAt(0).toUpperCase() + word.slice(1)]. *)
Definition capitalize (word : string) : string :=
  match word with
  | EmptyString => EmptyString
  | String c rest => String (toUpperCase c) rest
  end.

(** The private method [formatPropertyName] (the same text in
    [GlobalDataSource] and [OrganizationDataSource]). *)
Definition formatPropertyName (prop : string) : string :=
  join " " (map capitalize (split "_"%char prop)).

(** The classes that implement [DataSource]. *)
Inductive DataSource : Type :=
  | FormDataSource (id name : string) (form : Form)
  | GlobalDataSource (globalData : GlobalData)
  | OrganizationDataSource (globalData : GlobalData).

Definition ds_id (source : DataSource) : string :=
  match source with
  | FormDataSource id _ _ => id
  | GlobalDataSource _ => "global-action-properties"
  | OrganizationDataSource _ => "global-org-properties"
  end.

Definition ds_name (source : DataSource) : string :=
  match source with
  | FormDataSource _ name _ => name
  | GlobalDataSource _ => "Action Properties"
  | OrganizationDataSource _ => "Organization Properties"
  end.

Definition ds_type (source : DataSource) : DataSourceType :=
  match source with
  | FormDataSource _ _ _ => form_t
  | GlobalDataSource _ => global_t
  | OrganizationDataSource _ => global_t
  end.

Definition getFields (source : DataSource) : list DataField :=
  match source with
  | FormDataSource _ name form =>
    map (fun field =>
           mkDataField (field_id field) (field_label field) (field_type field)
                       (name ++ "." ++ field_label field))
        (fields form)
  | GlobalDataSource globalData =>
    map (fun prop =>
           mkDataField prop (formatPropertyName prop) text
                       ("Action." ++ formatPropertyName prop))
        (actionProperties globalData)
  | OrganizationDataSource globalData =>
    map (fun prop =>
           mkDataField prop (formatPropertyName prop) text
                       ("clientOrg." ++ formatPropertyName prop))
        (clientOrgProperties globalData)
  end.

(** [source.type === type] *)
Definition DataSourceType_eqb (a b : DataSourceType) : bool :=
  match a, b with
  | form_t, form_t | global_t, global_t | custom_t, custom_t => true
  | _, _ => false
  end.

(** [class DataSourceRegistry]: its one field is the map [sources]. *)
Module DataSourceRegistry.

Definition t : Type := JsMap.t DataSource.

Definition new : t := JsMap.empty.

Definition register (r : t) (source : DataSource) : t :=
  JsMap.set r (ds_id source) source.

Definition getAll (r : t) : list DataSource := JsMap.values r.

Definition get (r : t) (id : string) : option DataSource := JsMap.get r id.

Definition clear (r : t) : t := JsMap.empty.

Definition getByType (r : t) (type : DataSourceType) : list DataSource :=
  filter (fun source => DataSourceType_eqb (ds_type source) type) (getAll r).

End DataSourceRegistry.

(* ------------------------------------------------------------------ *)
(** ** hooks/useDataSources.ts *)

Record CategorizedDataSources : Type := mkCategorized {
  directDependencies : list DataSource;
  transitiveDependencies : list DataSource;
  globalSources : list DataSource
}.

(** [.filter(source => source !== undefined)] *)
Fixpoint definedOnly {A : Type} (xs : list (option A)) : list A :=
  match xs with
  | [] => []
  | Some x :: xs' => x :: definedOnly xs'
  | None :: xs' => definedOnly xs'
  end.

(** [Object.values(formGraph).forEach(form => registry.register(...))] *)
Definition registerForms (formGraph : FormGraph) (registry : DataSourceRegistry.t)
    : DataSourceRegistry.t :=
  fold_left
    (fun r form =>
       DataSourceRegistry.register r (FormDataSource (form_id form) (form_name form) form))
    (values formGraph) registry.

(** [if (globalData) { register(GlobalDataSource); register(OrganizationDataSource) }] *)
Definition registerGlobals (globalData : option GlobalData) (registry : DataSourceRegistry.t)
    : DataSourceRegistry.t :=
  match globalData with
  | Some gd =>
    DataSourceRegistry.register
      (DataSourceRegistry.register registry (GlobalDataSource gd))
      (OrganizationDataSource gd)
  | None => registry
  end.

(** The body of the [useMemo] callback; [targetFormId = None] is [null].
    [!targetFormId] holds for [null] and for the empty string.  The call of
    [getTransitiveDependencies] is the one step that can throw. *)
Definition useDataSources (targetFormId : option string)
    (formGraph : FormGraph) (globalData : option GlobalData)
    : Outcome CategorizedDataSources :=
  let registry := DataSourceRegistry.new in
  match targetFormId with
  | None => Returns (mkCategorized [] [] [])
  | Some targetFormId =>
    if String.eqb targetFormId "" then Returns (mkCategorized [] [] [])
    else
      let registry := registerForms formGraph registry in
      let registry := registerGlobals globalData registry in
      let directDeps := getDirectDependencies targetFormId formGraph in
      match getTransitiveDependencies targetFormId formGraph with
      | Throws => Throws
      | Returns transitiveDeps =>
        let directDependencies :=
          definedOnly (map (fun depId => DataSourceRegistry.get registry depId)
                           (JsSet.to_list directDeps)) in
        let transitiveDependencies :=
          definedOnly (map (fun depId => DataSourceRegistry.get registry depId)
                           (JsSet.to_list transitiveDeps)) in
        let globalSources := DataSourceRegistry.getByType registry global_t in
        Returns (mkCategorized directDependencies transitiveDependencies globalSources)
      end
  end.

(* ------------------------------------------------------------------ *)
(** ** services/responseTransformer.ts *)

(** The part of [MockServerNode] the transformer reads: [id] and, of
    [data], [component_id], [name] and [prerequisites]. *)
Record MockServerNodeData : Type := mkNodeData {
  component_id : string;
  data_name : string;
  prerequisites : list string
}.

Record MockServerNode : Type := mkNode {
  node_id : string;
  data : MockServerNodeData
}.

(** An entry of [field_schema.properties]: the transformer reads
    [avantos_type] and [title]. *)
Record FieldDef : Type := mkFieldDef {
  avantos_type : string;
  title : string
}.

(** [MockServerFormTemplate]: [id] and [field_schema.properties], the
    latter as the list of its entries in the order of [Object.keys]. *)
Record MockServerFormTemplate : Type := mkTemplate {
  template_id : string;
  properties : list (string * FieldDef)
}.

Record MockServerResponse : Type := mkResponse {
  nodes : list MockServerNode;
  response_forms : list MockServerFormTemplate
}.

Record FormBlueprintResponse : Type := mkBlueprint {
  forms : list Form;
  globalData : GlobalData
}.

(** The object literal [typeMap]. *)
Definition typeMap : JsMap.t FieldType :=
  [ ("short-text", text);
    ("multi-line-text", text);
    ("email", email);
    ("date", date);
    ("checkbox-group", checkbox);
    ("multi-select", checkbox);
    ("button", button);
    ("object-enum", object);
    ("number", number) ].

(** [typeMap[avantosType] || 'text']: the own entry; else, for a key of
    [objectPrototypeMembers], the inherited member (truthy, so it is what the
    function returns); else ['text']. *)
Definition mapFieldType (avantosType : string) : FieldType :=
  match JsMap.get typeMap avantosType with
  | Some t => t
  | None => if isInherited avantosType then inherited_member avantosType else text
  end.

(** [a || b] on strings: the empty string is the falsy one. *)
Definition orElse (a b : string) : string :=
  if String.eqb a "" then b else a.

(** [Object.keys(properties).map(fieldId => ...)], where
    [properties[fieldId]] is the value of the entry. *)
Definition extractFields (formTemplate : MockServerFormTemplate) : list FormField :=
  map (fun entry : string * FieldDef =>
         let (fieldId, fieldDef) := entry in
         mkFormField fieldId (orElse (title fieldDef) fieldId)
                     (mapFieldType (avantos_type fieldDef)))
      (properties formTemplate).

Definition findFormTemplate (componentId : string)
    (templates : list MockServerFormTemplate) : option MockServerFormTemplate :=
  find (fun template => String.eqb (template_id template) componentId) templates.

(** [null] is [None]; the [console.warn] is not modelled. *)
Definition transformNode (node : MockServerNode)
    (formTemplates : list MockServerFormTemplate) : option Form :=
  match findFormTemplate (component_id (data node)) formTemplates with
  | None => None
  | Some formTemplate =>
    Some (mkForm (node_id node) (data_name (data node))
                 (extractFields formTemplate) (prerequisites (data node)))
  end.

Definition createGlobalData : GlobalData :=
  mkGlobalData
    [ "status"; "created_at"; "updated_at"; "assignee"; "priority"; "due_date" ]
    [ "org_name"; "org_id"; "plan_type"; "industry"; "created_date"; "contact_email" ].

Definition transformMockServerResponse (mockResponse : MockServerResponse)
    : FormBlueprintResponse :=
  let forms :=
    definedOnly (map (fun node => transformNode node (response_forms mockResponse))
                     (nodes mockResponse)) in
  let globalData := createGlobalData in
  mkBlueprint forms globalData.

(* ------------------------------------------------------------------ *)
(** ** hooks/useForms.ts *)

(** Own properties of an ordinary object, in the order in which
    [Object.keys] and [Object.values] enumerate them: the keys that are
    array indices in ascending numeric order, then the other keys in the
    order of their creation. *)
Module JsObject.

Definition isDigit (c : ascii) : bool :=
  let n := nat_of_ascii c in Nat.leb 48 n && Nat.leb n 57.

(** The number a string of decimal digits denotes. *)
Fixpoint digitsValue (s : string) (acc : N) : option N :=
  match s with
  | EmptyString => Some acc
  | String c rest =>
    if isDigit c then digitsValue rest (acc * 10 + (N_of_ascii c - 48))%N
    else None
  end.

(** A key is an array index when it is the canonical decimal numeral of an
    integer below 2^32 - 1. *)
Definition arrayIndex (key : string) : option N :=
  match key with
  | EmptyString => None
  | String c rest =>
    if Ascii.eqb c "0"%char && negb (String.eqb rest "") then None
    else match digitsValue key 0%N with
         | Some n => if N.ltb n 4294967295%N then Some n else None
         | None => None
         end
  end.

Section Entries.
Context {V : Type}.

(** The place of a new array-index key: before the first key that is a
    larger index or no index at all. *)
Fixpoint insertIndexed (m : list (string * V)) (n : N) (k : string) (v : V)
    : list (string * V) :=
  match m with
  | [] => [(k, v)]
  | (k', v') :: m' =>
    match arrayIndex k' with
    | Some n' => if N.ltb n n' then (k, v) :: m else (k', v') :: insertIndexed m' n k v
    | None => (k, v) :: m
    end
  end.

(** [o[k] = v] for a key other than ["__proto__"]: an existing key keeps
    its place and takes the new value; a new key is created. *)
Definition assign (m : list (string * V)) (k : string) (v : V) : list (string * V) :=
  match JsMap.get m k, arrayIndex k with
  | None, Some n => insertIndexed m n k v
  | _, _ => JsMap.set m k v
  end.
End Entries.

End JsObject.

(** One turn of [data.forms.forEach(form => { graph[form.id] = form })].
    For the identifier ["__proto__"] the assignment does not create a key: it
    replaces the prototype of [graph] by the form.  What is built then is
    not a graph of the kind modelled here (an object whose only inherited
    members are those of [Object.prototype]), and the answer is [None]. *)
Definition assignForm (graph : option FormGraph) (form : Form) : option FormGraph :=
  match graph with
  | None => None
  | Some g =>
    if String.eqb (form_id form) "__proto__" then None
    else Some (JsObject.assign g (form_id form) form)
  end.

(** The loop of [loadForms] that fills [graph], from [const graph = {}]. *)
Definition buildGraph (forms : list Form) : option FormGraph :=
  fold_left assignForm forms (Some []).

(* ------------------------------------------------------------------ *)
(** ** hooks/usePrefillMappings.ts *)

(** ['form' | 'global'] *)
Inductive MappingSourceType : Type := from_form | from_global.

Record PrefillMapping : Type := mkPrefillMapping {
  pm_targetFormId : string;
  pm_targetFieldId : string;
  pm_sourceType : MappingSourceType;
  pm_sourceFormId : option string;
  pm_sourceFieldId : string;
  pm_sourcePath : string
}.

(** The state [mappings] and the updaters handed to [setMappings]; the
    [localStorage] copy is not modelled. *)
Module PrefillMappings.

Definition t : Type := list PrefillMapping.

(** [m.targetFormId === formId && m.targetFieldId === fieldId] *)
Definition sameTarget (formId fieldId : string) (m : PrefillMapping) : bool :=
  String.eqb (pm_targetFormId m) formId && String.eqb (pm_targetFieldId m) fieldId.

Definition getMappingsForForm (mappings : t) (formId : string) : list PrefillMapping :=
  filter (fun m => String.eqb (pm_targetFormId m) formId) mappings.

Definition getMapping (mappings : t) (formId fieldId : string) : option PrefillMapping :=
  find (sameTarget formId fieldId) mappings.

Definition setMapping (mapping : PrefillMapping) (prev : t) : t :=
  let filtered :=
    filter (fun m => negb (sameTarget (pm_targetFormId mapping)
                                      (pm_targetFieldId mapping) m)) prev in
  filtered ++ [mapping].

Definition clearMapping (formId fieldId : string) (prev : t) : t :=
  filter (fun m => negb (sameTarget formId fieldId m)) prev.

Definition clearAllMappingsForForm (formId : string) (prev : t) : t :=
  filter (fun m => negb (String.eqb (pm_targetFormId m) formId)) prev.

Definition clearAllMappings (prev : t) : t := [].

End PrefillMappings.

(* ------------------------------------------------------------------ *)
(** ** components/DataSourceModal.tsx *)

(** [field.type !== targetField.type], negated.  Two inherited members are
    the same value when they are read under the same key. *)
Definition FieldType_eqb (a b : FieldType) : bool :=
  match a, b with
  | text, text | email, email | date, date | checkbox, checkbox
  | button, button | object, object | number, number => true
  | inherited_member j, inherited_member k => String.eqb j k
  | _, _ => false
  end.

(** The mapping [createMapping] hands to [onSelectField]. *)
Definition createMapping (targetField : FormField)
    (source : DataSource) (field : DataField) : PrefillMapping :=
  mkPrefillMapping
    ""
    (field_id targetField)
    (if DataSourceType_eqb (ds_type source) form_t then from_form else from_global)
    (if DataSourceType_eqb (ds_type source) form_t then Some (ds_id source) else None)
    (df_id field)
    (df_path field).

(** The two pieces of state behind the type-mismatch dialog. *)
Record ModalState : Type := mkModal {
  showConfirmation : bool;
  pendingMapping : option (DataSource * DataField)
}.

(** Each handler returns the next state and the mapping it passed to
    [onSelectField], if it called it (it then also calls [onClose]). *)
Definition handleSelectField (targetField : FormField)
    (source : DataSource) (field : DataField) (st : ModalState)
    : ModalState * option PrefillMapping :=
  if negb (FieldType_eqb (df_type field) (field_type targetField)) then
    (mkModal true (Some (source, field)), None)
  else
    (st, Some (createMapping targetField source field)).

Definition handleConfirmTypeMismatch (targetField : FormField) (st : ModalState)
    : ModalState * option PrefillMapping :=
  (mkModal false None,
   match pendingMapping st with
   | Some (source, field) => Some (createMapping targetField source field)
   | None => None
   end).

Definition handleCancelTypeMismatch (st : ModalState)
    : ModalState * option PrefillMapping :=
  (mkModal false None, None).

(** What a click on a field of a [DataSourceTree] does:
    [onSelectField={showConfirmation ? () => {} : handleSelectField}]. *)
Definition treeSelectField (targetField : FormField)
    (source : DataSource) (field : DataField) (st : ModalState)
    : ModalState * option PrefillMapping :=
  if showConfirmation st then (st, None)
  else handleSelectField targetField source field st.

(* ------------------------------------------------------------------ *)
(** ** components/DataSourceTree.tsx *)

(** The updater [toggleSource] hands to [setExpandedSources]. *)
Definition toggleSource (sourceId : string) (prev : JsSet.t) : JsSet.t :=
  let next := JsSet.of_list (JsSet.to_list prev) in
  if JsSet.has next sourceId then JsSet.delete next sourceId
  else JsSet.add next sourceId.

(* ------------------------------------------------------------------ *)
(** ** App.tsx *)

(** [selectedFormId ? formGraph[selectedFormId] : null]; [Missing] stands
    for both [null] and [undefined]. *)
Definition selectedForm (selectedFormId : option string) (formGraph : FormGraph)
    : PropertyRead :=
  match selectedFormId with
  | None => Missing
  | Some id => if String.eqb id "" then Missing else getProperty formGraph id
  end.

(** [handleOpenModal]: the field it stores with [setSelectedField], if it
    gets that far.  For an inherited member [selectedForm.fields] is
    [undefined] and [.find] throws. *)
Definition handleOpenModal (selectedForm : PropertyRead) (fieldId : string)
    : Outcome (option FormField) :=
  match selectedForm with
  | Missing => Returns None
  | Inherited => Throws
  | Found form =>
    Returns (find (fun f => String.eqb (field_id f) fieldId) (fields form))
  end.

(** [handleSelectMapping]: the mapping store after the call;
    [{...partialMapping, targetFormId: selectedFormId}] keeps every field of
    the partial mapping but the target form. *)
Definition handleSelectMapping (selectedFormId : option string)
    (partialMapping : PrefillMapping) (mappings : PrefillMappings.t)
    : PrefillMappings.t :=
  match selectedFormId with
  | None => mappings
  | Some id =>
    if String.eqb id "" then mappings
    else
      PrefillMappings.setMapping
        (mkPrefillMapping id
           (pm_targetFieldId partialMapping) (pm_sourceType partialMapping)
           (pm_sourceFormId partialMapping) (pm_sourceFieldId partialMapping)
           (pm_sourcePath partialMapping))
        mappings
  end.

(* ------------------------------------------------------------------ *)
(** ** Graphs used by the tests and the specification's scenarios *)

Definition node (id name : string) (deps : list string) : string * Form :=
  (id, mkForm id name [] deps).

(** Scenario 1 / [mockFormGraph] of the traversal tests. *)
Definition mockFormGraph : FormGraph :=
  [ node "form-a" "Form A" [];
    node "form-b" "Form B" ["form-a"];
    node "form-c" "Form C" ["form-a"];
    node "form-d" "Form D" ["form-b"];
    node "form-e" "Form E" ["form-c"; "form-d"] ].

(** A -> B -> A *)
Definition circularGraph2 : FormGraph :=
  [ node "form-a" "Form A" ["form-b"];
    node "form-b" "Form B" ["form-a"] ].

(** A -> B -> C -> A *)
Definition circularGraph3 : FormGraph :=
  [ node "form-a" "Form A" ["form-b"];
    node "form-b" "Form B" ["form-c"];
    node "form-c" "Form C" ["form-a"] ].

Definition sampleGlobalData : GlobalData :=
  mkGlobalData ["status"; "created_at"] ["org_name"].



(** A form stored under the empty identifier that depends on a form
    carrying the identifier of the action-properties source. *)
Definition blankTargetGraph : FormGraph :=
  [ node "" "Blank" ["global-action-properties"];
    node "global-action-properties" "Shadowed" [] ].

(** A form carrying the identifier of the action-properties source, a form
    that depends on it directly, and one that depends on it transitively. *)
Definition shadowedGraph : FormGraph :=
  [ node "global-action-properties" "Shadowed" [];
    node "form-y" "Form Y" ["global-action-properties"];
    node "form-z" "Form Z" ["form-y"] ].

(** A form whose only dependency names a member every object inherits; no
    form is stored under that name. *)
Definition inheritedGhostGraph : FormGraph :=
  [ node "form-x" "Form X" ["constructor"] ].

(** A form that depends on such a name and on itself. *)
Definition inheritedCycleGraph : FormGraph :=
  [ node "form-a" "Form A" ["constructor"; "form-a"] ].

(** [shadowedGraph] with one more form, which depends on the shadowed form
    and on a name every object inherits. *)
Definition shadowedInheritedGraph : FormGraph :=
  [ node "global-action-properties" "Shadowed" [];
    node "form-w" "Form W" ["global-action-properties"; "constructor"] ].

(* ------------------------------------------------------------------ *)
(** * Notions used to state the properties *)

(** ** The dependency relation of a graph *)

(** [dep g a b]: form [a] is stored in [g] and its dependency list names [b]
    (which may or may not be stored in [g]). *)
Definition dep (g : FormGraph) (a b : string) : Prop :=
  exists f, lookup g a = Some f /\ In b (dependencies f).

(** One or more steps of a relation. *)
Inductive plus (R : string -> string -> Prop) : string -> string -> Prop :=
  | plus_one a b : R a b -> plus R a b
  | plus_cons a b c : R a b -> plus R b c -> plus R a c.

(** Zero or more steps. *)
Definition star (R : string -> string -> Prop) (a b : string) : Prop :=
  a = b \/ plus R a b.

(** A form is present when the graph stores a record under its identifier. *)
Definition present (g : FormGraph) (x : string) : Prop := In x (keys g).

(** A dependency edge between two present forms. *)
Definition depPresent (g : FormGraph) (a b : string) : Prop :=
  dep g a b /\ present g b.

(** The graph has a dependency cycle among its present forms. *)
Definition cyclic (g : FormGraph) : Prop := exists x, plus (depPresent g) x x.

(** Invariant of the queue loop: the dependencies of every visited form are
    in the result set and are visited or queued; so when the queue is empty
    the set holds everything reachable. *)
Definition bfs_inv (g : FormGraph) (deps : JsSet.t) (queue : list string) (V : JsSet.t) : Prop :=
  forall v d, In v V -> dep g v d -> In d deps /\ (In d V \/ In d queue).

(** ** The searches on own entries

    The loops of [dagTraversal.ts] once more, reading the graph through
    [lookup] alone, so that nothing throws.  They are not the code: they are
    what the code computes whenever it returns ([bfs_simulates],
    [hasCycle_simulates] and [useDataSources_categorize] below), and the
    place where what the results hold is proved. *)

Fixpoint bfsOwn (fuel : nat) (formGraph : FormGraph)
    (deps : JsSet.t) (queue : list string) (visited : JsSet.t)
    : option JsSet.t :=
  match queue with
  | [] => Some deps
  | currentFormId :: queue' =>
    match fuel with
    | 0 => None
    | S fuel' =>
      if JsSet.has visited currentFormId then
        bfsOwn fuel' formGraph deps queue' visited
      else
        let visited' := JsSet.add visited currentFormId in
        match lookup formGraph currentFormId with
        | None => bfsOwn fuel' formGraph deps queue' visited'
        | Some currentForm =>
          bfsOwn fuel' formGraph
              (fold_left JsSet.add (dependencies currentForm) deps)
              (queue' ++ dependencies currentForm)
              visited'
        end
    end
  end.

Definition ownDependencies_fuel (fuel : nat)
    (targetFormId : string) (formGraph : FormGraph) : option JsSet.t :=
  bfsOwn fuel formGraph JsSet.empty [targetFormId] JsSet.empty.

Definition ownDependencies (targetFormId : string) (formGraph : FormGraph) : JsSet.t :=
  match ownDependencies_fuel (getDependencies_bound formGraph) targetFormId formGraph with
  | Some deps => deps
  | None => JsSet.empty
  end.

Definition ownDirect (targetFormId : string) (formGraph : FormGraph) : JsSet.t :=
  match lookup formGraph targetFormId with
  | None => JsSet.empty
  | Some form => JsSet.of_list (dependencies form)
  end.

Definition ownTransitive (targetFormId : string) (formGraph : FormGraph) : JsSet.t :=
  let allDependencies := ownDependencies targetFormId formGraph in
  let directDependencies := ownDirect targetFormId formGraph in
  fold_left JsSet.delete (JsSet.to_list directDependencies) allDependencies.

Fixpoint forOwn (body : string -> DfsState -> option (bool * DfsState))
    (xs : list string) (st : DfsState) : option (bool * DfsState) :=
  match xs with
  | [] => Some (false, st)
  | x :: xs' =>
    match body x st with
    | None => None
    | Some (true, st') => Some (true, st')
    | Some (false, st') => forOwn body xs' st'
    end
  end.

Fixpoint hasCycleOwn (fuel : nat) (formGraph : FormGraph)
    (formId : string) (st : DfsState) : option (bool * DfsState) :=
  match fuel with
  | 0 => None
  | S fuel' =>
    let st1 := mkDfs (JsSet.add (visited st) formId)
                     (JsSet.add (recursionStack st) formId) in
    match lookup formGraph formId with
    | None =>
      Some (false, mkDfs (visited st1) (JsSet.delete (recursionStack st1) formId))
    | Some form =>
      match forOwn (fun depId s =>
                     if negb (JsSet.has (visited s) depId) then
                       hasCycleOwn fuel' formGraph depId s
                     else if JsSet.has (recursionStack s) depId then Some (true, s)
                     else Some (false, s))
                  (dependencies form) st1 with
      | None => None
      | Some (true, st') => Some (true, st')
      | Some (false, st') =>
        Some (false, mkDfs (visited st') (JsSet.delete (recursionStack st') formId))
      end
    end
  end.

Definition ownCircular_fuel (fuel : nat) (formGraph : FormGraph) : option bool :=
  match forOwn (fun formId s =>
                 if negb (JsSet.has (visited s) formId) then
                   hasCycleOwn fuel formGraph formId s
                 else Some (false, s))
              (keys formGraph) (mkDfs JsSet.empty JsSet.empty) with
  | None => None
  | Some (b, _) => Some b
  end.

Definition ownCircular (formGraph : FormGraph) : bool :=
  match ownCircular_fuel (hasCircularDependencies_bound formGraph) formGraph with
  | Some b => b
  | None => false
  end.

(** The buckets of [useDataSources], from the searches on own entries. *)
Definition categorize (targetFormId : option string)
    (formGraph : FormGraph) (globalData : option GlobalData)
    : CategorizedDataSources :=
  let registry := DataSourceRegistry.new in
  match targetFormId with
  | None => mkCategorized [] [] []
  | Some targetFormId =>
    if String.eqb targetFormId "" then mkCategorized [] [] []
    else
      let registry := registerForms formGraph registry in
      let registry := registerGlobals globalData registry in
      let directDeps := ownDirect targetFormId formGraph in
      let transitiveDeps := ownTransitive targetFormId formGraph in
      let directDependencies :=
        definedOnly (map (fun depId => DataSourceRegistry.get registry depId)
                         (JsSet.to_list directDeps)) in
      let transitiveDependencies :=
        definedOnly (map (fun depId => DataSourceRegistry.get registry depId)
                         (JsSet.to_list transitiveDeps)) in
      let globalSources := DataSourceRegistry.getByType registry global_t in
      mkCategorized directDependencies transitiveDependencies globalSources
  end.

(** No identifier the search from [t] can reach reads as an inherited
    member: each is a stored form or is missing. *)
Definition safeFrom (g : FormGraph) (t : string) : Prop :=
  forall x, star (dep g) t x -> getProperty g x <> Inherited.

(** No identifier occurring in the graph reads as an inherited member. *)
Definition protoFree (g : FormGraph) : Prop :=
  forall x, In x (universe g) -> getProperty g x <> Inherited.

(** [protoFree], decided. *)
Definition protoFreeb (g : FormGraph) : bool :=
  forallb (fun x => match getProperty g x with
                    | Inherited => false
                    | _ => true
                    end)
          (universe g).

(** Every character of the string is an ASCII character. *)
Fixpoint isAscii (s : string) : bool :=
  match s with
  | EmptyString => true
  | String c rest => Nat.ltb (nat_of_ascii c) 128 && isAscii rest
  end.

(** The body of [for (const depId of form.dependencies)] in a call of
    [hasCycle] that has [fuel] left for the calls it makes, and the body of
    [for (const formId of Object.keys(formGraph))]. *)
Definition depBody (g : FormGraph) (fuel : nat) (depId : string) (s : DfsState)
    : option (Outcome (bool * DfsState)) :=
  if negb (JsSet.has (visited s) depId) then hasCycle fuel g depId s
  else if JsSet.has (recursionStack s) depId then Some (Returns (true, s))
  else Some (Returns (false, s)).

Definition keyBody (g : FormGraph) (fuel : nat) (formId : string) (s : DfsState)
    : option (Outcome (bool * DfsState)) :=
  if negb (JsSet.has (visited s) formId) then hasCycle fuel g formId s
  else Some (Returns (false, s)).

(** The same bodies for the search on own entries. *)
Definition depBodyOwn (g : FormGraph) (fuel : nat) (depId : string) (s : DfsState)
    : option (bool * DfsState) :=
  if negb (JsSet.has (visited s) depId) then hasCycleOwn fuel g depId s
  else if JsSet.has (recursionStack s) depId then Some (true, s)
  else Some (false, s).

Definition keyBodyOwn (g : FormGraph) (fuel : nat) (formId : string) (s : DfsState)
    : option (bool * DfsState) :=
  if negb (JsSet.has (visited s) formId) then hasCycleOwn fuel g formId s
  else Some (false, s).

(** Identifiers of the universe not yet visited. *)
Definition unvisited (g : FormGraph) (V : JsSet.t) : nat :=
  List.length (filter (fun u => negb (JsSet.has V u)) (universe g)).

(** What holds of the two sets whenever [hasCycle] is entered or left
    normally.  A form that is visited and no longer on the stack is
    finished: its dependencies are finished too, and no cycle passes
    through it. *)
Record dfs_inv (g : FormGraph) (st : DfsState) : Prop := mkInv {
  inv_stack : incl (recursionStack st) (visited st);
  inv_closed : forall b d,
    In b (visited st) -> ~ In b (recursionStack st) -> dep g b d ->
    In d (visited st) /\ ~ In d (recursionStack st);
  inv_acyclic : forall b,
    In b (visited st) -> ~ In b (recursionStack st) -> ~ plus (dep g) b b
}.

(** Postcondition of a call that returns [false]. *)
Definition false_post (g : FormGraph) (x : string) (st st' : DfsState) : Prop :=
  recursionStack st' = recursionStack st /\
  incl (visited st) (visited st') /\
  In x (visited st') /\
  dfs_inv g st'.

(** The fixed identifiers of the two global-backed sources. *)
Definition ACTION_ID : string := "global-action-properties".
Definition ORG_ID : string := "global-org-properties".

(** [registerForms], on the list of forms. *)
Definition registerAll (fs : list Form) (r : DataSourceRegistry.t) : DataSourceRegistry.t :=
  fold_left
    (fun r form =>
       DataSourceRegistry.register r (FormDataSource (form_id form) (form_name form) form))
    fs r.

(** Every source sits under its own identifier. *)
Definition keyed (r : DataSourceRegistry.t) : Prop :=
  forall k s, DataSourceRegistry.get r k = Some s -> ds_id s = k.

(** The registry a call with a non-empty target builds. *)
Definition registryOf (g : FormGraph) (s : option GlobalData) : DataSourceRegistry.t :=
  registerGlobals s (registerForms g DataSourceRegistry.new).

(** The Title-Case rendering in the words of the specification, read off
    character by character: an underscore ends a token and becomes one
    space; the first character of a token is upper-cased; every other
    character is kept. *)
Fixpoint titleCaseFrom (tokenStart : bool) (s : string) : string :=
  match s with
  | EmptyString => EmptyString
  | String c rest =>
    if Ascii.eqb c "_"%char then String " "%char (titleCaseFrom true rest)
    else String (if tokenStart then toUpperCase c else c) (titleCaseFrom false rest)
  end.

Definition titleCase (s : string) : string := titleCaseFrom true s.

(** The result for "nothing selected". *)
Definition noSources : CategorizedDataSources := mkCategorized [] [] [].


(** The global-backed source registered under one of the two fixed
    identifiers. *)
Definition globalSourceFor (d : string) (gd : GlobalData) : DataSource :=
  if String.eqb d ACTION_ID then GlobalDataSource gd else OrganizationDataSource gd.

(** ** Notions for the surrounding code *)

(** Registering a list of sources, first to last. *)
Definition registerList (sources : list DataSource) (r : DataSourceRegistry.t)
    : DataSourceRegistry.t :=
  fold_left DataSourceRegistry.register sources r.

(** The form-backed source [useDataSources] makes of a form. *)
Definition formSource (form : Form) : DataSource :=
  FormDataSource (form_id form) (form_name form) form.

(** A graph as [useForms] builds it: every key once, every form under its
    own identifier. *)
Definition wellFormed (g : FormGraph) : Prop :=
  NoDup (keys g) /\ forall k f, In (k, f) g -> form_id f = k.

(** What an identifier resolves to, read off the graph and the snapshot. *)
Definition resolve (g : FormGraph) (s : option GlobalData) (d : string)
    : option DataSource :=
  match s with
  | Some gd =>
    if String.eqb d ORG_ID then Some (OrganizationDataSource gd)
    else if String.eqb d ACTION_ID then Some (GlobalDataSource gd)
    else option_map formSource (lookup g d)
  | None => option_map formSource (lookup g d)
  end.

(** [node] has a template among [templates]. *)
Definition hasTemplate (templates : list MockServerFormTemplate)
    (node : MockServerNode) : bool :=
  existsb (fun template => String.eqb (template_id template) (component_id (data node)))
          templates.

(** The form [transformNode] makes of [node] is [form]. *)
Definition formOfNode (templates : list MockServerFormTemplate)
    (node : MockServerNode) (form : Form) : Prop :=
  form_id form = node_id node
  /\ form_name form = data_name (data node)
  /\ dependencies form = prerequisites (data node)
  /\ exists template,
       findFormTemplate (component_id (data node)) templates = Some template
       /\ fields form = extractFields template.

(** The order in which an object enumerates its keys: the array indices
    first, in ascending order, then the other keys. *)
Fixpoint enumerationOrder (ks : list string) : Prop :=
  match ks with
  | [] => True
  | k :: rest =>
    (forall k', In k' rest ->
       match JsObject.arrayIndex k, JsObject.arrayIndex k' with
       | Some n, Some n' => (n <= n')%N
       | None, Some _ => False
       | _, None => True
       end)
    /\ enumerationOrder rest
  end.

(** The graph the application holds after loading [response], when it is
    one. *)
Definition loadedGraph (response : MockServerResponse) : option FormGraph :=
  buildGraph (forms (transformMockServerResponse response)).

(** The target a mapping is stored under. *)
Definition target (m : PrefillMapping) : string * string :=
  (pm_targetFormId m, pm_targetFieldId m).

(** No two mappings of the store have the same target. *)
Definition uniqueTargets (mappings : PrefillMappings.t) : Prop :=
  NoDup (map target mappings).

(** The updates of the mapping store. *)
Inductive StoreAction : Type :=
  | SetMapping (mapping : PrefillMapping)
  | ClearMapping (formId fieldId : string)
  | ClearAllMappingsForForm (formId : string)
  | ClearAllMappings.

Definition applyAction (mappings : PrefillMappings.t) (a : StoreAction)
    : PrefillMappings.t :=
  match a with
  | SetMapping mapping => PrefillMappings.setMapping mapping mappings
  | ClearMapping formId fieldId => PrefillMappings.clearMapping formId fieldId mappings
  | ClearAllMappingsForForm formId =>
    PrefillMappings.clearAllMappingsForForm formId mappings
  | ClearAllMappings => PrefillMappings.clearAllMappings mappings
  end.

(** The closed dialog. *)
Definition modalClosed : ModalState := mkModal false None.

(** The mapping of the example in the documentation of
    [usePrefillMappings], and a second one for another field. *)
Definition sampleMapping : PrefillMapping :=
  mkPrefillMapping "form-d" "email" from_form (Some "form-a") "email" "Form A.Email".

Definition sampleMapping2 : PrefillMapping :=
  mkPrefillMapping "form-d" "name" from_global None "status" "Action.Status".

(** A form with two fields, stored in a graph behind a form it depends on. *)
Definition formWithFields : Form :=
  mkForm "form-d" "Form D"
         [ mkFormField "email" "Email" email; mkFormField "name" "Name" text ]
         ["form-b"].

Definition graphWithFields : FormGraph :=
  [ node "form-b" "Form B" []; ("form-d", formWithFields) ].

(** A response with two nodes, the second depending on the first, and one
    template for both. *)
Definition sampleResponse : MockServerResponse :=
  mkResponse
    [ mkNode "form-a" (mkNodeData "tpl" "Form A" []);
      mkNode "form-b" (mkNodeData "tpl" "Form B" ["form-a"; "form-x"]) ]
    [ mkTemplate "tpl" [("email", mkFieldDef "short-text" "Email")] ].

(* ------------------------------------------------------------------ *)
(** * Properties *)

(** ** Sets and maps *)

Module JsSetFacts.
Import JsSet.

Lemma has_true (s : t) (x : string) : has s x = true <-> In x s.
Proof.
  unfold has. rewrite existsb_exists. split.
  - intros [y [Hy Heq]]. apply String.eqb_eq in Heq. now subst.
  - intros H. exists x. split; [assumption | apply String.eqb_refl].
Qed.

Lemma has_false (s : t) (x : string) : has s x = false <-> ~ In x s.
Proof.
  rewrite <- has_true. destruct (has s x); split; intros; congruence.
Qed.

Lemma add_In (s : t) (x y : string) : In y (add s x) <-> In y s \/ y = x.
Proof.
  unfold add. destruct (has s x) eqn:E.
  - apply has_true in E. split; [tauto | intros [H | ->]; assumption].
  - rewrite in_app_iff. simpl. split; intros [H | H]; auto.
    + destruct H as [H | []]; auto.
Qed.

Lemma add_new (s : t) (x : string) : ~ In x s -> add s x = s ++ [x].
Proof. intros H. apply has_false in H. unfold add. now rewrite H. Qed.

Lemma delete_In (s : t) (x y : string) : In y (delete s x) <-> In y s /\ y <> x.
Proof.
  unfold delete. rewrite filter_In. rewrite negb_true_iff, String.eqb_neq.
  split; intros [H1 H2]; split; auto.
Qed.

Lemma delete_absent (s : t) (x : string) : ~ In x s -> delete s x = s.
Proof.
  induction s as [| y s IH]; simpl; intros H; [reflexivity |].
  destruct (String.eqb x y) eqn:E.
  - apply String.eqb_eq in E. subst. tauto.
  - simpl. f_equal. apply IH. tauto.
Qed.

(** Leaving a scope: what [add] pushed, [delete] pops. *)
Lemma delete_add (s : t) (x : string) : ~ In x s -> delete (add s x) x = s.
Proof.
  intros H. rewrite (add_new _ _ H). unfold delete.
  rewrite filter_app. simpl. rewrite String.eqb_refl. simpl.
  rewrite app_nil_r. now apply delete_absent.
Qed.

Lemma fold_add_In (xs : list string) (s : t) (y : string) :
  In y (fold_left add xs s) <-> In y s \/ In y xs.
Proof.
  revert s. induction xs as [| x xs IH]; simpl; intros s.
  - tauto.
  - rewrite IH, add_In. intuition auto.
Qed.

Lemma of_list_In (xs : list string) (y : string) : In y (of_list xs) <-> In y xs.
Proof. unfold of_list. rewrite fold_add_In. simpl. tauto. Qed.

Lemma fold_delete_In (xs : list string) (s : t) (y : string) :
  In y (fold_left delete xs s) <-> In y s /\ ~ In y xs.
Proof.
  revert s. induction xs as [| x xs IH]; simpl; intros s.
  - tauto.
  - rewrite IH, delete_In. intuition auto.
Qed.

Lemma add_NoDup (s : t) (x : string) : NoDup s -> NoDup (add s x).
Proof.
  intros H. unfold add. destruct (has s x) eqn:E; [assumption |].
  apply has_false in E. apply NoDup_app; auto.
  - repeat constructor. intros [].
  - intros y Hy [<- | []]. auto.
Qed.

Lemma fold_add_NoDup (xs : list string) (s : t) :
  NoDup s -> NoDup (fold_left add xs s).
Proof.
  revert s. induction xs; simpl; intros s H; [assumption |].
  apply IHxs. now apply add_NoDup.
Qed.

End JsSetFacts.

Lemma lookup_Some_In (g : FormGraph) (k : string) (f : Form) :
  lookup g k = Some f -> In (k, f) g.
Proof.
  induction g as [| [k' f'] g IH]; simpl; [discriminate |].
  destruct (String.eqb k' k) eqn:E.
  - apply String.eqb_eq in E. intros [= ->]. subst. now left.
  - intros H. right. auto.
Qed.

Lemma lookup_Some_key (g : FormGraph) (k : string) (f : Form) :
  lookup g k = Some f -> In k (keys g).
Proof.
  intros H. apply lookup_Some_In in H. unfold keys.
  change k with (fst (k, f)). now apply in_map.
Qed.

Lemma lookup_Some_value (g : FormGraph) (k : string) (f : Form) :
  lookup g k = Some f -> In f (values g).
Proof.
  intros H. apply lookup_Some_In in H. unfold values.
  change f with (snd (k, f)). now apply in_map.
Qed.

Lemma lookup_key_Some (g : FormGraph) (k : string) :
  In k (keys g) -> exists f, lookup g k = Some f.
Proof.
  induction g as [| [k' f'] g IH]; simpl; [intros [] |].
  destruct (String.eqb k' k) eqn:E; [eauto |].
  intros [H | H]; [| auto].
  apply String.eqb_neq in E. congruence.
Qed.

Lemma plus_snoc (R : string -> string -> Prop) (a b c : string) :
  plus R a b -> R b c -> plus R a c.
Proof.
  induction 1 as [a b H | a b b' H _ IH]; intros Hc.
  - eapply plus_cons; [eassumption | now apply plus_one].
  - eapply plus_cons; [eassumption | auto].
Qed.

Lemma star_snoc (R : string -> string -> Prop) (a b c : string) :
  star R a b -> R b c -> plus R a c.
Proof.
  intros [-> | H] Hc; [now apply plus_one | eapply plus_snoc; eassumption].
Qed.

Lemma plus_impl (R R' : string -> string -> Prop) (a b : string) :
  (forall x y, R x y -> R' x y) -> plus R a b -> plus R' a b.
Proof.
  intros HR. induction 1; [apply plus_one | eapply plus_cons]; eauto.
Qed.

(** ** The queue loop on own entries: termination *)

Section Bfs.
Import JsSet JsSetFacts.
Variable g : FormGraph.

Lemma has_add (s : t) (x y : string) :
  has (add s x) y = has s y || String.eqb y x.
Proof.
  apply eq_true_iff_eq.
  rewrite orb_true_iff, !has_true, add_In, String.eqb_eq. tauto.
Qed.

Lemma pending_add_le (V : t) (x : string) (ks : list string) :
  pending g (add V x) ks <= pending g V ks.
Proof.
  unfold pending. induction ks as [| k ks IH]; simpl; [lia |].
  rewrite has_add. destruct (has V k); simpl; [lia |].
  destruct (String.eqb k x); lia.
Qed.

Lemma pending_add_lt (V : t) (x : string) (f : Form) (ks : list string) :
  In x ks -> has V x = false -> lookup g x = Some f ->
  pending g (add V x) ks + List.length (dependencies f) <= pending g V ks.
Proof.
  intros Hin HV Hf. induction ks as [| k ks IH]; [destruct Hin |].
  assert (Hle := pending_add_le V x ks).
  unfold pending in *. simpl. rewrite has_add.
  destruct (String.eqb k x) eqn:E.
  - apply String.eqb_eq in E. subst k. rewrite HV, Hf. simpl. lia.
  - destruct Hin as [-> | Hin]; [rewrite String.eqb_refl in E; discriminate |].
    specialize (IH Hin). rewrite orb_false_r. lia.
Qed.

(** The loop leaves after at most [length queue + pending] iterations. *)
Lemma bfsOwn_terminates (fuel : nat) : forall deps queue V,
  List.length queue + pending g V (keys g) <= fuel ->
  exists r, bfsOwn fuel g deps queue V = Some r.
Proof.
  induction fuel as [| fuel IH]; intros deps queue V Hm.
  - destruct queue; simpl in *; [eauto | lia].
  - destruct queue as [| cur queue]; simpl in *; [eauto |].
    destruct (has V cur) eqn:EV.
    + apply IH. lia.
    + destruct (lookup g cur) as [f |] eqn:Ef.
      * apply IH. rewrite length_app.
        pose proof (pending_add_lt V cur f (keys g)
                      (lookup_Some_key _ _ _ Ef) EV Ef). lia.
      * apply IH. pose proof (pending_add_le V cur (keys g)). lia.
Qed.

(** More fuel does not change an answer. *)
Lemma bfsOwn_fuel_mono (fuel : nat) : forall fuel' deps queue V r,
  fuel <= fuel' ->
  bfsOwn fuel g deps queue V = Some r -> bfsOwn fuel' g deps queue V = Some r.
Proof.
  induction fuel as [| fuel IH]; intros fuel' deps queue V r Hle H.
  - destruct queue; simpl in H; [| discriminate].
    destruct fuel'; simpl; assumption.
  - destruct fuel' as [| fuel']; [lia |].
    destruct queue as [| cur queue]; simpl in *; [assumption |].
    destruct (has V cur); [apply IH with (fuel' := fuel') in H; [assumption | lia] |].
    destruct (lookup g cur);
      (apply IH with (fuel' := fuel') in H; [assumption | lia]).
Qed.

Lemma ownDependencies_returns (target : string) (fuel : nat) :
  getDependencies_bound g <= fuel ->
  ownDependencies_fuel fuel target g = Some (ownDependencies target g).
Proof.
  intros Hle. unfold ownDependencies.
  destruct (bfsOwn_terminates (getDependencies_bound g) empty [target] empty) as [r Hr].
  { unfold getDependencies_bound. simpl. lia. }
  unfold ownDependencies_fuel at 2. rewrite Hr.
  unfold ownDependencies_fuel. eapply bfsOwn_fuel_mono; eassumption.
Qed.

(** ** The queue loop on own entries: what the result holds *)

(** Nothing leaves the result set. *)
Lemma bfsOwn_incl (fuel : nat) : forall deps queue V r,
  bfsOwn fuel g deps queue V = Some r -> incl deps r.
Proof.
  induction fuel as [| fuel IH]; intros deps queue V r H.
  - destruct queue; simpl in H; [| discriminate].
    injection H as <-. apply incl_refl.
  - destruct queue as [| cur queue]; simpl in H.
    + injection H as <-. apply incl_refl.
    + destruct (has V cur); [eauto |].
      destruct (lookup g cur); [| eauto].
      apply IH in H. intros y Hy. apply H. apply fold_add_In. now left.
Qed.

Lemma bfsOwn_NoDup (fuel : nat) : forall deps queue V r,
  NoDup deps -> bfsOwn fuel g deps queue V = Some r -> NoDup r.
Proof.
  induction fuel as [| fuel IH]; intros deps queue V r Hnd H.
  - destruct queue; simpl in H; [| discriminate]. now injection H as <-.
  - destruct queue as [| cur queue]; simpl in H.
    + now injection H as <-.
    + destruct (has V cur); [eauto |].
      destruct (lookup g cur); [| eauto].
      eapply IH; [| eassumption]. now apply fold_add_NoDup.
Qed.

(** Soundness: what is in the result is a dependency of something that
    was in the queue or of a visited form, or was in the set before. *)
Lemma bfsOwn_sound (target : string) (fuel : nat) : forall deps queue V r,
  (forall x, In x deps -> plus (dep g) target x) ->
  (forall q, In q queue -> star (dep g) target q) ->
  bfsOwn fuel g deps queue V = Some r ->
  forall x, In x r -> plus (dep g) target x.
Proof.
  induction fuel as [| fuel IH]; intros deps queue V r Hd Hq H.
  - destruct queue; simpl in H; [| discriminate]. now injection H as <-.
  - destruct queue as [| cur queue]; simpl in H.
    + now injection H as <-.
    + assert (Hq' : forall q, In q queue -> star (dep g) target q)
        by (intros; apply Hq; now right).
      destruct (has V cur); [eauto |].
      destruct (lookup g cur) as [f |] eqn:Ef; [| eauto].
      assert (Hnew : forall d, In d (dependencies f) -> plus (dep g) target d).
      { intros d Hin. apply star_snoc with (b := cur).
        - apply Hq. now left.
        - exists f. auto. }
      eapply IH; [| | eassumption].
      * intros x Hx. apply fold_add_In in Hx. destruct Hx; auto.
      * intros q Hin. apply in_app_iff in Hin. destruct Hin; [auto |].
        right. auto.
Qed.

Lemma bfsOwn_complete (fuel : nat) : forall deps queue V r,
  bfs_inv g deps queue V ->
  bfsOwn fuel g deps queue V = Some r ->
  forall v x, In v V \/ In v queue -> plus (dep g) v x -> In x r.
Proof.
  assert (Hdone : forall deps V, bfs_inv g deps [] V ->
            forall v x, plus (dep g) v x -> In v V -> In x deps).
  { intros deps V HI v x Hp. induction Hp as [a b Hab | a b c Hab _ IH]; intros Ha.
    - now apply (HI a b).
    - apply IH. destruct (HI a b Ha Hab) as [_ [Hb | []]]. assumption. }
  induction fuel as [| fuel IH]; intros deps queue V r HI H v x Hv Hp.
  - destruct queue; simpl in H; [| discriminate]. injection H as <-.
    destruct Hv as [Hv | []]. eapply Hdone; eassumption.
  - destruct queue as [| cur queue]; simpl in H.
    + injection H as <-. destruct Hv as [Hv | []]. eapply Hdone; eassumption.
    + destruct (has V cur) eqn:EV.
      * apply has_true in EV.
        eapply IH; [| eassumption | | eassumption].
        -- intros a d Ha Had. destruct (HI a d Ha Had) as [H1 [H2 | [<- | H2]]]; auto.
        -- destruct Hv as [Hv | [<- | Hv]]; auto.
      * destruct (lookup g cur) as [f |] eqn:Ef.
        -- eapply IH; [| eassumption | | eassumption].
           ++ intros a d Ha Had. apply add_In in Ha.
              rewrite fold_add_In, add_In, in_app_iff.
              destruct Ha as [Ha | ->].
              ** destruct (HI a d Ha Had) as [H1 [H2 | [<- | H2]]]; auto.
              ** destruct Had as [f' [Hf' Hd]]. rewrite Ef in Hf'.
                 injection Hf' as <-. auto.
           ++ rewrite add_In, in_app_iff.
              destruct Hv as [Hv | [<- | Hv]]; auto.
        -- eapply IH; [| eassumption | | eassumption].
           ++ intros a d Ha Had. apply add_In in Ha. rewrite add_In.
              destruct Ha as [Ha | ->].
              ** destruct (HI a d Ha Had) as [H1 [H2 | [<- | H2]]]; auto.
              ** destruct Had as [f' [Hf' _]]. congruence.
           ++ rewrite add_In. destruct Hv as [Hv | [<- | Hv]]; auto.
Qed.

(** [ownDependencies] computes the forms reachable in one or more steps. *)
Lemma ownDependencies_spec (target x : string) :
  In x (ownDependencies target g) <-> plus (dep g) target x.
Proof.
  pose proof (ownDependencies_returns target _ (le_n _)) as H.
  unfold ownDependencies_fuel in H. split.
  - eapply bfsOwn_sound; [| | exact H].
    + intros y [].
    + intros q [<- | []]. now left.
  - eapply bfsOwn_complete; [| exact H |].
    + intros v d [].
    + right. now left.
Qed.

Lemma ownDependencies_NoDup (target : string) : NoDup (ownDependencies target g).
Proof.
  pose proof (ownDependencies_returns target _ (le_n _)) as H.
  eapply bfsOwn_NoDup; [| exact H]. constructor.
Qed.

Lemma ownDirect_spec (target x : string) :
  In x (ownDirect target g) <-> dep g target x.
Proof.
  unfold ownDirect, dep. destruct (lookup g target) as [f |].
  - rewrite of_list_In. split; [eauto |]. now intros [f' [[= <-] H]].
  - simpl. split; [intros [] |]. now intros [f' [[=] _]].
Qed.

Lemma ownTransitive_spec (target x : string) :
  In x (ownTransitive target g) <->
  plus (dep g) target x /\ ~ dep g target x.
Proof.
  unfold ownTransitive, to_list.
  now rewrite fold_delete_In, ownDependencies_spec, ownDirect_spec.
Qed.

End Bfs.

(** ** The recursive search on own entries *)

Section Dfs.
Import JsSet JsSetFacts.
Variable g : FormGraph.

Lemma hasCycleOwn_unfold (fuel : nat) (formId : string) (st : DfsState) :
  hasCycleOwn (S fuel) g formId st =
  let st1 := mkDfs (add (visited st) formId) (add (recursionStack st) formId) in
  match lookup g formId with
  | None => Some (false, mkDfs (visited st1) (delete (recursionStack st1) formId))
  | Some form =>
    match forOwn (depBodyOwn g fuel) (dependencies form) st1 with
    | None => None
    | Some (true, st') => Some (true, st')
    | Some (false, st') =>
      Some (false, mkDfs (visited st') (delete (recursionStack st') formId))
    end
  end.
Proof. reflexivity. Qed.

Lemma ownCircular_fuel_unfold (fuel : nat) :
  ownCircular_fuel fuel g =
  match forOwn (keyBodyOwn g fuel) (keys g) (mkDfs empty empty) with
  | None => None
  | Some (b, _) => Some b
  end.
Proof. reflexivity. Qed.

(** *** More fuel does not change an answer *)

Lemma forOwn_mono (body body' : string -> DfsState -> option (bool * DfsState)) :
  (forall x s r, body x s = Some r -> body' x s = Some r) ->
  forall xs s r, forOwn body xs s = Some r -> forOwn body' xs s = Some r.
Proof.
  intros Hb. induction xs as [| x xs IH]; simpl; intros s r H; [assumption |].
  destruct (body x s) as [[[] s'] |] eqn:E; try discriminate;
    rewrite (Hb _ _ _ E); auto.
Qed.

Lemma hasCycleOwn_fuel_mono (fuel : nat) : forall fuel' x st r,
  fuel <= fuel' -> hasCycleOwn fuel g x st = Some r -> hasCycleOwn fuel' g x st = Some r.
Proof.
  induction fuel as [| fuel IH]; intros fuel' x st r Hle H; [discriminate |].
  destruct fuel' as [| fuel']; [lia |].
  rewrite hasCycleOwn_unfold in *. cbv zeta in *.
  destruct (lookup g x) as [f |]; [| assumption].
  destruct (forOwn (depBodyOwn g fuel) (dependencies f) _) as [res |] eqn:E;
    [| discriminate].
  erewrite forOwn_mono; [eassumption | | eassumption].
  intros d s r'. unfold depBodyOwn.
  destruct (negb (has (visited s) d)); [| auto].
  apply IH. lia.
Qed.

(** *** Termination *)

Lemma unvisited_filter_le (V V' : t) (us : list string) :
  incl V V' ->
  List.length (filter (fun u => negb (has V' u)) us) <=
  List.length (filter (fun u => negb (has V u)) us).
Proof.
  intros Hi. induction us as [| u us IH]; simpl; [lia |].
  destruct (has V u) eqn:E.
  - apply has_true in E. apply Hi in E. apply has_true in E. rewrite E. simpl. lia.
  - destruct (has V' u); simpl; lia.
Qed.

Lemma unvisited_le (V V' : t) : incl V V' -> unvisited g V' <= unvisited g V.
Proof. apply unvisited_filter_le. Qed.

Lemma unvisited_add_lt (V : t) (x : string) :
  In x (universe g) -> ~ In x V -> unvisited g (add V x) < unvisited g V.
Proof.
  unfold unvisited. intros Hin HV.
  induction (universe g) as [| u us IH]; [destruct Hin |].
  assert (Hle : List.length (filter (fun u => negb (has (add V x) u)) us) <=
                List.length (filter (fun u => negb (has V u)) us)).
  { apply unvisited_filter_le. intros y Hy. apply add_In. now left. }
  simpl. rewrite has_add.
  destruct (String.eqb u x) eqn:E.
  - apply String.eqb_eq in E. subst u. apply has_false in HV. rewrite HV.
    simpl. lia.
  - destruct Hin as [-> | Hin]; [rewrite String.eqb_refl in E; discriminate |].
    specialize (IH Hin). rewrite orb_false_r. destruct (has V u); simpl; lia.
Qed.

Lemma dependencies_universe (x : string) (f : Form) :
  lookup g x = Some f -> incl (dependencies f) (universe g).
Proof.
  intros Hf d Hd. unfold universe. apply in_app_iff. right.
  apply in_flat_map. exists f. split; [| assumption].
  eapply lookup_Some_value; eassumption.
Qed.

(** A call on an unvisited identifier of the universe answers when the
    fuel covers the identifiers still unvisited; the visited set grows. *)
Lemma hasCycleOwn_terminates (fuel : nat) : forall x st,
  In x (universe g) -> ~ In x (visited st) -> unvisited g (visited st) <= fuel ->
  exists b st', hasCycleOwn fuel g x st = Some (b, st') /\
                incl (visited st) (visited st').
Proof.
  induction fuel as [| fuel IH]; intros x st Hx Hnv Hm.
  - pose proof (unvisited_add_lt _ _ Hx Hnv). lia.
  - rewrite hasCycleOwn_unfold. cbv zeta.
    assert (Hadd : incl (visited st) (add (visited st) x))
      by (intros y Hy; apply add_In; now left).
    destruct (lookup g x) as [f |] eqn:Ef; [| simpl; eauto].
    pose proof (unvisited_add_lt _ _ Hx Hnv) as Hlt.
    pose proof (dependencies_universe _ _ Ef) as Hu.
    set (st1 := mkDfs _ _).
    assert (Hm1 : unvisited g (visited st1) <= fuel) by (simpl; lia).
    assert (Hi1 : incl (visited st) (visited st1)) by exact Hadd.
    clearbody st1. clear Hlt Hadd.
    assert (Hloop : exists b st', forOwn (depBodyOwn g fuel) (dependencies f) st1 = Some (b, st')
                                  /\ incl (visited st1) (visited st')).
    { clear Hi1. revert st1 Hm1.
      induction (dependencies f) as [| d ds IHds]; intros st1 Hm1; simpl.
      - exists false, st1. split; [reflexivity | apply incl_refl].
      - assert (Hd : exists b s, depBodyOwn g fuel d st1 = Some (b, s)
                                 /\ incl (visited st1) (visited s)).
        { unfold depBodyOwn. destruct (has (visited st1) d) eqn:E; simpl.
          - destruct (has (recursionStack st1) d);
              eexists _, st1; (split; [reflexivity | apply incl_refl]).
          - apply has_false in E. apply IH; auto. apply Hu. now left. }
        destruct Hd as [b [s [Hd Hi]]]. rewrite Hd. destruct b.
        + eauto.
        + destruct (IHds (fun y Hy => Hu y (or_intror Hy)) s) as [b' [s' [H1 H2]]].
          { pose proof (unvisited_le _ _ Hi). lia. }
          exists b', s'. split; [assumption |].
          eapply incl_tran; eassumption. }
    destruct Hloop as [b [st' [Hl Hi]]]. rewrite Hl.
    destruct b; eexists _, _; (split; [reflexivity |]); simpl;
      eapply incl_tran; eassumption.
Qed.

Lemma keys_universe : incl (keys g) (universe g).
Proof. intros k Hk. unfold universe. apply in_app_iff. now left. Qed.

Lemma keyLoop_terminates (fuel : nat) : forall ks st,
  incl ks (universe g) -> unvisited g (visited st) <= fuel ->
  exists b st', forOwn (keyBodyOwn g fuel) ks st = Some (b, st').
Proof.
  induction ks as [| k ks IH]; intros st Hks Hm; simpl; [eauto |].
  assert (Hk : exists b s, keyBodyOwn g fuel k st = Some (b, s)
                           /\ incl (visited st) (visited s)).
  { unfold keyBodyOwn. destruct (has (visited st) k) eqn:E; simpl.
    - exists false, st. split; [reflexivity | apply incl_refl].
    - apply has_false in E. apply hasCycleOwn_terminates; auto.
      apply Hks. now left. }
  destruct Hk as [b [s [Hk Hi]]]. rewrite Hk. destruct b; [eauto |].
  apply IH.
  - intros y Hy. apply Hks. now right.
  - pose proof (unvisited_le _ _ Hi). lia.
Qed.

Lemma ownCircular_returns (fuel : nat) :
  hasCircularDependencies_bound g <= fuel ->
  ownCircular_fuel fuel g = Some (ownCircular g).
Proof.
  intros Hle.
  assert (Hb : unvisited g empty <= hasCircularDependencies_bound g).
  { unfold unvisited, hasCircularDependencies_bound. apply filter_length_le. }
  destruct (keyLoop_terminates (hasCircularDependencies_bound g) (keys g)
              (mkDfs empty empty) keys_universe Hb) as [b [st' H]].
  unfold ownCircular.
  rewrite !ownCircular_fuel_unfold, H.
  rewrite (forOwn_mono (keyBodyOwn g (hasCircularDependencies_bound g)) (keyBodyOwn g fuel))
    with (r := (b, st')); [reflexivity | | exact H].
  intros x s r. unfold keyBodyOwn.
  destruct (negb (has (visited s) x)); [| auto].
  now apply hasCycleOwn_fuel_mono.
Qed.

End Dfs.

(** *** Correctness of the search *)

Section DfsCorrect.
Import JsSet JsSetFacts.
Variable g : FormGraph.

Lemma dfs_inv_init : dfs_inv g (mkDfs empty empty).
Proof.
  split; unfold empty; simpl.
  - intros y [].
  - intros b d [].
  - intros b [].
Qed.

Lemma finished_closed (st : DfsState) (b c : string) :
  dfs_inv g st -> plus (dep g) b c ->
  In b (visited st) -> ~ In b (recursionStack st) ->
  In c (visited st) /\ ~ In c (recursionStack st).
Proof.
  intros HI Hp. induction Hp as [a b Hab | a b c Hab _ IH]; intros Hv Hs.
  - eapply inv_closed; eassumption.
  - destruct (inv_closed g _ HI a b Hv Hs Hab). auto.
Qed.

(** Entering [hasCycleOwn(x)] for an unvisited [x]. *)
Lemma dfs_inv_enter (st : DfsState) (x : string) :
  dfs_inv g st -> ~ In x (visited st) ->
  dfs_inv g (mkDfs (add (visited st) x) (add (recursionStack st) x)).
Proof.
  intros HI Hx. split; simpl.
  - intros y Hy. apply add_In in Hy. apply add_In.
    destruct Hy as [Hy | ->]; [left; now apply (inv_stack g _ HI) | now right].
  - intros b d Hb Hs Hd. rewrite add_In in Hb, Hs.
    destruct Hb as [Hb | ->]; [| tauto].
    destruct (inv_closed g _ HI b d Hb) as [H1 H2]; [tauto | assumption |].
    rewrite !add_In. split; [tauto |].
    intros [H | ->]; tauto.
  - intros b Hb Hs. rewrite add_In in Hb, Hs.
    destruct Hb as [Hb | ->]; [| tauto].
    apply (inv_acyclic g _ HI); tauto.
Qed.

(** Leaving [hasCycleOwn(x)] after the loop over its dependencies fell
    through: every dependency is finished, so [x] is. *)
Lemma dfs_inv_leave (st2 : DfsState) (S0 : t) (x : string) :
  dfs_inv g st2 -> recursionStack st2 = add S0 x -> ~ In x S0 ->
  (forall d, dep g x d -> In d (visited st2) /\ ~ In d (add S0 x)) ->
  dfs_inv g (mkDfs (visited st2) S0).
Proof.
  intros HI HS Hx Hdeps.
  assert (Hxs : In x (recursionStack st2)) by (rewrite HS; apply add_In; now right).
  assert (Hfin : forall b, In b (visited st2) -> ~ In b S0 -> b <> x ->
                           ~ In b (recursionStack st2)).
  { intros b _ Hb Hne. rewrite HS, add_In. tauto. }
  assert (Hweak : forall d, ~ In d (recursionStack st2) -> ~ In d S0).
  { intros d Hd Hin. apply Hd. rewrite HS. apply add_In. now left. }
  split; simpl.
  - intros y Hy. apply (inv_stack g _ HI). rewrite HS. apply add_In. now left.
  - intros b d Hb Hs Hd. destruct (string_dec b x) as [-> | Hne].
    + destruct (Hdeps d Hd) as [H1 H2]. split; [assumption |].
      intros Hin. apply H2. apply add_In. now left.
    + destruct (inv_closed g _ HI b d Hb (Hfin b Hb Hs Hne) Hd). auto.
  - intros b Hb Hs Hcyc. destruct (string_dec b x) as [-> | Hne].
    + assert (Hbad : ~ In x (recursionStack st2)); [| tauto].
      inversion Hcyc as [a b' Hd | a d c Hd Hp]; subst.
      * destruct (Hdeps x Hd) as [_ H2]. now rewrite HS.
      * destruct (Hdeps d Hd) as [H1 H2]. rewrite <- HS in H2.
        apply (finished_closed st2 d x HI Hp H1 H2).
    + apply (inv_acyclic g _ HI b Hb (Hfin b Hb Hs Hne) Hcyc).
Qed.

Section DepLoop.
Variable fuel : nat.
Hypothesis IHfalse : forall x st st',
  dfs_inv g st -> ~ In x (visited st) ->
  hasCycleOwn fuel g x st = Some (false, st') -> false_post g x st st'.

Lemma depBody_false (d : string) (st st' : DfsState) :
  dfs_inv g st -> depBodyOwn g fuel d st = Some (false, st') ->
  recursionStack st' = recursionStack st /\
  incl (visited st) (visited st') /\ dfs_inv g st' /\
  In d (visited st') /\ ~ In d (recursionStack st).
Proof.
  intros HI. unfold depBodyOwn. destruct (has (visited st) d) eqn:EV; simpl.
  - destruct (has (recursionStack st) d) eqn:ES; [discriminate |].
    intros [= <-]. apply has_true in EV. apply has_false in ES.
    auto 6 using incl_refl.
  - apply has_false in EV. intros H.
    destruct (IHfalse d st st' HI EV H) as (H1 & H2 & H3 & H4).
    assert (~ In d (recursionStack st))
      by (intros Hin; apply EV; now apply (inv_stack g _ HI)).
    auto 6.
Qed.

Lemma depLoop_false : forall ds st st',
  dfs_inv g st -> forOwn (depBodyOwn g fuel) ds st = Some (false, st') ->
  recursionStack st' = recursionStack st /\
  incl (visited st) (visited st') /\ dfs_inv g st' /\
  forall d, In d ds -> In d (visited st') /\ ~ In d (recursionStack st).
Proof.
  induction ds as [| d ds IH]; intros st st' HI H; simpl in H.
  - injection H as <-.
    assert (forall d, In d [] -> In d (visited st) /\ ~ In d (recursionStack st))
      by (intros d []).
    auto 6 using incl_refl.
  - destruct (depBodyOwn g fuel d st) as [[[] s] |] eqn:E; try discriminate.
    destruct (depBody_false d st s HI E) as (H1 & H2 & H3 & H4 & H5).
    destruct (IH s st' H3 H) as (K1 & K2 & K3 & K4).
    split; [congruence |]. split; [eapply incl_tran; eassumption |].
    split; [assumption |].
    intros d' [<- | Hin].
    + split; [now apply K2 | assumption].
    + destruct (K4 d' Hin) as [L1 L2]. split; [assumption | congruence].
Qed.
End DepLoop.

Lemma hasCycleOwn_false (fuel : nat) : forall x st st',
  dfs_inv g st -> ~ In x (visited st) ->
  hasCycleOwn fuel g x st = Some (false, st') -> false_post g x st st'.
Proof.
  induction fuel as [| fuel IH]; intros x st st' HI Hx H; [discriminate |].
  rewrite hasCycleOwn_unfold in H. cbv zeta in H.
  assert (HxS : ~ In x (recursionStack st))
    by (intros Hin; apply Hx; now apply (inv_stack g _ HI)).
  pose proof (dfs_inv_enter st x HI Hx) as HI1.
  destruct (lookup g x) as [f |] eqn:Ef.
  - destruct (forOwn _ _ _) as [[[] st2] |] eqn:El; try discriminate.
    injection H as <-.
    destruct (depLoop_false fuel IH _ _ _ HI1 El) as (H1 & H2 & H3 & H4).
    simpl in H1, H2, H4. unfold false_post. simpl.
    rewrite H1, (delete_add _ _ HxS).
    split; [reflexivity |]. split.
    { intros y Hy. apply H2. apply add_In. now left. }
    split.
    { apply H2. apply add_In. now right. }
    apply dfs_inv_leave with (x := x); auto.
    intros d [f' [Hf' Hd]]. rewrite Ef in Hf'. injection Hf' as <-. auto.
  - injection H as <-. unfold false_post. simpl.
    rewrite (delete_add _ _ HxS).
    split; [reflexivity |]. split.
    { intros y Hy. apply add_In. now left. }
    split.
    { apply add_In. now right. }
    apply dfs_inv_leave with (st2 := mkDfs (add (visited st) x) (add (recursionStack st) x))
                             (x := x); auto.
    intros d [f' [Hf' _]]. congruence.
Qed.

(** A call that returns [true] has closed a cycle, provided every form
    on the stack reaches the form the call is made on. *)
Lemma hasCycleOwn_true (fuel : nat) : forall x st st',
  dfs_inv g st -> ~ In x (visited st) ->
  (forall s, In s (recursionStack st) -> star (dep g) s x) ->
  hasCycleOwn fuel g x st = Some (true, st') ->
  exists c, plus (dep g) c c.
Proof.
  induction fuel as [| fuel IH]; intros x st st' HI Hx Hpath H; [discriminate |].
  rewrite hasCycleOwn_unfold in H. cbv zeta in H.
  destruct (lookup g x) as [f |] eqn:Ef; [| discriminate].
  destruct (forOwn _ _ _) as [[[] st2] |] eqn:El; try discriminate.
  clear H.
  pose proof (dfs_inv_enter st x HI Hx) as HI1.
  assert (Hpath1 : forall s, In s (add (recursionStack st) x) -> star (dep g) s x).
  { intros s Hs. apply add_In in Hs. destruct Hs as [Hs | ->]; [auto | now left]. }
  assert (Hdeps : forall d, In d (dependencies f) -> dep g x d)
    by (intros d Hd; exists f; auto).
  set (st1 := mkDfs _ _) in *.
  change (add (recursionStack st) x) with (recursionStack st1) in Hpath1.
  clearbody st1. clear HI Hx Hpath Ef.
  revert st1 HI1 Hpath1 El.
  induction (dependencies f) as [| d ds IHds]; intros st1 HI1 Hpath1 El;
    simpl in El; [discriminate |].
  assert (Hd : dep g x d) by (apply Hdeps; now left).
  destruct (depBodyOwn g fuel d st1) as [[[] s] |] eqn:E; try discriminate.
  - unfold depBodyOwn in E. destruct (has (visited st1) d) eqn:EV; simpl in E.
    + destruct (has (recursionStack st1) d) eqn:ES; [| discriminate].
      apply has_true in ES. exists d.
      eapply star_snoc; [apply Hpath1 |]; eassumption.
    + apply has_false in EV. eapply IH; [exact HI1 | exact EV | | exact E].
      intros s0 Hs0. right. eapply star_snoc; [apply Hpath1 |]; eassumption.
  - destruct (depBody_false fuel (hasCycleOwn_false fuel) d st1 s HI1 E)
      as (H1 & _ & H3 & _).
    apply (IHds (fun y Hy => Hdeps y (or_intror Hy)) s H3); [| assumption].
    now rewrite H1.
Qed.

(** The outer loop. *)
Lemma keyLoop_false (fuel : nat) : forall ks st st',
  dfs_inv g st -> recursionStack st = empty ->
  forOwn (keyBodyOwn g fuel) ks st = Some (false, st') ->
  dfs_inv g st' /\ recursionStack st' = empty /\
  incl (visited st) (visited st') /\ incl ks (visited st').
Proof.
  induction ks as [| k ks IH]; intros st st' HI HS H; simpl in H.
  - injection H as <-.
    assert (incl [] (visited st)) by (intros y []).
    auto 6 using incl_refl.
  - destruct (keyBodyOwn g fuel k st) as [[[] s] |] eqn:E; try discriminate.
    assert (Hs : dfs_inv g s /\ recursionStack s = empty /\
                 incl (visited st) (visited s) /\ In k (visited s)).
    { unfold keyBodyOwn in E. destruct (has (visited st) k) eqn:EV; simpl in E.
      - injection E as <-. apply has_true in EV. auto using incl_refl.
      - apply has_false in EV.
        destruct (hasCycleOwn_false fuel k st s HI EV E) as (H1 & H2 & H3 & H4).
        assert (recursionStack s = empty) by congruence.
        auto 6. }
    destruct Hs as (H1 & H2 & H3 & H4).
    destruct (IH s st' H1 H2 H) as (K1 & K2 & K3 & K4).
    assert (incl (visited st) (visited st')) by (eapply incl_tran; eassumption).
    assert (incl (k :: ks) (visited st')) by (intros y [<- | Hy]; auto).
    auto 6.
Qed.

Lemma keyLoop_true (fuel : nat) : forall ks st st',
  dfs_inv g st -> recursionStack st = empty ->
  forOwn (keyBodyOwn g fuel) ks st = Some (true, st') ->
  exists c, plus (dep g) c c.
Proof.
  induction ks as [| k ks IH]; intros st st' HI HS H; simpl in H; [discriminate |].
  destruct (keyBodyOwn g fuel k st) as [[[] s] |] eqn:E; try discriminate.
  - unfold keyBodyOwn in E. destruct (has (visited st) k) eqn:EV; simpl in E;
      [discriminate |].
    apply has_false in EV. eapply hasCycleOwn_true; [exact HI | exact EV | | exact E].
    rewrite HS. intros s0 [].
  - destruct (keyLoop_false fuel [k] st s HI HS) as (H1 & H2 & _).
    { simpl. now rewrite E. }
    eapply IH; eassumption.
Qed.

(** [ownCircular] decides whether the dependency relation has
    a cycle. *)
Lemma ownCircular_spec :
  ownCircular g = true <-> exists c, plus (dep g) c c.
Proof.
  pose proof (ownCircular_returns g _ (le_n _)) as Hret.
  rewrite ownCircular_fuel_unfold in Hret.
  destruct (forOwn _ _ _) as [[b st'] |] eqn:El; [| discriminate].
  injection Hret as Hb. rewrite <- Hb. destruct b.
  - split; [intros _ | reflexivity].
    eapply keyLoop_true; [apply dfs_inv_init | reflexivity | exact El].
  - split; [discriminate |]. intros [c Hc]. exfalso.
    destruct (keyLoop_false _ _ _ _ dfs_inv_init eq_refl El) as (H1 & H2 & _ & H4).
    apply (inv_acyclic g _ H1 c); [| rewrite H2; intros [] | assumption].
    apply H4. inversion Hc as [a b [f [Hf _]] | a b c' [f [Hf _]] _]; subst;
      eapply lookup_Some_key; eassumption.
Qed.

End DfsCorrect.

(** ** The registry *)

Module JsMapFacts.
Import JsMap.

Section Entries.
Context {V : Type}.

Lemma get_set (m : t V) (k k' : string) (v : V) :
  get (set m k v) k' = if String.eqb k k' then Some v else get m k'.
Proof.
  induction m as [| [k0 v0] m IH]; simpl; [reflexivity |].
  destruct (String.eqb k0 k) eqn:E; simpl.
  - apply String.eqb_eq in E. subst k0. now destruct (String.eqb k k').
  - rewrite IH. destruct (String.eqb k0 k') eqn:E'; [| reflexivity].
    apply String.eqb_eq in E'. subst k0. now rewrite String.eqb_sym, E.
Qed.

Lemma get_In_values (m : t V) (k : string) (v : V) :
  get m k = Some v -> In v (values m).
Proof.
  induction m as [| [k0 v0] m IH]; simpl; [discriminate |].
  destruct (String.eqb k0 k); [intros [= ->]; now left | auto].
Qed.

Lemma values_set (m : t V) (k : string) (v v' : V) :
  In v' (values (set m k v)) -> v' = v \/ In v' (values m).
Proof.
  induction m as [| [k0 v0] m IH]; simpl.
  - intros [<- | []]. now left.
  - destruct (String.eqb k0 k); simpl; intros [<- | H]; auto.
    destruct (IH H); auto.
Qed.
End Entries.

End JsMapFacts.

Section Registry.
Import JsMapFacts.

Lemma get_register (r : DataSourceRegistry.t) (s : DataSource) (k : string) :
  DataSourceRegistry.get (DataSourceRegistry.register r s) k =
  if String.eqb (ds_id s) k then Some s else DataSourceRegistry.get r k.
Proof. apply get_set. Qed.

Lemma registerAll_snoc (fs : list Form) (f : Form) (r : DataSourceRegistry.t) :
  registerAll (fs ++ [f]) r =
  DataSourceRegistry.register (registerAll fs r)
                              (FormDataSource (form_id f) (form_name f) f).
Proof. unfold registerAll. now rewrite fold_left_app. Qed.


(** An identifier some form carries resolves to a form-backed source. *)
Lemma registerAll_get_form (fs : list Form) (r : DataSourceRegistry.t) (d : string) :
  (exists f, In f fs /\ form_id f = d) ->
  exists f, In f fs /\ form_id f = d /\
            DataSourceRegistry.get (registerAll fs r) d =
            Some (FormDataSource d (form_name f) f).
Proof.
  induction fs as [| f fs IH] using rev_ind; intros [f0 [Hin Hid]]; [destruct Hin |].
  rewrite registerAll_snoc, get_register. simpl.
  destruct (String.eqb (form_id f) d) eqn:E.
  - apply String.eqb_eq in E. exists f.
    split; [apply in_app_iff; right; now left | split; [exact E | now rewrite E]].
  - apply in_app_iff in Hin. destruct Hin as [Hin | [-> | []]].
    + destruct IH as [f' (H1 & H2 & H3)]; [eauto |].
      exists f'. split; [apply in_app_iff; now left | split; assumption].
    + apply String.eqb_neq in E. contradiction.
Qed.

Lemma registerAll_types (fs : list Form) (r : DataSourceRegistry.t) (s : DataSource) :
  In s (DataSourceRegistry.getAll (registerAll fs r)) ->
  ds_type s = form_t \/ In s (DataSourceRegistry.getAll r).
Proof.
  induction fs as [| f fs IH] using rev_ind; intros H; [now right |].
  rewrite registerAll_snoc in H. apply values_set in H.
  destruct H as [-> | H]; [now left | auto].
Qed.

Lemma keyed_register (r : DataSourceRegistry.t) (s : DataSource) :
  keyed r -> keyed (DataSourceRegistry.register r s).
Proof.
  intros Hr k s'. rewrite get_register.
  destruct (String.eqb (ds_id s) k) eqn:E.
  - apply String.eqb_eq in E. now intros [= <-].
  - apply Hr.
Qed.

Lemma keyed_registerAll (fs : list Form) (r : DataSourceRegistry.t) :
  keyed r -> keyed (registerAll fs r).
Proof.
  induction fs as [| f fs IH] using rev_ind; intros Hr; [assumption |].
  rewrite registerAll_snoc. apply keyed_register. auto.
Qed.

Lemma keyed_registerGlobals (s : option GlobalData) (r : DataSourceRegistry.t) :
  keyed r -> keyed (registerGlobals s r).
Proof.
  destruct s; simpl; [| auto]. intros. now repeat apply keyed_register.
Qed.

Lemma registerGlobals_get (gd : GlobalData) (r : DataSourceRegistry.t) (d : string) :
  DataSourceRegistry.get (registerGlobals (Some gd) r) d =
  if String.eqb ORG_ID d then Some (OrganizationDataSource gd)
  else if String.eqb ACTION_ID d then Some (GlobalDataSource gd)
  else DataSourceRegistry.get r d.
Proof. simpl. now rewrite !get_register. Qed.

Lemma In_definedOnly {A B : Type} (f : A -> option B) (l : list A) (y : B) :
  In y (definedOnly (map f l)) <-> exists x, In x l /\ f x = Some y.
Proof.
  induction l as [| a l IH]; simpl.
  - split; [intros [] | intros [x [[] _]]].
  - destruct (f a) as [b |] eqn:E; simpl; rewrite IH; split.
    + intros [<- | [x [H1 H2]]]; eauto.
    + intros [x [[<- | H1] H2]]; [left; congruence | eauto].
    + intros [x [H1 H2]]; eauto.
    + intros [x [[<- | H1] H2]]; [congruence | eauto].
Qed.

Lemma In_getByType (r : DataSourceRegistry.t) (ty : DataSourceType) (s : DataSource) :
  In s (DataSourceRegistry.getByType r ty) <->
  In s (DataSourceRegistry.getAll r) /\ ds_type s = ty.
Proof.
  unfold DataSourceRegistry.getByType. rewrite filter_In.
  destruct (ds_type s), ty; simpl; intuition congruence.
Qed.

Lemma categorize_selected (t : string) (g : FormGraph) (s : option GlobalData) :
  t <> "" ->
  categorize (Some t) g s =
  mkCategorized
    (definedOnly (map (DataSourceRegistry.get (registryOf g s))
                      (ownDirect t g)))
    (definedOnly (map (DataSourceRegistry.get (registryOf g s))
                      (ownTransitive t g)))
    (DataSourceRegistry.getByType (registryOf g s) global_t).
Proof.
  intros Ht. unfold categorize. apply String.eqb_neq in Ht. now rewrite Ht.
Qed.

Lemma ownDependencies_absent (t : string) (g : FormGraph) :
  lookup g t = None -> ownDependencies t g = [].
Proof.
  intros H. unfold ownDependencies, ownDependencies_fuel, getDependencies_bound.
  cbn [bfsOwn JsSet.has JsSet.empty existsb]. rewrite H.
  now destruct (pending g JsSet.empty (keys g)).
Qed.

End Registry.

(** ** The code against the searches on own entries *)

Lemma getProperty_Found (g : FormGraph) (k : string) (f : Form) :
  getProperty g k = Found f <-> lookup g k = Some f.
Proof.
  unfold getProperty. destruct (lookup g k) as [f' |].
  - split; intros [= ->]; reflexivity.
  - destruct (isInherited k); split; discriminate.
Qed.

Lemma getProperty_Inherited (g : FormGraph) (k : string) :
  getProperty g k = Inherited <-> lookup g k = None /\ isInherited k = true.
Proof.
  unfold getProperty. destruct (lookup g k) as [f' |].
  - split; [discriminate | intros [[=] _]].
  - destruct (isInherited k); split; auto; try discriminate. now intros [_ [=]].
Qed.

Lemma getProperty_Missing (g : FormGraph) (k : string) :
  getProperty g k = Missing <-> lookup g k = None /\ isInherited k = false.
Proof.
  unfold getProperty. destruct (lookup g k) as [f' |].
  - split; [discriminate | intros [[=] _]].
  - destruct (isInherited k); split; auto; try discriminate. now intros [_ [=]].
Qed.

(** A stored key never reads as an inherited member. *)
Lemma getProperty_key (g : FormGraph) (k : string) :
  In k (keys g) -> getProperty g k <> Inherited.
Proof.
  intros Hk HI. apply getProperty_Inherited in HI.
  destruct (lookup_key_Some g k Hk) as [f Hf]. destruct HI. congruence.
Qed.

(** [new Set(undefined)] is the empty set: the direct dependencies are
    those of the stored form, whatever the key. *)
Lemma getDirectDependencies_own (t : string) (g : FormGraph) :
  getDirectDependencies t g = ownDirect t g.
Proof.
  unfold getDirectDependencies, ownDirect, getProperty.
  destruct (lookup g t); [reflexivity |]. now destruct (isInherited t).
Qed.

Section Simulation.
Import JsSet JsSetFacts.
Variable g : FormGraph.

(** *** The queue loop *)

(** The loop throws, or answers as the loop on own entries does. *)
Lemma bfs_simulates (fuel : nat) : forall deps queue V,
  bfs fuel g deps queue V = Some Throws
  \/ bfs fuel g deps queue V = option_map Returns (bfsOwn fuel g deps queue V).
Proof.
  induction fuel as [| fuel IH]; intros deps queue V.
  - destruct queue; simpl; auto.
  - destruct queue as [| cur queue]; simpl; [auto |].
    destruct (has V cur); [apply IH |].
    unfold getProperty. destruct (lookup g cur); [apply IH |].
    destruct (isInherited cur); [now left | apply IH].
Qed.

Lemma bfs_fuel_mono (fuel : nat) : forall fuel' deps queue V r,
  fuel <= fuel' ->
  bfs fuel g deps queue V = Some r -> bfs fuel' g deps queue V = Some r.
Proof.
  induction fuel as [| fuel IH]; intros fuel' deps queue V r Hle H.
  - destruct queue; simpl in H; [| discriminate].
    destruct fuel'; simpl; assumption.
  - destruct fuel' as [| fuel']; [lia |].
    destruct queue as [| cur queue]; simpl in *; [assumption |].
    destruct (has V cur); [apply IH with (fuel' := fuel') in H; [assumption | lia] |].
    destruct (getProperty g cur); [| assumption |];
      (apply IH with (fuel' := fuel') in H; [assumption | lia]).
Qed.

(** The loop ends, by a return or a throw, within the bound. *)
Lemma bfs_terminates (fuel : nat) (deps : t) (queue : list string) (V : t) :
  List.length queue + pending g V (keys g) <= fuel ->
  exists r, bfs fuel g deps queue V = Some r.
Proof.
  intros Hm. destruct (bfsOwn_terminates g fuel deps queue V Hm) as [r Hr].
  destruct (bfs_simulates fuel deps queue V) as [H | H]; rewrite H; [eauto |].
  rewrite Hr. simpl. eauto.
Qed.

Lemma getDependencies_returns (target : string) (fuel : nat) :
  getDependencies_bound g <= fuel ->
  getDependencies_fuel fuel target g = Some (getDependencies target g).
Proof.
  intros Hle. unfold getDependencies.
  destruct (bfs_terminates (getDependencies_bound g) empty [target] empty) as [r Hr].
  { unfold getDependencies_bound. simpl. lia. }
  unfold getDependencies_fuel at 2. rewrite Hr.
  unfold getDependencies_fuel. eapply bfs_fuel_mono; eassumption.
Qed.

(** What [getDependencies] returns is what the search on own entries
    finds. *)
Lemma getDependencies_own (target : string) (r : t) :
  getDependencies target g = Returns r -> r = ownDependencies target g.
Proof.
  intros H.
  pose proof (getDependencies_returns target _ (le_n _)) as Hnew.
  pose proof (ownDependencies_returns g target _ (le_n _)) as Hold.
  unfold getDependencies_fuel in Hnew. unfold ownDependencies_fuel in Hold.
  destruct (bfs_simulates (getDependencies_bound g) empty [target] empty) as [E | E];
    rewrite E in Hnew.
  - congruence.
  - rewrite Hold in Hnew. simpl in Hnew. congruence.
Qed.

(** Nothing is thrown while every identifier the queue leads to is a
    stored form or is missing. *)
Lemma bfs_safe (fuel : nat) : forall deps queue V,
  (forall q x, In q queue -> star (dep g) q x -> getProperty g x <> Inherited) ->
  bfs fuel g deps queue V = option_map Returns (bfsOwn fuel g deps queue V).
Proof.
  induction fuel as [| fuel IH]; intros deps queue V Hsafe.
  - destruct queue; reflexivity.
  - destruct queue as [| cur queue]; simpl; [reflexivity |].
    assert (Hq : forall q x, In q queue -> star (dep g) q x ->
                             getProperty g x <> Inherited)
      by (intros q x Hin; apply Hsafe; now right).
    destruct (has V cur); [now apply IH |].
    destruct (getProperty g cur) as [f | |] eqn:E.
    + apply getProperty_Found in E. rewrite E. apply IH.
      intros q x Hin Hx. apply in_app_iff in Hin. destruct Hin as [Hin | Hin].
      * eapply Hq; eassumption.
      * apply (Hsafe cur x); [now left |]. right.
        destruct Hx as [<- | Hx].
        -- apply plus_one. exists f. auto.
        -- eapply plus_cons; [| exact Hx]. exists f. auto.
    + exfalso. apply (Hsafe cur cur); [now left | now left | assumption].
    + apply getProperty_Missing in E. destruct E as [E _]. rewrite E. now apply IH.
Qed.

Lemma getDependencies_safe (target : string) :
  safeFrom g target ->
  getDependencies target g = Returns (ownDependencies target g).
Proof.
  intros Hsafe. unfold getDependencies, getDependencies_fuel.
  rewrite bfs_safe.
  - pose proof (ownDependencies_returns g target _ (le_n _)) as Hold.
    unfold ownDependencies_fuel in Hold. now rewrite Hold.
  - intros q x [<- | []]. apply Hsafe.
Qed.

(** A throw comes from an identifier the queue leads to. *)
Lemma bfs_throws (fuel : nat) : forall deps queue V,
  bfs fuel g deps queue V = Some Throws ->
  exists q x, In q queue /\ star (dep g) q x /\ getProperty g x = Inherited.
Proof.
  induction fuel as [| fuel IH]; intros deps queue V H.
  - destruct queue; simpl in H; discriminate.
  - destruct queue as [| cur queue]; simpl in H; [discriminate |].
    assert (Hq : (exists q x, In q queue /\ star (dep g) q x /\
                              getProperty g x = Inherited) ->
                 exists q x, In q (cur :: queue) /\ star (dep g) q x /\
                             getProperty g x = Inherited).
    { intros (q & x & Hin & Hx). exists q, x. split; [now right | assumption]. }
    destruct (has V cur); [apply Hq; eapply IH; eassumption |].
    destruct (getProperty g cur) as [f | |] eqn:E.
    + apply getProperty_Found in E.
      apply IH in H. destruct H as (q & x & Hin & Hx & HI).
      apply in_app_iff in Hin. destruct Hin as [Hin | Hin].
      * apply Hq. exists q, x. auto.
      * exists cur, x. split; [now left |]. split; [| assumption]. right.
        destruct Hx as [<- | Hx].
        -- apply plus_one. exists f. auto.
        -- eapply plus_cons; [| exact Hx]. exists f. auto.
    + exists cur, cur. split; [now left |]. split; [now left | assumption].
    + apply Hq. eapply IH; eassumption.
Qed.

(** A return means that every identifier the queue led to was a stored
    form or was missing. *)
Lemma bfs_returns_safe (fuel : nat) : forall deps queue V r,
  bfs_inv g deps queue V ->
  (forall v, In v V -> getProperty g v <> Inherited) ->
  bfs fuel g deps queue V = Some (Returns r) ->
  forall v x, In v V \/ In v queue -> star (dep g) v x ->
              getProperty g x <> Inherited.
Proof.
  assert (Hdone : forall deps V, bfs_inv g deps [] V ->
            forall v x, plus (dep g) v x -> In v V -> In x V).
  { intros deps V HI v x Hp. induction Hp as [a b Hab | a b c Hab _ IH]; intros Ha.
    - destruct (HI a b Ha Hab) as [_ [Hb | []]]. assumption.
    - apply IH. destruct (HI a b Ha Hab) as [_ [Hb | []]]. assumption. }
  assert (Hend : forall deps V, bfs_inv g deps [] V ->
            (forall v, In v V -> getProperty g v <> Inherited) ->
            forall v x, In v V \/ In v [] -> star (dep g) v x ->
                        getProperty g x <> Inherited).
  { intros deps V HI HV v x [Hv | []] [<- | Hp]; [now apply HV |].
    apply HV. eapply Hdone; eassumption. }
  induction fuel as [| fuel IH]; intros deps queue V r HI HV H.
  - destruct queue; simpl in H; [| discriminate]. eapply Hend; eassumption.
  - destruct queue as [| cur queue]; simpl in H; [eapply Hend; eassumption |].
    intros v x Hv Hx.
    destruct (has V cur) eqn:EV.
    + apply has_true in EV.
      eapply (IH deps queue V r); [| assumption | eassumption | | eassumption].
      * intros a d Ha Had. destruct (HI a d Ha Had) as [H1 [H2 | [<- | H2]]]; auto.
      * destruct Hv as [Hv | [<- | Hv]]; auto.
    + destruct (getProperty g cur) as [f | |] eqn:E; [| discriminate |].
      * apply getProperty_Found in E.
        eapply IH; [| | eassumption | | eassumption].
        -- intros a d Ha Had. apply add_In in Ha.
           rewrite fold_add_In, add_In, in_app_iff.
           destruct Ha as [Ha | ->].
           ++ destruct (HI a d Ha Had) as [H1 [H2 | [<- | H2]]]; auto.
           ++ destruct Had as [f' [Hf' Hd]]. rewrite E in Hf'.
              injection Hf' as <-. auto.
        -- intros a Ha. apply add_In in Ha. destruct Ha as [Ha | ->]; [auto |].
           intros HI'. apply getProperty_Inherited in HI'. destruct HI'. congruence.
        -- rewrite add_In, in_app_iff.
           destruct Hv as [Hv | [<- | Hv]]; auto.
      * eapply IH; [| | eassumption | | eassumption].
        -- intros a d Ha Had. apply add_In in Ha. rewrite add_In.
           destruct Ha as [Ha | ->].
           ++ destruct (HI a d Ha Had) as [H1 [H2 | [<- | H2]]]; auto.
           ++ apply getProperty_Missing in E.
              destruct Had as [f' [Hf' _]]. destruct E. congruence.
        -- intros a Ha. apply add_In in Ha. destruct Ha as [Ha | ->]; [auto |].
           congruence.
        -- rewrite add_In. destruct Hv as [Hv | [<- | Hv]]; auto.
Qed.

(** [getDependencies] returns exactly when the search from the target
    meets no inherited member. *)
Lemma getDependencies_returns_iff (target : string) :
  (exists r, getDependencies target g = Returns r) <-> safeFrom g target.
Proof.
  split.
  - intros [r Hr] x Hx.
    pose proof (getDependencies_returns target _ (le_n _)) as H.
    rewrite Hr in H. unfold getDependencies_fuel in H.
    eapply (bfs_returns_safe _ empty [target] empty r); [| | exact H | | exact Hx].
    + intros v d [].
    + intros v [].
    + right. now left.
  - intros Hsafe. eexists. now apply getDependencies_safe.
Qed.

Lemma getDependencies_throws_iff (target : string) :
  getDependencies target g = Throws <->
  exists x, star (dep g) target x /\ getProperty g x = Inherited.
Proof.
  split.
  - intros HT.
    pose proof (getDependencies_returns target _ (le_n _)) as H.
    rewrite HT in H. apply bfs_throws in H.
    destruct H as (q & x & [<- | []] & Hx & HI). eauto.
  - intros (x & Hx & HI).
    destruct (getDependencies target g) as [r |] eqn:E; [exfalso | reflexivity].
    assert (Hs : safeFrom g target) by (apply getDependencies_returns_iff; eauto).
    now apply (Hs x Hx).
Qed.

(** *** The recursive search *)

Lemma hasCycle_unfold (fuel : nat) (formId : string) (st : DfsState) :
  hasCycle (S fuel) g formId st =
  let st1 := mkDfs (add (visited st) formId) (add (recursionStack st) formId) in
  match getProperty g formId with
  | Missing =>
    Some (Returns (false, mkDfs (visited st1) (delete (recursionStack st1) formId)))
  | Inherited => Some Throws
  | Found form =>
    match forOf (depBody g fuel) (dependencies form) st1 with
    | None => None
    | Some Throws => Some Throws
    | Some (Returns (true, st')) => Some (Returns (true, st'))
    | Some (Returns (false, st')) =>
      Some (Returns (false, mkDfs (visited st') (delete (recursionStack st') formId)))
    end
  end.
Proof. reflexivity. Qed.

Lemma hasCircularDependencies_fuel_unfold (fuel : nat) :
  hasCircularDependencies_fuel fuel g =
  match forOf (keyBody g fuel) (keys g) (mkDfs empty empty) with
  | None => None
  | Some Throws => Some Throws
  | Some (Returns (b, _)) => Some (Returns b)
  end.
Proof. reflexivity. Qed.

Lemma forOf_mono (body body' : string -> DfsState -> option (Outcome (bool * DfsState))) :
  (forall x s r, body x s = Some r -> body' x s = Some r) ->
  forall xs s r, forOf body xs s = Some r -> forOf body' xs s = Some r.
Proof.
  intros Hb. induction xs as [| x xs IH]; simpl; intros s r H; [assumption |].
  destruct (body x s) as [[[[] s'] |] |] eqn:E; try discriminate;
    rewrite (Hb _ _ _ E); auto.
Qed.

Lemma hasCycle_fuel_mono (fuel : nat) : forall fuel' x st r,
  fuel <= fuel' -> hasCycle fuel g x st = Some r -> hasCycle fuel' g x st = Some r.
Proof.
  induction fuel as [| fuel IH]; intros fuel' x st r Hle H; [discriminate |].
  destruct fuel' as [| fuel']; [lia |].
  rewrite hasCycle_unfold in *. cbv zeta in *.
  destruct (getProperty g x) as [f | |]; [| assumption | assumption].
  destruct (forOf (depBody g fuel) (dependencies f) _) as [res |] eqn:E;
    [| discriminate].
  erewrite forOf_mono; [eassumption | | eassumption].
  intros d s r'. unfold depBody.
  destruct (negb (has (visited s) d)); [| auto].
  apply IH. lia.
Qed.

(** A loop whose body throws or answers as the body on own entries does
    throws or answers as the loop on own entries does. *)
Lemma forOf_simulates
    (body : string -> DfsState -> option (Outcome (bool * DfsState)))
    (bodyOwn : string -> DfsState -> option (bool * DfsState)) :
  (forall x s, body x s = Some Throws \/ body x s = option_map Returns (bodyOwn x s)) ->
  forall xs s,
    forOf body xs s = Some Throws
    \/ forOf body xs s = option_map Returns (forOwn bodyOwn xs s).
Proof.
  intros Hb. induction xs as [| x xs IH]; simpl; intros s; [now right |].
  destruct (Hb x s) as [E | E]; rewrite E; [now left |].
  destruct (bodyOwn x s) as [[[] s'] |]; simpl; auto.
Qed.

Lemma hasCycle_simulates (fuel : nat) : forall x st,
  hasCycle fuel g x st = Some Throws
  \/ hasCycle fuel g x st = option_map Returns (hasCycleOwn fuel g x st).
Proof.
  induction fuel as [| fuel IH]; intros x st; [now right |].
  rewrite hasCycle_unfold, hasCycleOwn_unfold. cbv zeta.
  unfold getProperty. destruct (lookup g x) as [f |].
  - destruct (forOf_simulates (depBody g fuel) (depBodyOwn g fuel)) with
      (xs := dependencies f)
      (s := mkDfs (add (visited st) x) (add (recursionStack st) x)) as [E | E].
    + intros d s. unfold depBody, depBodyOwn.
      destruct (negb (has (visited s) d)); [apply IH |].
      destruct (has (recursionStack s) d); now right.
    + rewrite E. now left.
    + rewrite E. right.
      destruct (forOwn (depBodyOwn g fuel) (dependencies f) _) as [[[] s'] |];
        reflexivity.
  - destruct (isInherited x); [now left | now right].
Qed.

Lemma hasCircularDependencies_fuel_simulates (fuel : nat) :
  hasCircularDependencies_fuel fuel g = Some Throws
  \/ hasCircularDependencies_fuel fuel g = option_map Returns (ownCircular_fuel fuel g).
Proof.
  rewrite hasCircularDependencies_fuel_unfold, ownCircular_fuel_unfold.
  destruct (forOf_simulates (keyBody g fuel) (keyBodyOwn g fuel)) with
    (xs := keys g) (s := mkDfs empty empty) as [E | E].
  - intros k s. unfold keyBody, keyBodyOwn.
    destruct (negb (has (visited s) k)); [apply hasCycle_simulates | now right].
  - rewrite E. now left.
  - rewrite E. right.
    destruct (forOwn (keyBodyOwn g fuel) (keys g) _) as [[b s'] |]; reflexivity.
Qed.

(** The search ends, by a return or a throw, within the bound. *)
Lemma hasCircularDependencies_returns (fuel : nat) :
  hasCircularDependencies_bound g <= fuel ->
  hasCircularDependencies_fuel fuel g = Some (hasCircularDependencies g).
Proof.
  intros Hle.
  assert (Hb : exists r,
             hasCircularDependencies_fuel (hasCircularDependencies_bound g) g = Some r).
  { destruct (hasCircularDependencies_fuel_simulates (hasCircularDependencies_bound g))
      as [E | E]; rewrite E; [eauto |].
    rewrite (ownCircular_returns g _ (le_n _)). simpl. eauto. }
  destruct Hb as [r Hr]. unfold hasCircularDependencies. rewrite Hr.
  rewrite hasCircularDependencies_fuel_unfold in *.
  destruct (forOf (keyBody g (hasCircularDependencies_bound g)) (keys g) _)
    as [res |] eqn:E; [| discriminate].
  rewrite (forOf_mono (keyBody g (hasCircularDependencies_bound g)) (keyBody g fuel))
    with (r := res); [assumption | | exact E].
  intros x s r'. unfold keyBody.
  destruct (negb (has (visited s) x)); [| auto].
  now apply hasCycle_fuel_mono.
Qed.

Lemma hasCircularDependencies_own (b : bool) :
  hasCircularDependencies g = Returns b -> b = ownCircular g.
Proof.
  intros H.
  pose proof (hasCircularDependencies_returns _ (le_n _)) as Hnew.
  pose proof (ownCircular_returns g _ (le_n _)) as Hold.
  destruct (hasCircularDependencies_fuel_simulates (hasCircularDependencies_bound g))
    as [E | E]; rewrite E in Hnew.
  - congruence.
  - rewrite Hold in Hnew. simpl in Hnew. congruence.
Qed.

(** A loop whose body answers as the body on own entries does, on the
    elements it runs over, answers as the loop on own entries does. *)
Lemma forOf_safe
    (body : string -> DfsState -> option (Outcome (bool * DfsState)))
    (bodyOwn : string -> DfsState -> option (bool * DfsState))
    (xs : list string) :
  (forall x s, In x xs -> body x s = option_map Returns (bodyOwn x s)) ->
  forall s, forOf body xs s = option_map Returns (forOwn bodyOwn xs s).
Proof.
  induction xs as [| x xs IH]; simpl; intros Hb s; [reflexivity |].
  rewrite (Hb x s (or_introl eq_refl)).
  destruct (bodyOwn x s) as [[[] s'] |]; simpl; auto.
Qed.

Lemma safeFrom_step (x d : string) :
  safeFrom g x -> dep g x d -> safeFrom g d.
Proof.
  intros Hs Hd y Hy. apply Hs. right.
  destruct Hy as [<- | Hy]; [now apply plus_one | eapply plus_cons; eassumption].
Qed.

Lemma hasCycle_safe (fuel : nat) : forall x st,
  safeFrom g x ->
  hasCycle fuel g x st = option_map Returns (hasCycleOwn fuel g x st).
Proof.
  induction fuel as [| fuel IH]; intros x st Hs; [reflexivity |].
  rewrite hasCycle_unfold, hasCycleOwn_unfold. cbv zeta.
  destruct (getProperty g x) as [f | |] eqn:E.
  - apply getProperty_Found in E. rewrite E.
    rewrite (forOf_safe (depBody g fuel) (depBodyOwn g fuel)).
    + destruct (forOwn (depBodyOwn g fuel) (dependencies f) _) as [[[] s'] |];
        reflexivity.
    + intros d s Hd. unfold depBody, depBodyOwn.
      destruct (negb (has (visited s) d)).
      * apply IH. apply (safeFrom_step x); [assumption |]. exists f. auto.
      * destruct (has (recursionStack s) d); reflexivity.
  - exfalso. apply (Hs x); [now left | assumption].
  - apply getProperty_Missing in E. destruct E as [E _]. now rewrite E.
Qed.

Lemma plus_dep_universe (a x : string) : plus (dep g) a x -> In x (universe g).
Proof.
  induction 1 as [a b [f [Hf Hb]] | a b c _ _ IH]; [| assumption].
  eapply dependencies_universe; eassumption.
Qed.

Lemma protoFree_safeFrom (k : string) :
  protoFree g -> In k (keys g) -> safeFrom g k.
Proof.
  intros Hp Hk x [<- | Hx]; apply Hp.
  - now apply keys_universe.
  - eapply plus_dep_universe; eassumption.
Qed.

Lemma hasCircularDependencies_safe :
  protoFree g -> hasCircularDependencies g = Returns (ownCircular g).
Proof.
  intros Hp. unfold hasCircularDependencies.
  rewrite hasCircularDependencies_fuel_unfold.
  rewrite (forOf_safe (keyBody g _) (keyBodyOwn g (hasCircularDependencies_bound g))).
  - pose proof (ownCircular_returns g _ (le_n _)) as Hold.
    rewrite ownCircular_fuel_unfold in Hold.
    destruct (forOwn _ (keys g) _) as [[b s'] |]; simpl; [| discriminate].
    congruence.
  - intros k s Hk. unfold keyBody, keyBodyOwn.
    destruct (negb (has (visited s) k)); [| reflexivity].
    apply hasCycle_safe. now apply protoFree_safeFrom.
Qed.

(** *** The categorizer *)

Lemma getTransitiveDependencies_own (target : string) (r : t) :
  getTransitiveDependencies target g = Returns r -> r = ownTransitive target g.
Proof.
  unfold getTransitiveDependencies, ownTransitive.
  destruct (getDependencies target g) as [all |] eqn:E; [| discriminate].
  apply getDependencies_own in E. subst all.
  rewrite getDirectDependencies_own. now intros [= <-].
Qed.

Lemma getTransitiveDependencies_safe (target : string) :
  safeFrom g target ->
  getTransitiveDependencies target g = Returns (ownTransitive target g).
Proof.
  intros Hs. unfold getTransitiveDependencies, ownTransitive.
  rewrite (getDependencies_safe target Hs).
  now rewrite getDirectDependencies_own.
Qed.

Lemma getTransitiveDependencies_throws (target : string) :
  getTransitiveDependencies target g = Throws <-> getDependencies target g = Throws.
Proof.
  unfold getTransitiveDependencies.
  destruct (getDependencies target g); split; congruence.
Qed.

(** What [useDataSources] returns are the buckets read off the searches
    on own entries. *)
Lemma useDataSources_categorize
    (target : option string) (s : option GlobalData) (r : CategorizedDataSources) :
  useDataSources target g s = Returns r -> r = categorize target g s.
Proof.
  unfold useDataSources, categorize. destruct target as [t |]; [| now intros [= <-]].
  destruct (String.eqb t ""); [now intros [= <-] |].
  destruct (getTransitiveDependencies t g) as [tr |] eqn:E; [| discriminate].
  apply getTransitiveDependencies_own in E. subst tr.
  rewrite getDirectDependencies_own. now intros [= <-].
Qed.

Lemma useDataSources_safe (t : string) (s : option GlobalData) :
  safeFrom g t ->
  useDataSources (Some t) g s = Returns (categorize (Some t) g s).
Proof.
  intros Hs. unfold useDataSources, categorize.
  destruct (String.eqb t ""); [reflexivity |].
  rewrite (getTransitiveDependencies_safe t Hs).
  now rewrite getDirectDependencies_own.
Qed.

Lemma useDataSources_throws (t : string) (s : option GlobalData) :
  useDataSources (Some t) g s = Throws <->
  t <> "" /\ getDependencies t g = Throws.
Proof.
  unfold useDataSources. destruct (String.eqb t "") eqn:Et.
  - apply String.eqb_eq in Et. split; [discriminate | now intros [H _]].
  - apply String.eqb_neq in Et. rewrite <- getTransitiveDependencies_throws.
    destruct (getTransitiveDependencies t g); split; try discriminate; auto.
    now intros [_ [=]].
Qed.

End Simulation.

(* ------------------------------------------------------------------ *)
(** * The claims of the specification *)

(** ** Dependency resolver *)

Lemma plus_dep_source (g : FormGraph) (a b : string) :
  plus (dep g) a b -> present g a.
Proof.
  intros H. inversion H as [x y [f [Hf _]] | x y z [f [Hf _]] _]; subst;
    eapply lookup_Some_key; eassumption.
Qed.

Lemma plus_dep_present (g : FormGraph) (a b : string) :
  plus (dep g) a b -> present g b -> plus (depPresent g) a b.
Proof.
  induction 1 as [a b Hab | a b c Hab Hbc IH]; intros Hb.
  - apply plus_one. now split.
  - eapply plus_cons; [split; [exact Hab |] | now apply IH].
    eapply plus_dep_source; eassumption.
Qed.

Lemma cyclic_iff (g : FormGraph) : cyclic g <-> exists c, plus (dep g) c c.
Proof.
  split; intros [c Hc]; exists c.
  - eapply plus_impl; [| exact Hc]. now intros x y [H _].
  - apply plus_dep_present; [assumption |]. eapply plus_dep_source; eassumption.
Qed.

(** The target is in its own result exactly when it lies on a cycle. *)
Lemma ownDependencies_self (t : string) (g : FormGraph) :
  In t (ownDependencies t g) <-> plus (dep g) t t.
Proof. apply ownDependencies_spec. Qed.

Lemma ownDependencies_acyclic (t : string) (g : FormGraph) :
  ownCircular g = false -> ~ In t (ownDependencies t g).
Proof.
  intros Hf Hin. apply ownDependencies_self in Hin.
  assert (ownCircular g = true)
    by (apply ownCircular_spec; eauto).
  congruence.
Qed.

(** C1 (the code departs from the claim).  On the graph A -> B -> A the
    traversal started at A adds A when it expands B: the result of
    [getDependencies] holds the target itself, against the documented
    "excluding itself". *)
Theorem C1_getDependencies_returns_target_on_cycle :
  getDependencies_fuel (getDependencies_bound circularGraph2) "form-a" circularGraph2
    = Some (Returns ["form-b"; "form-a"])
  /\ exists r, getDependencies "form-a" circularGraph2 = Returns r /\ In "form-a" r.
Proof.
  split; [reflexivity |]. exists ["form-b"; "form-a"].
  split; [reflexivity | right; now left].
Qed.

(** On own entries the direct and the transitive dependencies of a target
    are disjoint, and together they are all its dependencies. *)
Lemma own_partition (t : string) (g : FormGraph) :
  (forall x, ~ (In x (ownDirect t g) /\
                In x (ownTransitive t g)))
  /\
  (forall x, In x (ownDirect t g) \/
             In x (ownTransitive t g)
             <-> In x (ownDependencies t g)).
Proof.
  split; intros x.
  - rewrite ownTransitive_spec, ownDirect_spec. tauto.
  - rewrite ownDependencies_spec, ownTransitive_spec. split.
    + intros [H | [H _]]; [| assumption].
      apply plus_one. now apply ownDirect_spec.
    + intros H.
      destruct (in_dec string_dec x (ownDirect t g)) as [Hin | Hn];
        [now left | right].
      split; [assumption |]. intros Hd. apply Hn.
      now apply ownDirect_spec.
Qed.

(** C3 (the code departs from the claim).  The form "form-x" names the
    dependency "constructor", for which the graph stores no form:
    [formGraph["constructor"]] is the member every object inherits.
    [getDirectDependencies] returns the set holding "constructor";
    [getDependencies] passes the guard [if (!currentForm) continue] with
    that member and throws on [currentForm.dependencies.forEach], and so
    does [getTransitiveDependencies]: there are no two sets to be disjoint
    and no union. *)
Theorem C3_partition_lost_on_inherited_name :
  getProperty inheritedGhostGraph "constructor" = Inherited
  /\ getDirectDependencies "form-x" inheritedGhostGraph = ["constructor"]
  /\ getDependencies_fuel (getDependencies_bound inheritedGhostGraph)
                          "form-x" inheritedGhostGraph = Some Throws
  /\ getDependencies "form-x" inheritedGhostGraph = Throws
  /\ getTransitiveDependencies "form-x" inheritedGhostGraph = Throws.
Proof. repeat split. Qed.

(** The search on own entries answers on every graph, and the answer is
    [true] exactly when the graph has a dependency cycle among forms
    present in it; an edge to an identifier absent from the graph is not an
    edge of [depPresent], so it is part of no cycle.  The empty graph gives
    [false]. *)
Lemma ownCircular_iff_cyclic (g : FormGraph) :
  ownCircular_fuel (hasCircularDependencies_bound g) g
    = Some (ownCircular g)
  /\ (ownCircular g = true <-> cyclic g)
  /\ ownCircular [] = false.
Proof.
  split; [apply ownCircular_returns; apply le_n |].
  split; [| reflexivity].
  rewrite cyclic_iff. apply ownCircular_spec.
Qed.

(** C4 (the code departs from the claim).  In [inheritedGhostGraph] the one
    dependency names no form of the graph, so the graph has no cycle and
    the claim asks for [false]; [hasCycle("constructor")] passes the guard
    [if (!form)] with the inherited member and throws on
    [for (const depId of form.dependencies)].  In [inheritedCycleGraph] the
    form depends on itself, the claim asks for [true], and the search
    throws before it looks at that entry. *)
Theorem C4_hasCircularDependencies_throws_on_inherited_name :
  getProperty inheritedGhostGraph "constructor" = Inherited
  /\ ~ cyclic inheritedGhostGraph
  /\ hasCircularDependencies_fuel (hasCircularDependencies_bound inheritedGhostGraph)
                                  inheritedGhostGraph = Some Throws
  /\ hasCircularDependencies inheritedGhostGraph = Throws
  /\ cyclic inheritedCycleGraph
  /\ hasCircularDependencies inheritedCycleGraph = Throws.
Proof.
  split; [reflexivity |]. split.
  - intros Hc.
    apply (proj1 (proj2 (ownCircular_iff_cyclic inheritedGhostGraph))) in Hc.
    discriminate.
  - split; [reflexivity |]. split; [reflexivity |]. split; [| reflexivity].
    now apply (proj1 (proj2 (ownCircular_iff_cyclic inheritedCycleGraph))).
Qed.

(** C5.  Both searches terminate on every graph: [getDependencies] leaves
    its loop within [getDependencies_bound g] iterations (one for the
    target, one per dependency entry of a stored form), and
    [hasCircularDependencies] never nests [hasCycle] deeper than
    [hasCircularDependencies_bound g] (the identifiers occurring in the
    graph).  With that much fuel or more the model ends with the same
    outcome, a returned value or a throw; it is a returned value whenever
    no identifier met reads as an inherited member. *)
Theorem C5_resolver_terminates (t : string) (g : FormGraph) :
  (forall fuel, getDependencies_bound g <= fuel ->
     getDependencies_fuel fuel t g = Some (getDependencies t g))
  /\
  (forall fuel, hasCircularDependencies_bound g <= fuel ->
     hasCircularDependencies_fuel fuel g = Some (hasCircularDependencies g))
  /\
  (safeFrom g t -> exists r, getDependencies t g = Returns r)
  /\
  (protoFree g -> exists b, hasCircularDependencies g = Returns b).
Proof.
  split; [| split; [| split]].
  - intros fuel Hle. now apply getDependencies_returns.
  - intros fuel Hle. now apply hasCircularDependencies_returns.
  - intros Hs. eexists. now apply getDependencies_safe.
  - intros Hp. eexists. now apply hasCircularDependencies_safe.
Qed.

(** C5 on the cyclic graphs A -> B -> A and A -> B -> C -> A. *)
Lemma C5_terminates_on_cycles :
  getDependencies_fuel 4 "form-a" circularGraph3
    = Some (Returns ["form-b"; "form-c"; "form-a"])
  /\ hasCircularDependencies_fuel 6 circularGraph3 = Some (Returns true)
  /\ getDependencies_fuel 3 "form-a" circularGraph2
    = Some (Returns ["form-b"; "form-a"])
  /\ hasCircularDependencies_fuel 4 circularGraph2 = Some (Returns true).
Proof.
  destruct (C5_resolver_terminates "form-a" circularGraph3) as (H3 & K3 & _).
  destruct (C5_resolver_terminates "form-a" circularGraph2) as (H2 & K2 & _).
  split; [exact (H3 4 (le_n 4)) |].
  split; [exact (K3 6 (le_n 6)) |].
  split; [exact (H2 3 (le_n 3)) |].
  exact (K2 4 (le_n 4)).
Defined.

(** ** Data sources *)

Lemma join_extend (sep : string) (c : ascii) (w : string) (ws : list string) :
  join sep (String c w :: ws) = String c (join sep (w :: ws)).
Proof. destruct ws; reflexivity. Qed.

Lemma split_titleCaseFrom (s : string) :
  exists w ws,
    split "_"%char s = w :: ws /\
    titleCaseFrom false s = join " " (w :: map capitalize ws) /\
    titleCaseFrom true s = join " " (capitalize w :: map capitalize ws).
Proof.
  induction s as [| c s (w & ws & Hs & Hf & Ht)].
  - exists EmptyString, []. repeat split.
  - cbn [split titleCaseFrom]. rewrite Hs. destruct (Ascii.eqb c "_"%char).
    + exists EmptyString, (w :: ws). rewrite Ht. repeat split.
    + exists (String c w), ws. rewrite Hf. cbn [capitalize].
      rewrite !join_extend. repeat split.
Qed.

(** The code's split / capitalize / join is the Title-Case rendering. *)
Lemma formatPropertyName_titleCase (prop : string) :
  formatPropertyName prop = titleCase prop.
Proof.
  unfold formatPropertyName, titleCase.
  destruct (split_titleCaseFrom prop) as (w & ws & Hs & _ & Ht).
  now rewrite Hs, Ht.
Qed.

(** C7.  A global-backed source lists one field per property name, in the
    order of the names.  For a name written in ASCII (as every snake_case
    name is) the identifier is the name, the label is its Title-Case
    rendering, the type is [text], and the path is the prefix of the source
    ("Action" for the action properties, "clientOrg" for the organization
    properties), a dot, and the label.  The name "created_at" under
    "Action" gives the label "Created At" and the path
    "Action.Created At". *)
Theorem C7_global_fields_title_case
    (globalData : GlobalData) (i : nat) (prop : string) :
  isAscii prop = true ->
  (nth_error (actionProperties globalData) i = Some prop ->
   nth_error (getFields (GlobalDataSource globalData)) i
   = Some (mkDataField prop (titleCase prop) text ("Action" ++ "." ++ titleCase prop)))
  /\ (nth_error (clientOrgProperties globalData) i = Some prop ->
      nth_error (getFields (OrganizationDataSource globalData)) i
      = Some (mkDataField prop (titleCase prop) text
                          ("clientOrg" ++ "." ++ titleCase prop)))
  /\ List.length (getFields (GlobalDataSource globalData))
     = List.length (actionProperties globalData)
  /\ List.length (getFields (OrganizationDataSource globalData))
     = List.length (clientOrgProperties globalData)
  /\ getFields (GlobalDataSource (mkGlobalData ["created_at"] []))
     = [mkDataField "created_at" "Created At" text "Action.Created At"].
Proof.
  intros _. simpl.
  split; [| split; [| split; [apply length_map | split; [apply length_map | reflexivity]]]];
    intros H; rewrite nth_error_map, H; simpl;
    now rewrite formatPropertyName_titleCase.
Qed.

(** C7 on the snapshot of the tests: the second action property is
    "created_at". *)
Lemma C7_global_fields_title_case_witness :
  nth_error (getFields (GlobalDataSource sampleGlobalData)) 1
  = Some (mkDataField "created_at" "Created At" text "Action.Created At").
Proof.
  apply (C7_global_fields_title_case sampleGlobalData 1 "created_at");
    reflexivity.
Defined.

(** C8.  A form-backed source lists exactly one field per field of its
    form, position by position: same identifier, label and type, and the
    path is the display name, a dot, and the field's label.  A source named
    "Form B" over a field labelled "Email" gives the path "Form B.Email". *)
Theorem C8_form_fields_one_to_one (id name : string) (form : Form) :
  List.length (getFields (FormDataSource id name form)) = List.length (fields form)
  /\ (forall i,
        nth_error (getFields (FormDataSource id name form)) i
        = option_map
            (fun field => mkDataField (field_id field) (field_label field)
                                      (field_type field)
                                      (name ++ "." ++ field_label field))
            (nth_error (fields form) i))
  /\ getFields (FormDataSource "form-b" "Form B"
                  (mkForm "form-b" "Form B" [mkFormField "email" "Email" email] []))
     = [mkDataField "email" "Email" email "Form B.Email"].
Proof.
  split; [apply length_map |]. split; [| reflexivity].
  intros i. simpl. apply nth_error_map.
Qed.

(** ** Categorizer *)

(** The form-backed sources alone give an empty global bucket. *)
Lemma getByType_global_forms (g : FormGraph) :
  DataSourceRegistry.getByType (registryOf g None) global_t = [].
Proof.
  destruct (DataSourceRegistry.getByType (registryOf g None) global_t)
    as [| s l] eqn:E; [reflexivity | exfalso].
  assert (Hin : In s (DataSourceRegistry.getByType (registryOf g None) global_t))
    by (rewrite E; now left).
  apply In_getByType in Hin. destruct Hin as [Hin Hty].
  apply registerAll_types in Hin. destruct Hin as [Hf | []]. congruence.
Qed.

(** With a snapshot, both global-backed sources are in the global bucket. *)
Lemma getByType_global_snapshot (g : FormGraph) (gd : GlobalData) :
  In (GlobalDataSource gd) (DataSourceRegistry.getByType (registryOf g (Some gd)) global_t)
  /\ In (OrganizationDataSource gd)
        (DataSourceRegistry.getByType (registryOf g (Some gd)) global_t).
Proof.
  split; apply In_getByType; (split; [| reflexivity]);
    unfold DataSourceRegistry.getAll.
  - apply JsMapFacts.get_In_values with (k := ACTION_ID).
    apply (registerGlobals_get gd _ ACTION_ID).
  - apply JsMapFacts.get_In_values with (k := ORG_ID).
    apply (registerGlobals_get gd _ ORG_ID).
Qed.

(** On own entries: a null target gives three empty lists whatever the
    graph and the snapshot.  A target without a stored form gives empty
    direct and transitive buckets; its global bucket is empty when no
    snapshot is supplied, and holds the two global-backed sources when one
    is supplied and the target is not the empty string. *)
Lemma categorize_absent_target (g : FormGraph) (s : option GlobalData) :
  categorize None g s = noSources
  /\ forall t, lookup g t = None ->
       directDependencies (categorize (Some t) g s) = []
       /\ transitiveDependencies (categorize (Some t) g s) = []
       /\ (s = None -> globalSources (categorize (Some t) g s) = [])
       /\ (forall gd, s = Some gd -> t <> "" ->
             In (GlobalDataSource gd) (globalSources (categorize (Some t) g s))
             /\ In (OrganizationDataSource gd)
                   (globalSources (categorize (Some t) g s))).
Proof.
  split; [reflexivity |]. intros t Habsent.
  destruct (string_dec t "") as [-> | Ht].
  - simpl. repeat split; try reflexivity; contradiction.
  - rewrite (categorize_selected t g s Ht). simpl.
    unfold ownTransitive, ownDirect.
    rewrite Habsent, (ownDependencies_absent t g Habsent). simpl.
    split; [reflexivity |]. split; [reflexivity |]. split.
    + intros ->. apply getByType_global_forms.
    + intros gd -> _. apply getByType_global_snapshot.
Qed.

(** A target for which the graph holds nothing has no dependency, so the
    search from it meets no inherited member. *)
Lemma safeFrom_Missing (g : FormGraph) (t : string) :
  getProperty g t = Missing -> safeFrom g t.
Proof.
  intros Hm x [<- | Hx]; [congruence |].
  apply plus_dep_source in Hx. apply getProperty_Missing in Hm.
  destruct (lookup_key_Some g t Hx) as [f Hf]. destruct Hm. congruence.
Qed.

(** C2, as the claim words it, fails for a target that is merely absent
    from the graph: with a snapshot the global bucket is filled (the test
    "should handle empty formGraph gracefully"). *)
Lemma C2_absent_target_has_global_sources :
  getProperty [] "form-a" = Missing
  /\ useDataSources (Some "form-a") [] (Some sampleGlobalData)
     = Returns (mkCategorized
                  [] []
                  [GlobalDataSource sampleGlobalData;
                   OrganizationDataSource sampleGlobalData]).
Proof. split; reflexivity. Qed.

(** C2, amended.  A null target gives three empty lists whatever the graph
    and the snapshot.  For a target under which the graph holds nothing
    ([formGraph[target]] is [undefined]) the call returns, with empty
    direct and transitive buckets; the global bucket is empty when no
    snapshot is supplied, and holds the two global-backed sources when one
    is supplied and the target is not the empty string. *)
Theorem C2_null_or_absent_target (g : FormGraph) (s : option GlobalData) :
  useDataSources None g s = Returns noSources
  /\ forall t, getProperty g t = Missing ->
       exists r,
         useDataSources (Some t) g s = Returns r
         /\ directDependencies r = []
         /\ transitiveDependencies r = []
         /\ (s = None -> globalSources r = [])
         /\ (forall gd, s = Some gd -> t <> "" ->
               In (GlobalDataSource gd) (globalSources r)
               /\ In (OrganizationDataSource gd) (globalSources r)).
Proof.
  split; [reflexivity |]. intros t Hm.
  exists (categorize (Some t) g s).
  split; [apply useDataSources_safe; now apply safeFrom_Missing |].
  apply getProperty_Missing in Hm. destruct Hm as [Hm _].
  now apply (proj2 (categorize_absent_target g s)).
Qed.

(** C2, amended, on [mockFormGraph] with the target "non-existent". *)
Lemma C2_null_or_absent_target_witness :
  useDataSources None mockFormGraph (Some sampleGlobalData) = Returns noSources
  /\ exists r,
       useDataSources (Some "non-existent") mockFormGraph (Some sampleGlobalData)
       = Returns r
       /\ directDependencies r = []
       /\ transitiveDependencies r = []
       /\ In (GlobalDataSource sampleGlobalData) (globalSources r).
Proof.
  destruct (C2_null_or_absent_target mockFormGraph (Some sampleGlobalData)) as [H0 H].
  destruct (H "non-existent" eq_refl) as (r & Hr & H1 & H2 & _ & H4).
  split; [exact H0 |]. exists r.
  split; [exact Hr |]. split; [exact H1 |]. split; [exact H2 |].
  apply (H4 sampleGlobalData eq_refl). discriminate.
Defined.

(** C10.  The empty string is treated as no selection: three empty lists,
    as for a null target, whatever the graph holds (including a form stored
    under the empty identifier, with dependencies of its own). *)
Theorem C10_empty_string_target (g : FormGraph) (s : option GlobalData) :
  useDataSources (Some "") g s = Returns noSources
  /\ useDataSources (Some "") g s = useDataSources None g s
  /\ getDirectDependencies "" [node "" "Blank" ["form-a"]; node "form-a" "Form A" []]
     = ["form-a"].
Proof. repeat split. Qed.





Section Collision.
Variables (g : FormGraph) (gd : GlobalData) (d : string).
Hypothesis Hform : exists f, In f (values g) /\ form_id f = d.
Hypothesis Hfixed : d = ACTION_ID \/ d = ORG_ID.

Lemma collision_before :
  exists f, In f (values g) /\
    DataSourceRegistry.get (registerForms g DataSourceRegistry.new) d
    = Some (FormDataSource d (form_name f) f).
Proof.
  destruct (registerAll_get_form (values g) DataSourceRegistry.new d Hform)
    as [f (H1 & _ & H3)].
  exists f. split; assumption.
Qed.

Lemma collision_after :
  DataSourceRegistry.get (registryOf g (Some gd)) d = Some (globalSourceFor d gd).
Proof.
  unfold registryOf. rewrite registerGlobals_get. unfold globalSourceFor.
  destruct Hfixed as [-> | ->]; reflexivity.
Qed.

Lemma collision_global_bucket :
  In (globalSourceFor d gd)
     (DataSourceRegistry.getByType (registryOf g (Some gd)) global_t).
Proof.
  unfold globalSourceFor.
  destruct Hfixed as [-> | ->]; simpl; apply getByType_global_snapshot.
Qed.

(** A bucket built from identifiers that include [d] holds the global
    source, and nothing else under [d]. *)
Lemma collision_bucket (ids : list string) :
  In d ids ->
  In (globalSourceFor d gd)
     (definedOnly (map (DataSourceRegistry.get (registryOf g (Some gd))) ids))
  /\ forall src,
       In src (definedOnly (map (DataSourceRegistry.get (registryOf g (Some gd))) ids)) ->
       ds_id src = d -> src = globalSourceFor d gd.
Proof.
  intros Hin. split.
  - apply In_definedOnly. exists d. split; [assumption | apply collision_after].
  - intros src Hsrc Hid. apply In_definedOnly in Hsrc.
    destruct Hsrc as [d' [_ Hget]].
    assert (Hk : keyed (registryOf g (Some gd))).
    { apply keyed_registerGlobals, keyed_registerAll. intros k x [=]. }
    pose proof (Hk _ _ Hget) as Hd'. rewrite Hid in Hd'. subst d'.
    rewrite collision_after in Hget. congruence.
Qed.
End Collision.

(** On own entries: when a form of the graph carries one of the two fixed
    global identifiers and a snapshot is supplied, registering the
    global-backed source overwrites the form-backed one; so for a
    non-empty target that has this identifier among its direct
    (transitive) dependencies, the direct (transitive) bucket holds the
    global-typed source, which is also in the global bucket, and no other
    source under that identifier. *)
Lemma categorize_collision
    (t d : string) (g : FormGraph) (gd : GlobalData) :
  (exists f, In f (values g) /\ form_id f = d) ->
  d = ACTION_ID \/ d = ORG_ID ->
  t <> "" ->
  (exists f, In f (values g) /\
     DataSourceRegistry.get (registerForms g DataSourceRegistry.new) d
     = Some (FormDataSource d (form_name f) f))
  /\ DataSourceRegistry.get (registryOf g (Some gd)) d = Some (globalSourceFor d gd)
  /\ ds_type (globalSourceFor d gd) = global_t
  /\ In (globalSourceFor d gd) (globalSources (categorize (Some t) g (Some gd)))
  /\ (In d (ownDirect t g) ->
      In (globalSourceFor d gd)
         (directDependencies (categorize (Some t) g (Some gd)))
      /\ forall src,
           In src (directDependencies (categorize (Some t) g (Some gd))) ->
           ds_id src = d -> src = globalSourceFor d gd)
  /\ (In d (ownTransitive t g) ->
      In (globalSourceFor d gd)
         (transitiveDependencies (categorize (Some t) g (Some gd)))
      /\ forall src,
           In src (transitiveDependencies (categorize (Some t) g (Some gd))) ->
           ds_id src = d -> src = globalSourceFor d gd).
Proof.
  intros Hform Hfixed Ht.
  rewrite (categorize_selected t g (Some gd) Ht). simpl.
  split; [now apply collision_before |].
  split; [now apply collision_after |].
  split; [unfold globalSourceFor; now destruct (String.eqb d ACTION_ID) |].
  split; [now apply collision_global_bucket |].
  split; intros Hin; now apply collision_bucket.
Qed.

(** C9, as the claim words it, fails for the empty-string target: the
    colliding identifier is a direct dependency of the target, yet the call
    returns three empty lists.  It also fails for the target "form-w" of
    [shadowedInheritedGraph], whose second dependency reads as an inherited
    member: the colliding identifier is a direct dependency, and the call
    throws instead of returning buckets. *)
Lemma C9_collision_without_bucket :
  (exists f, In f (values blankTargetGraph) /\ form_id f = ACTION_ID)
  /\ In ACTION_ID (getDirectDependencies "" blankTargetGraph)
  /\ useDataSources (Some "") blankTargetGraph (Some sampleGlobalData)
     = Returns noSources
  /\ (exists f, In f (values shadowedInheritedGraph) /\ form_id f = ACTION_ID)
  /\ In ACTION_ID (getDirectDependencies "form-w" shadowedInheritedGraph)
  /\ useDataSources (Some "form-w") shadowedInheritedGraph (Some sampleGlobalData)
     = Throws.
Proof.
  split; [| split; [now left | split; [reflexivity |]]].
  - exists (mkForm ACTION_ID "Shadowed" [] []).
    split; [right; now left | reflexivity].
  - split; [| split; [now left | reflexivity]].
    exists (mkForm ACTION_ID "Shadowed" [] []). split; [now left | reflexivity].
Qed.

(** C9, amended.  When a form of the graph carries one of the two fixed
    global identifiers and a snapshot is supplied, registering the
    global-backed source overwrites the form-backed one.  For a non-empty
    target from which the search meets no inherited member,
    [useDataSources] returns; the global-typed source is in its global
    bucket, and when the colliding identifier is among the target's direct
    (transitive) dependencies, the direct (transitive) bucket holds the
    global-typed source and no other source under that identifier. *)
Theorem C9_global_source_overwrites_form_source
    (t d : string) (g : FormGraph) (gd : GlobalData) :
  (exists f, In f (values g) /\ form_id f = d) ->
  d = ACTION_ID \/ d = ORG_ID ->
  t <> "" ->
  safeFrom g t ->
  (exists f, In f (values g) /\
     DataSourceRegistry.get (registerForms g DataSourceRegistry.new) d
     = Some (FormDataSource d (form_name f) f))
  /\ DataSourceRegistry.get (registryOf g (Some gd)) d = Some (globalSourceFor d gd)
  /\ ds_type (globalSourceFor d gd) = global_t
  /\ exists r tr,
       useDataSources (Some t) g (Some gd) = Returns r
       /\ getTransitiveDependencies t g = Returns tr
       /\ In (globalSourceFor d gd) (globalSources r)
       /\ (In d (getDirectDependencies t g) ->
           In (globalSourceFor d gd) (directDependencies r)
           /\ forall src, In src (directDependencies r) ->
                          ds_id src = d -> src = globalSourceFor d gd)
       /\ (In d tr ->
           In (globalSourceFor d gd) (transitiveDependencies r)
           /\ forall src, In src (transitiveDependencies r) ->
                          ds_id src = d -> src = globalSourceFor d gd).
Proof.
  intros Hform Hfixed Ht Hsafe.
  destruct (categorize_collision t d g gd Hform Hfixed Ht)
    as (H1 & H2 & H3 & H4 & H5 & H6).
  split; [exact H1 |]. split; [exact H2 |]. split; [exact H3 |].
  exists (categorize (Some t) g (Some gd)), (ownTransitive t g).
  split; [now apply useDataSources_safe |].
  split; [now apply getTransitiveDependencies_safe |].
  split; [exact H4 |].
  split; [now rewrite getDirectDependencies_own | exact H6].
Qed.

(** C9, amended, on [shadowedGraph]: "form-y" meets the collision directly,
    "form-z" transitively. *)
Lemma C9_global_source_overwrites_form_source_witness :
  (exists r,
     useDataSources (Some "form-y") shadowedGraph (Some sampleGlobalData) = Returns r
     /\ In (GlobalDataSource sampleGlobalData) (directDependencies r))
  /\ (exists r,
        useDataSources (Some "form-z") shadowedGraph (Some sampleGlobalData) = Returns r
        /\ In (GlobalDataSource sampleGlobalData) (transitiveDependencies r)).
Proof.
  assert (Hform : exists f, In f (values shadowedGraph) /\ form_id f = ACTION_ID).
  { exists (mkForm ACTION_ID "Shadowed" [] []). split; [now left | reflexivity]. }
  split.
  - destruct (C9_global_source_overwrites_form_source
                "form-y" ACTION_ID shadowedGraph sampleGlobalData Hform
                (or_introl eq_refl))
      as (_ & _ & _ & r & tr & Hr & _ & _ & Hdirect & _).
    + discriminate.
    + apply getDependencies_returns_iff. eexists. reflexivity.
    + exists r. split; [exact Hr |]. apply Hdirect. now left.
  - destruct (C9_global_source_overwrites_form_source
                "form-z" ACTION_ID shadowedGraph sampleGlobalData Hform
                (or_introl eq_refl))
      as (_ & _ & _ & r & tr & Hr & Htr & _ & _ & Htrans).
    + discriminate.
    + apply getDependencies_returns_iff. eexists. reflexivity.
    + exists r. split; [exact Hr |]. apply Htrans.
      injection Htr as <-. now left.
Defined.

(** ** Further properties of the resolver, the registry and the categorizer *)

Lemma definedOnly_ids (r : DataSourceRegistry.t) (ids : list string) :
  keyed r ->
  map ds_id (definedOnly (map (DataSourceRegistry.get r) ids))
  = filter (fun d => match DataSourceRegistry.get r d with
                     | Some _ => true
                     | None => false
                     end) ids.
Proof.
  intros Hk. induction ids as [| a ids IH]; simpl; [reflexivity |].
  destruct (DataSourceRegistry.get r a) as [src |] eqn:E; simpl.
  - now rewrite IH, (Hk _ _ E).
  - exact IH.
Qed.

Lemma keyed_registryOf (g : FormGraph) (s : option GlobalData) :
  keyed (registryOf g s).
Proof. apply keyed_registerGlobals, keyed_registerAll. intros k x [=]. Qed.

(** The search on own entries answers [true] exactly when some form stored
    in the graph is among its own dependencies. *)
Lemma ownCircular_self_dependency (g : FormGraph) :
  ownCircular g = true
  <-> exists t, In t (keys g) /\ In t (ownDependencies t g).
Proof.
  rewrite ownCircular_spec. split; intros [t Ht]; exists t.
  - split; [eapply plus_dep_source; eassumption | now apply ownDependencies_self].
  - apply ownDependencies_self, Ht.
Qed.

Lemma safeFrom_plus (g : FormGraph) (t d : string) :
  safeFrom g t -> plus (dep g) t d -> safeFrom g d.
Proof.
  intros Hs Hd y Hy. apply Hs. right.
  destruct Hy as [<- | Hy]; [assumption |].
  clear Hs. induction Hd as [a b Hab | a b c Hab _ IH].
  - eapply plus_cons; eassumption.
  - eapply plus_cons; [eassumption | now apply IH].
Qed.

Lemma protoFreeb_spec (g : FormGraph) : protoFreeb g = true <-> protoFree g.
Proof.
  unfold protoFreeb, protoFree. rewrite forallb_forall.
  split; intros H x Hx; specialize (H x Hx);
    destruct (getProperty g x); congruence.
Qed.

Lemma mockFormGraph_protoFree : protoFree mockFormGraph.
Proof. now apply protoFreeb_spec. Qed.

Lemma circularGraph2_protoFree : protoFree circularGraph2.
Proof. now apply protoFreeb_spec. Qed.

(** X1.  What [getDependencies] returns are exactly the identifiers
    reachable from the target in one or more dependency steps, each
    once. *)
Theorem X1_getDependencies_reachable (t : string) (g : FormGraph) (r : JsSet.t) :
  getDependencies t g = Returns r ->
  (forall x, In x r <-> plus (dep g) t x) /\ NoDup r.
Proof.
  intros H. apply getDependencies_own in H. subst r.
  split; [intros x; apply ownDependencies_spec | apply ownDependencies_NoDup].
Qed.

(** X1 on [mockFormGraph] with the target "form-e". *)
Lemma X1_getDependencies_reachable_witness :
  (forall x, In x ["form-c"; "form-d"; "form-a"; "form-b"]
             <-> plus (dep mockFormGraph) "form-e" x)
  /\ NoDup ["form-c"; "form-d"; "form-a"; "form-b"].
Proof.
  apply (X1_getDependencies_reachable "form-e" mockFormGraph). reflexivity.
Defined.

(** X26.  [getDependencies] throws exactly when the target, or an
    identifier reachable from it through the dependency lists of stored
    forms, is not a key of the graph and names a member every object
    inherits; it returns exactly when there is no such identifier. *)
Theorem X26_getDependencies_throws_iff (t : string) (g : FormGraph) :
  (getDependencies t g = Throws
   <-> exists x, star (dep g) t x /\ getProperty g x = Inherited)
  /\ ((exists r, getDependencies t g = Returns r) <-> safeFrom g t).
Proof.
  split; [apply getDependencies_throws_iff | apply getDependencies_returns_iff].
Qed.

(** X2.  On a graph none of whose identifiers reads as an inherited member,
    [hasCircularDependencies] returns [true] exactly when some form stored
    in the graph is among its own dependencies as [getDependencies]
    returns them. *)
Theorem X2_cycle_iff_self_dependency (g : FormGraph) :
  protoFree g ->
  (hasCircularDependencies g = Returns true
   <-> exists t r, In t (keys g) /\ getDependencies t g = Returns r /\ In t r).
Proof.
  intros Hp. rewrite (hasCircularDependencies_safe g Hp). split.
  - intros [= H]. apply ownCircular_self_dependency in H.
    destruct H as [t [Hk Hin]]. exists t, (ownDependencies t g).
    split; [assumption |]. split; [| assumption].
    apply getDependencies_safe. now apply protoFree_safeFrom.
  - intros (t & r & Hk & Hr & Hin). f_equal.
    apply ownCircular_self_dependency. exists t. split; [assumption |].
    apply getDependencies_own in Hr. now subst r.
Qed.

(** X2 on the graph A -> B -> A. *)
Lemma X2_cycle_iff_self_dependency_witness :
  hasCircularDependencies circularGraph2 = Returns true
  <-> exists t r, In t (keys circularGraph2)
                  /\ getDependencies t circularGraph2 = Returns r /\ In t r.
Proof.
  apply (X2_cycle_iff_self_dependency circularGraph2 circularGraph2_protoFree).
Defined.

(** X28.  Whenever [hasCircularDependencies] returns, its answer is [true]
    exactly when the graph has a dependency cycle among forms present in
    it; it returns on every graph none of whose identifiers reads as an
    inherited member, and on the empty graph it returns [false]. *)
Theorem X28_hasCircularDependencies_correct (g : FormGraph) :
  (forall b, hasCircularDependencies g = Returns b -> (b = true <-> cyclic g))
  /\ (protoFree g -> exists b, hasCircularDependencies g = Returns b)
  /\ hasCircularDependencies [] = Returns false.
Proof.
  split; [| split; [| reflexivity]].
  - intros b H. apply hasCircularDependencies_own in H. subst b.
    apply (ownCircular_iff_cyclic g).
  - intros Hp. eexists. now apply hasCircularDependencies_safe.
Qed.

(** Scenario 1 of the specification (the traversal tests on
    [mockFormGraph]), scenario 2 and scenario 3. *)
Example scenario_resolver :
  getDirectDependencies "form-e" mockFormGraph = ["form-c"; "form-d"]
  /\ getTransitiveDependencies "form-e" mockFormGraph = Returns ["form-a"; "form-b"]
  /\ getDependencies "form-e" mockFormGraph
     = Returns ["form-c"; "form-d"; "form-a"; "form-b"]
  /\ hasCircularDependencies mockFormGraph = Returns false
  /\ hasCircularDependencies circularGraph2 = Returns true
  /\ hasCircularDependencies circularGraph3 = Returns true
  /\ getDependencies "x" [] = Returns []
  /\ getDirectDependencies "x" [] = [].
Proof. repeat split. Qed.

(** X4.  [register] inserts or overwrites by identifier: afterwards the
    identifier of the source resolves to it, and every other identifier
    resolves as before. *)
Theorem X4_register_last_write_wins
    (r : DataSourceRegistry.t) (source : DataSource) (id : string) :
  DataSourceRegistry.get (DataSourceRegistry.register r source) (ds_id source)
    = Some source
  /\ (id <> ds_id source ->
      DataSourceRegistry.get (DataSourceRegistry.register r source) id
      = DataSourceRegistry.get r id).
Proof.
  rewrite !get_register, String.eqb_refl. split; [reflexivity |].
  intros Hne. destruct (String.eqb (ds_id source) id) eqn:E; [| reflexivity].
  apply String.eqb_eq in E. congruence.
Qed.

(** X4 on a registry that already holds a source under "form-a". *)
Lemma X4_register_last_write_wins_witness :
  DataSourceRegistry.get
    (DataSourceRegistry.register
       (DataSourceRegistry.register DataSourceRegistry.new
          (FormDataSource "form-a" "Form A" (mkForm "form-a" "Form A" [] [])))
       (GlobalDataSource sampleGlobalData))
    "form-a"
  = Some (FormDataSource "form-a" "Form A" (mkForm "form-a" "Form A" [] [])).
Proof.
  destruct (X4_register_last_write_wins
              (DataSourceRegistry.register DataSourceRegistry.new
                 (FormDataSource "form-a" "Form A" (mkForm "form-a" "Form A" [] [])))
              (GlobalDataSource sampleGlobalData) "form-a") as [_ H].
  rewrite H; [reflexivity | discriminate].
Defined.

(** Without a snapshot the global bucket is empty, whatever the target and
    the graph. *)
Lemma categorize_no_snapshot (t : option string) (g : FormGraph) :
  globalSources (categorize t g None) = [].
Proof.
  destruct t as [t |]; [| reflexivity].
  destruct (string_dec t "") as [-> | Ht]; [reflexivity |].
  rewrite (categorize_selected t g None Ht). apply getByType_global_forms.
Qed.

(** For a non-empty target [useDataSources] returns only after
    [getTransitiveDependencies] has. *)
Lemma useDataSources_transitive
    (t : string) (g : FormGraph) (s : option GlobalData) (r : CategorizedDataSources) :
  t <> "" -> useDataSources (Some t) g s = Returns r ->
  getTransitiveDependencies t g = Returns (ownTransitive t g).
Proof.
  intros Ht H. unfold useDataSources in H. apply String.eqb_neq in Ht.
  rewrite Ht in H.
  destruct (getTransitiveDependencies t g) as [tr |] eqn:E; [| discriminate].
  apply getTransitiveDependencies_own in E. now subst tr.
Qed.

Lemma getTransitiveDependencies_safeFrom (t : string) (g : FormGraph) (tr : JsSet.t) :
  getTransitiveDependencies t g = Returns tr -> safeFrom g t.
Proof.
  intros H. apply getDependencies_returns_iff.
  unfold getTransitiveDependencies in H.
  destruct (getDependencies t g) as [all |]; [eauto | discriminate].
Qed.

(** X5.  Without a snapshot the global bucket [useDataSources] returns is
    empty, whatever the target and the graph. *)
Theorem X5_no_snapshot_no_global_sources
    (t : option string) (g : FormGraph) (r : CategorizedDataSources) :
  useDataSources t g None = Returns r -> globalSources r = [].
Proof.
  intros H. apply useDataSources_categorize in H. subst r.
  apply categorize_no_snapshot.
Qed.

(** X5 on [mockFormGraph] with the target "form-d". *)
Lemma X5_no_snapshot_no_global_sources_witness :
  exists r,
    useDataSources (Some "form-d") mockFormGraph None = Returns r
    /\ globalSources r = [].
Proof.
  assert (Hr : exists r, useDataSources (Some "form-d") mockFormGraph None = Returns r)
    by (eexists; reflexivity).
  destruct Hr as [r Hr]. exists r. split; [exact Hr |].
  exact (X5_no_snapshot_no_global_sources (Some "form-d") mockFormGraph r Hr).
Defined.

(** On own entries: for a non-empty target the identifiers of the direct
    (transitive) bucket are the direct (transitive) dependencies that the
    registry resolves, in the order of the dependency set. *)
Lemma categorize_keeps_order (t : string) (g : FormGraph) (s : option GlobalData) :
  t <> "" ->
  map ds_id (directDependencies (categorize (Some t) g s))
  = filter (fun d => match DataSourceRegistry.get (registryOf g s) d with
                     | Some _ => true
                     | None => false
                     end)
           (ownDirect t g)
  /\ map ds_id (transitiveDependencies (categorize (Some t) g s))
    = filter (fun d => match DataSourceRegistry.get (registryOf g s) d with
                       | Some _ => true
                       | None => false
                       end)
             (ownTransitive t g).
Proof.
  intros Ht. rewrite (categorize_selected t g s Ht). simpl.
  split; apply definedOnly_ids, keyed_registryOf.
Qed.

(** X6.  For a non-empty target on which [useDataSources] returns, the
    identifiers of the direct (transitive) bucket are the direct
    (transitive) dependencies that the registry resolves, in the order of
    the dependency set. *)
Theorem X6_buckets_keep_order
    (t : string) (g : FormGraph) (s : option GlobalData) (r : CategorizedDataSources) :
  t <> "" -> useDataSources (Some t) g s = Returns r ->
  exists tr,
    getTransitiveDependencies t g = Returns tr
    /\ map ds_id (directDependencies r)
       = filter (fun d => match DataSourceRegistry.get (registryOf g s) d with
                          | Some _ => true
                          | None => false
                          end)
                (getDirectDependencies t g)
    /\ map ds_id (transitiveDependencies r)
       = filter (fun d => match DataSourceRegistry.get (registryOf g s) d with
                          | Some _ => true
                          | None => false
                          end)
                tr.
Proof.
  intros Ht H. exists (ownTransitive t g).
  split; [eapply useDataSources_transitive; eassumption |].
  apply useDataSources_categorize in H. subst r.
  rewrite getDirectDependencies_own. now apply categorize_keeps_order.
Qed.

(** X6 on [mockFormGraph] with the target "form-e". *)
Lemma X6_buckets_keep_order_witness :
  exists r,
    useDataSources (Some "form-e") mockFormGraph (Some sampleGlobalData) = Returns r
    /\ map ds_id (directDependencies r) = ["form-c"; "form-d"]
    /\ map ds_id (transitiveDependencies r) = ["form-a"; "form-b"].
Proof.
  assert (Hne : "form-e" <> "") by discriminate.
  assert (Hr : exists r, useDataSources (Some "form-e") mockFormGraph
                                        (Some sampleGlobalData) = Returns r)
    by (eexists; reflexivity).
  destruct Hr as [r Hr]. exists r. split; [exact Hr |].
  destruct (X6_buckets_keep_order "form-e" mockFormGraph (Some sampleGlobalData) r Hne Hr)
    as (tr & Htr & H1 & H2).
  vm_compute in Htr. injection Htr as <-.
  split; [rewrite H1 | rewrite H2]; reflexivity.
Defined.

(** Scenario 5 of the specification: with the action properties
    "status", "created_at" and the organization property "org_name" the
    global bucket holds exactly two sources, and the action source lists
    the paths "Action.Status" and "Action.Created At". *)
Example scenario_global_bucket :
  (exists r,
     useDataSources (Some "form-d") mockFormGraph (Some sampleGlobalData) = Returns r
     /\ globalSources r
        = [GlobalDataSource sampleGlobalData; OrganizationDataSource sampleGlobalData])
  /\ map df_path (getFields (GlobalDataSource sampleGlobalData))
    = ["Action.Status"; "Action.Created At"]
  /\ map df_path (getFields (OrganizationDataSource sampleGlobalData))
    = ["clientOrg.Org Name"].
Proof. split; [eexists; split; reflexivity | split; reflexivity]. Qed.

(* ------------------------------------------------------------------ *)
(** * Properties of the surrounding code *)

(** ** More on the resolver *)

Lemma plus_trans (R : string -> string -> Prop) (a b c : string) :
  plus R a b -> plus R b c -> plus R a c.
Proof.
  induction 1 as [a b H | a b b' H _ IH]; intros Hc.
  - eapply plus_cons; eassumption.
  - eapply plus_cons; [eassumption | auto].
Qed.

Lemma fold_add_prefix (xs : list string) (s : JsSet.t) :
  exists rest, fold_left JsSet.add xs s = s ++ rest.
Proof.
  revert s. induction xs as [| x xs IH]; intros s; simpl.
  - exists []. now rewrite app_nil_r.
  - destruct (IH (JsSet.add s x)) as [rest Hr]. rewrite Hr.
    unfold JsSet.add. destruct (JsSet.has s x); [eauto |].
    exists ([x] ++ rest). now rewrite app_assoc.
Qed.

(** The loop only ever appends to the result set. *)
Lemma bfsOwn_prefix (g : FormGraph) (fuel : nat) : forall deps queue V r,
  bfsOwn fuel g deps queue V = Some r -> exists rest, r = deps ++ rest.
Proof.
  induction fuel as [| fuel IH]; intros deps queue V r H.
  - destruct queue; simpl in H; [| discriminate].
    injection H as <-. exists []. now rewrite app_nil_r.
  - destruct queue as [| cur queue]; simpl in H.
    + injection H as <-. exists []. now rewrite app_nil_r.
    + destruct (JsSet.has V cur); [eauto |].
      destruct (lookup g cur) as [f |]; [| eauto].
      apply IH in H. destruct H as [rest ->].
      destruct (fold_add_prefix (dependencies f) deps) as [rest' ->].
      exists (rest' ++ rest). now rewrite app_assoc.
Qed.

Lemma fold_delete_filter (xs : list string) (s : JsSet.t) :
  fold_left JsSet.delete xs s = filter (fun y => negb (JsSet.has xs y)) s.
Proof.
  revert s. induction xs as [| x xs IH]; intros s; simpl.
  - induction s as [| y s IHs]; simpl; [reflexivity | now rewrite <- IHs].
  - rewrite IH. unfold JsSet.delete.
    induction s as [| y s IHs]; simpl; [reflexivity |].
    rewrite (String.eqb_sym y x).
    destruct (String.eqb x y); simpl; [assumption |].
    destruct (JsSet.has xs y); simpl; [assumption | now rewrite IHs].
Qed.

Lemma delete_prefix (a rest : list string) :
  NoDup (a ++ rest) -> fold_left JsSet.delete a (a ++ rest) = rest.
Proof.
  intros Hnd. rewrite fold_delete_filter, filter_app.
  assert (Ha : filter (fun y => negb (JsSet.has a y)) a = []).
  { assert (Hall : forall l, incl l a -> filter (fun y => negb (JsSet.has a y)) l = []).
    { induction l as [| y l IHl]; intros Hi; simpl; [reflexivity |].
      assert (Hy : JsSet.has a y = true)
        by (apply JsSetFacts.has_true, Hi; now left).
      rewrite Hy. simpl. apply IHl. intros z Hz. apply Hi. now right. }
    apply Hall, incl_refl. }
  rewrite Ha. simpl.
  assert (Hdis : forall y, In y rest -> ~ In y a).
  { intros y Hy Hin. revert Hnd. clear - Hy Hin.
    induction a as [| x a IH]; [destruct Hin |]. simpl. intros Hnd.
    inversion Hnd as [| ? ? Hx Hnd']; subst.
    destruct Hin as [-> | Hin]; [| auto].
    apply Hx, in_app_iff. now right. }
  clear Ha Hnd. induction rest as [| y rest IH]; simpl; [reflexivity |].
  assert (Hy : JsSet.has a y = false)
    by (apply JsSetFacts.has_false, Hdis; now left).
  rewrite Hy. simpl. f_equal. apply IH. intros z Hz. apply Hdis. now right.
Qed.

Lemma ownDependencies_split (t : string) (g : FormGraph) :
  ownDependencies t g
  = ownDirect t g ++ ownTransitive t g.
Proof.
  pose proof (ownDependencies_NoDup g t) as Hnd.
  pose proof (ownDependencies_returns g t _ (le_n _)) as Hret.
  unfold ownTransitive, ownDirect, JsSet.to_list.
  destruct (lookup g t) as [f |] eqn:Ef.
  - unfold ownDependencies_fuel, getDependencies_bound in Hret.
    cbn [bfsOwn JsSet.has JsSet.empty existsb] in Hret. rewrite Ef in Hret.
    apply bfsOwn_prefix in Hret. destruct Hret as [rest Hr].
    change (fold_left JsSet.add (dependencies f) []) with (JsSet.of_list (dependencies f)) in Hr.
    rewrite Hr in *. now rewrite delete_prefix.
  - now rewrite (ownDependencies_absent t g Ef).
Qed.

(** On own entries a transitive dependency is one that is not direct and is
    a dependency of some direct dependency. *)
Lemma ownTransitive_through_direct (t x : string) (g : FormGraph) :
  In x (ownTransitive t g)
  <-> ~ In x (ownDirect t g)
      /\ exists d, In d (ownDirect t g) /\ In x (ownDependencies d g).
Proof.
  rewrite ownTransitive_spec, ownDirect_spec. split.
  - intros [Hp Hn]. split; [assumption |].
    inversion Hp as [a b Hd | a d c Hd Hdx]; subst; [contradiction |].
    exists d. split; [now apply ownDirect_spec | now apply ownDependencies_spec].
  - intros [Hn [d [Hd Hx]]]. split; [| assumption].
    apply ownDirect_spec in Hd. apply ownDependencies_spec in Hx.
    eapply plus_cons; eassumption.
Qed.

(** Once [getDependencies] has returned, [getTransitiveDependencies]
    returns too. *)
Lemma getTransitiveDependencies_after (t : string) (g : FormGraph) (all : JsSet.t) :
  getDependencies t g = Returns all ->
  all = ownDependencies t g
  /\ getTransitiveDependencies t g = Returns (ownTransitive t g).
Proof.
  intros H. pose proof (getDependencies_own g t all H) as ->.
  split; [reflexivity |]. apply getTransitiveDependencies_safe.
  apply getDependencies_returns_iff. eauto.
Qed.

(** X3.  In iteration order what [getDependencies] returns is the direct
    dependencies followed by the transitive ones. *)
Theorem X3_dependencies_direct_then_transitive
    (t : string) (g : FormGraph) (all : JsSet.t) :
  getDependencies t g = Returns all ->
  exists tr,
    getTransitiveDependencies t g = Returns tr
    /\ all = getDirectDependencies t g ++ tr.
Proof.
  intros H. apply getTransitiveDependencies_after in H. destruct H as [-> Htr].
  exists (ownTransitive t g). split; [assumption |].
  rewrite getDirectDependencies_own. apply ownDependencies_split.
Qed.

(** X3 on [mockFormGraph] with the target "form-e". *)
Lemma X3_dependencies_direct_then_transitive_witness :
  exists tr,
    getTransitiveDependencies "form-e" mockFormGraph = Returns tr
    /\ ["form-c"; "form-d"; "form-a"; "form-b"]
       = getDirectDependencies "form-e" mockFormGraph ++ tr.
Proof.
  apply (X3_dependencies_direct_then_transitive "form-e" mockFormGraph).
  reflexivity.
Defined.

(** X27.  Once [getDependencies] has returned for a target,
    [getTransitiveDependencies] returns for it as well; the direct and the
    transitive dependencies are disjoint, and together they are what
    [getDependencies] returned. *)
Theorem X27_partition_of_returned_dependencies
    (t : string) (g : FormGraph) (all : JsSet.t) :
  getDependencies t g = Returns all ->
  exists tr,
    getTransitiveDependencies t g = Returns tr
    /\ (forall x, ~ (In x (getDirectDependencies t g) /\ In x tr))
    /\ (forall x, In x (getDirectDependencies t g) \/ In x tr <-> In x all).
Proof.
  intros H. apply getTransitiveDependencies_after in H. destruct H as [-> Htr].
  exists (ownTransitive t g). split; [assumption |].
  rewrite getDirectDependencies_own. apply own_partition.
Qed.

(** X27 on [mockFormGraph] with the target "form-e". *)
Lemma X27_partition_of_returned_dependencies_witness :
  exists tr,
    getTransitiveDependencies "form-e" mockFormGraph = Returns tr
    /\ (forall x, ~ (In x (getDirectDependencies "form-e" mockFormGraph) /\ In x tr))
    /\ (forall x, In x (getDirectDependencies "form-e" mockFormGraph) \/ In x tr
                  <-> In x ["form-c"; "form-d"; "form-a"; "form-b"]).
Proof.
  apply (X27_partition_of_returned_dependencies "form-e" mockFormGraph).
  reflexivity.
Defined.

(** X7.  Among what [getTransitiveDependencies] returns is exactly what is
    not a direct dependency and is returned by [getDependencies] for some
    direct dependency. *)
Theorem X7_transitive_through_direct
    (t x : string) (g : FormGraph) (tr : JsSet.t) :
  getTransitiveDependencies t g = Returns tr ->
  (In x tr
   <-> ~ In x (getDirectDependencies t g)
       /\ exists d rd, In d (getDirectDependencies t g)
                       /\ getDependencies d g = Returns rd /\ In x rd).
Proof.
  intros H. pose proof (getTransitiveDependencies_safeFrom t g tr H) as Hs.
  apply getTransitiveDependencies_own in H. subst tr.
  rewrite getDirectDependencies_own, ownTransitive_through_direct. split.
  - intros [Hn [d [Hd Hx]]]. split; [assumption |].
    exists d, (ownDependencies d g). split; [assumption |]. split; [| assumption].
    apply getDependencies_safe. apply (safeFrom_step g t); [assumption |].
    now apply ownDirect_spec.
  - intros [Hn (d & rd & Hd & Hrd & Hx)]. split; [assumption |].
    exists d. split; [assumption |]. apply getDependencies_own in Hrd. now subst rd.
Qed.

(** X7 on [mockFormGraph]: "form-a" is a transitive dependency of
    "form-e". *)
Lemma X7_transitive_through_direct_witness :
  In "form-a" ["form-a"; "form-b"]
  <-> ~ In "form-a" (getDirectDependencies "form-e" mockFormGraph)
      /\ exists d rd, In d (getDirectDependencies "form-e" mockFormGraph)
                      /\ getDependencies d mockFormGraph = Returns rd
                      /\ In "form-a" rd.
Proof.
  apply (X7_transitive_through_direct "form-e" "form-a" mockFormGraph).
  reflexivity.
Defined.

(** X8.  For every identifier that [getDependencies] returns for a target,
    [getDependencies] returns as well, and what it returns is part of the
    target's dependencies. *)
Theorem X8_dependencies_closed (t d : string) (g : FormGraph) (rt : JsSet.t) :
  getDependencies t g = Returns rt -> In d rt ->
  exists rd, getDependencies d g = Returns rd /\ incl rd rt.
Proof.
  intros H Hd.
  assert (Hs : safeFrom g t) by (apply getDependencies_returns_iff; eauto).
  apply getDependencies_own in H. subst rt.
  apply ownDependencies_spec in Hd.
  exists (ownDependencies d g). split.
  - apply getDependencies_safe. eapply safeFrom_plus; eassumption.
  - intros x Hx. apply ownDependencies_spec in Hx. apply ownDependencies_spec.
    eapply plus_trans; eassumption.
Qed.

(** X8 on [mockFormGraph]: E depends on D. *)
Lemma X8_dependencies_closed_witness :
  exists rd, getDependencies "form-d" mockFormGraph = Returns rd
             /\ incl rd ["form-c"; "form-d"; "form-a"; "form-b"].
Proof.
  apply (X8_dependencies_closed "form-e" "form-d" mockFormGraph).
  - reflexivity.
  - right. now left.
Defined.

(** ** The registry as a keyed store *)

Module JsMapKeys.
Import JsMap.

Section Entries.
Context {V : Type}.

Lemma set_entries (m : t V) (k k' : string) (v v' : V) :
  In (k', v') (set m k v) -> (k' = k /\ v' = v) \/ In (k', v') m.
Proof.
  induction m as [| [k0 v0] m IH]; simpl.
  - intros [[= <- <-] | []]. now left.
  - destruct (String.eqb k0 k) eqn:E.
    + apply String.eqb_eq in E. subst k0.
      intros [[= <- <-] | H]; [now left | right; now right].
    + intros [H | H]; [right; now left |].
      destruct (IH H); [now left | right; now right].
Qed.

Lemma set_keys (m : t V) (k k' : string) (v : V) :
  In k' (map fst (set m k v)) <-> k' = k \/ In k' (map fst m).
Proof.
  induction m as [| [k0 v0] m IH]; simpl.
  - intuition auto.
  - destruct (String.eqb k0 k) eqn:E; simpl.
    + apply String.eqb_eq in E. subst k0. intuition auto.
    + rewrite IH. intuition auto.
Qed.

Lemma set_NoDup (m : t V) (k : string) (v : V) :
  NoDup (map fst m) -> NoDup (map fst (set m k v)).
Proof.
  induction m as [| [k0 v0] m IH]; simpl; intros Hnd.
  - repeat constructor. intros [].
  - inversion Hnd as [| ? ? Hk0 Hnd']; subst.
    destruct (String.eqb k0 k) eqn:E; simpl.
    + now constructor.
    + constructor; [| auto].
      rewrite set_keys. intros [-> | H]; [| contradiction].
      now rewrite String.eqb_refl in E.
Qed.

Lemma get_In (m : t V) (k : string) (v : V) : get m k = Some v -> In (k, v) m.
Proof.
  induction m as [| [k0 v0] m IH]; simpl; [discriminate |].
  destruct (String.eqb k0 k) eqn:E.
  - apply String.eqb_eq in E. subst k0. intros [= ->]. now left.
  - intros H. right. auto.
Qed.

Lemma In_get (m : t V) (k : string) (v : V) :
  NoDup (map fst m) -> In (k, v) m -> get m k = Some v.
Proof.
  induction m as [| [k0 v0] m IH]; simpl; intros Hnd Hin; [destruct Hin |].
  inversion Hnd as [| ? ? Hk0 Hnd']; subst.
  destruct Hin as [[= -> ->] | Hin].
  - now rewrite String.eqb_refl.
  - destruct (String.eqb k0 k) eqn:E; [| auto].
    apply String.eqb_eq in E. subst k0. exfalso. apply Hk0.
    change k with (fst (k, v)). now apply in_map.
Qed.
End Entries.

End JsMapKeys.

Lemma lookup_get (g : FormGraph) (k : string) : lookup g k = JsMap.get g k.
Proof.
  induction g as [| [k0 f0] g IH]; simpl; [reflexivity |].
  now rewrite IH.
Qed.

Lemma registerList_snoc (l : list DataSource) (x : DataSource) (r : DataSourceRegistry.t) :
  registerList (l ++ [x]) r = DataSourceRegistry.register (registerList l r) x.
Proof. unfold registerList. now rewrite fold_left_app. Qed.

(** Every entry of a registry filled by [register] is stored under the
    identifier of its source, and no identifier is stored twice. *)
Lemma registerList_entries (l : list DataSource) :
  NoDup (map fst (registerList l DataSourceRegistry.new))
  /\ forall k s, In (k, s) (registerList l DataSourceRegistry.new) -> ds_id s = k.
Proof.
  induction l as [| x l [IH1 IH2]] using rev_ind.
  - split; [constructor | intros k s []].
  - rewrite registerList_snoc. unfold DataSourceRegistry.register. split.
    + now apply JsMapKeys.set_NoDup.
    + intros k s H. apply JsMapKeys.set_entries in H.
      destruct H as [[-> ->] | H]; [reflexivity | auto].
Qed.

(** X9.  After registering a list of sources into a fresh registry, [get]
    returns the last source of the list that carries the identifier,
    [getAll] holds no two sources with one identifier, and it holds exactly
    the sources that [get] returns under their own identifier. *)
Theorem X9_registry_of_list (sources : list DataSource) :
  (forall id,
     DataSourceRegistry.get (registerList sources DataSourceRegistry.new) id
     = find (fun s => String.eqb (ds_id s) id) (rev sources))
  /\ NoDup (map ds_id
              (DataSourceRegistry.getAll (registerList sources DataSourceRegistry.new)))
  /\ (forall s,
        In s (DataSourceRegistry.getAll (registerList sources DataSourceRegistry.new))
        <-> DataSourceRegistry.get (registerList sources DataSourceRegistry.new) (ds_id s)
            = Some s).
Proof.
  destruct (registerList_entries sources) as [Hnd Hkey].
  split; [| split].
  - intros id. induction sources as [| x l IH] using rev_ind; [reflexivity |].
    rewrite registerList_snoc, get_register, rev_app_distr. simpl.
    destruct (String.eqb (ds_id x) id); [reflexivity |].
    apply IH; apply registerList_entries.
  - unfold DataSourceRegistry.getAll, JsMap.values.
    replace (map ds_id (map snd (registerList sources DataSourceRegistry.new)))
      with (map fst (registerList sources DataSourceRegistry.new)); [assumption |].
    rewrite map_map. apply map_ext_in. intros [k s] Hin. simpl.
    symmetry. now apply Hkey.
  - intros s. split.
    + unfold DataSourceRegistry.getAll, JsMap.values. intros Hin.
      apply in_map_iff in Hin. destruct Hin as [[k s'] [Heq Hin]]. simpl in Heq. subst s'.
      rewrite (Hkey _ _ Hin). now apply JsMapKeys.In_get.
    + apply JsMapFacts.get_In_values.
Qed.

(** ** The graph built by useForms *)

Module JsObjectFacts.
Import JsMap JsObject.

Section Entries.
Context {V : Type}.

Lemma get_None_keys (m : t V) (k : string) :
  get m k = None -> ~ In k (map fst m).
Proof.
  induction m as [| [k0 v0] m IH]; simpl; [tauto |].
  destruct (String.eqb k0 k) eqn:E; [discriminate |].
  apply String.eqb_neq in E. intros H [Heq | Hin]; [congruence | now apply IH].
Qed.

Lemma get_insertIndexed (m : t V) (n : N) (k k' : string) (v : V) :
  get m k = None ->
  get (insertIndexed m n k v) k' = if String.eqb k k' then Some v else get m k'.
Proof.
  induction m as [| [k0 v0] m IH]; simpl; intros Hk; [reflexivity |].
  destruct (String.eqb k0 k) eqn:E; [discriminate |].
  destruct (arrayIndex k0) as [n0 |]; [destruct (N.ltb n n0) |]; simpl;
    try reflexivity.
  rewrite (IH Hk). destruct (String.eqb k0 k') eqn:E'; [| reflexivity].
  apply String.eqb_eq in E'. subst k0. now rewrite String.eqb_sym, E.
Qed.

Lemma insertIndexed_entries (m : t V) (n : N) (k k' : string) (v v' : V) :
  In (k', v') (insertIndexed m n k v) -> (k' = k /\ v' = v) \/ In (k', v') m.
Proof.
  induction m as [| [k0 v0] m IH]; simpl.
  - intros [[= <- <-] | []]. now left.
  - destruct (arrayIndex k0) as [n0 |]; [destruct (N.ltb n n0) |]; simpl.
    + intros [[= <- <-] | H]; [now left | now right].
    + intros [H | H]; [right; now left |].
      destruct (IH H); [now left | right; now right].
    + intros [[= <- <-] | H]; [now left | now right].
Qed.

Lemma insertIndexed_keys (m : t V) (n : N) (k k' : string) (v : V) :
  In k' (map fst (insertIndexed m n k v)) <-> k' = k \/ In k' (map fst m).
Proof.
  induction m as [| [k0 v0] m IH]; simpl.
  - intuition auto.
  - destruct (arrayIndex k0) as [n0 |]; [destruct (N.ltb n n0) |]; simpl;
      try rewrite IH; intuition auto.
Qed.

Lemma insertIndexed_NoDup (m : t V) (n : N) (k : string) (v : V) :
  ~ In k (map fst m) -> NoDup (map fst m) ->
  NoDup (map fst (insertIndexed m n k v)).
Proof.
  induction m as [| [k0 v0] m IH]; simpl; intros Hk Hnd.
  - repeat constructor. intros [].
  - inversion Hnd as [| ? ? Hk0 Hnd']; subst.
    destruct (arrayIndex k0) as [n0 |]; [destruct (N.ltb n n0) |]; simpl.
    + constructor; [simpl; tauto | assumption].
    + constructor; [| apply IH; tauto].
      rewrite insertIndexed_keys. intros [-> | H]; tauto.
    + constructor; [simpl; tauto | assumption].
Qed.

(** Reading after an assignment. *)
Lemma get_assign (m : t V) (k k' : string) (v : V) :
  get (assign m k v) k' = if String.eqb k k' then Some v else get m k'.
Proof.
  unfold assign. destruct (get m k) eqn:E; [apply JsMapFacts.get_set |].
  destruct (arrayIndex k); [now apply get_insertIndexed | apply JsMapFacts.get_set].
Qed.

Lemma assign_entries (m : t V) (k k' : string) (v v' : V) :
  In (k', v') (assign m k v) -> (k' = k /\ v' = v) \/ In (k', v') m.
Proof.
  unfold assign. destruct (get m k); [apply JsMapKeys.set_entries |].
  destruct (arrayIndex k); [apply insertIndexed_entries | apply JsMapKeys.set_entries].
Qed.

Lemma assign_NoDup (m : t V) (k : string) (v : V) :
  NoDup (map fst m) -> NoDup (map fst (assign m k v)).
Proof.
  unfold assign. destruct (get m k) eqn:E; [apply JsMapKeys.set_NoDup |].
  destruct (arrayIndex k); [| apply JsMapKeys.set_NoDup].
  apply insertIndexed_NoDup. now apply get_None_keys.
Qed.

(** *** The order of the keys *)

Lemma set_keys_old (m : t V) (k : string) (v : V) :
  get m k <> None -> map fst (set m k v) = map fst m.
Proof.
  induction m as [| [k0 v0] m IH]; simpl; intros H; [congruence |].
  destruct (String.eqb k0 k); simpl; [reflexivity |]. now rewrite IH.
Qed.

Lemma set_keys_new (m : t V) (k : string) (v : V) :
  get m k = None -> map fst (set m k v) = map fst m ++ [k].
Proof.
  induction m as [| [k0 v0] m IH]; simpl; intros H; [reflexivity |].
  destruct (String.eqb k0 k); [discriminate |]. simpl. now rewrite IH.
Qed.

Lemma enumerationOrder_snoc (ks : list string) (k : string) :
  arrayIndex k = None -> enumerationOrder ks -> enumerationOrder (ks ++ [k]).
Proof.
  intros Hk. induction ks as [| k0 ks IH]; simpl.
  - intros _. split; [intros k' [] | exact I].
  - intros [H0 Hks]. split; [| now apply IH].
    intros k' Hin. apply in_app_iff in Hin. destruct Hin as [Hin | [<- | []]].
    + now apply H0.
    + rewrite Hk. now destruct (arrayIndex k0).
Qed.

Lemma enumerationOrder_insertIndexed (m : t V) (n : N) (k : string) (v : V) :
  arrayIndex k = Some n -> enumerationOrder (map fst m) ->
  enumerationOrder (map fst (insertIndexed m n k v)).
Proof.
  intros Hk. induction m as [| [k0 v0] m IH]; simpl.
  - intros _. split; [intros k' [] | exact I].
  - intros [H0 Hm].
    destruct (arrayIndex k0) as [n0 |] eqn:E0; [destruct (N.ltb n n0) eqn:En |];
      simpl.
    + split; [| rewrite E0; now split].
      intros k' [<- | Hin]; rewrite Hk.
      * rewrite E0. apply N.ltb_lt in En. lia.
      * specialize (H0 k' Hin). destruct (arrayIndex k'); [| exact I].
        apply N.ltb_lt in En. lia.
    + rewrite E0. split; [| now apply IH].
      intros k' Hin. apply insertIndexed_keys in Hin. destruct Hin as [-> | Hin].
      * rewrite Hk. apply N.ltb_ge in En. exact En.
      * now apply H0.
    + split; [| rewrite E0; now split].
      intros k' [<- | Hin]; rewrite Hk.
      * now rewrite E0.
      * specialize (H0 k' Hin). now destruct (arrayIndex k').
Qed.

Lemma enumerationOrder_assign (m : t V) (k : string) (v : V) :
  enumerationOrder (map fst m) -> enumerationOrder (map fst (assign m k v)).
Proof.
  intros H. unfold assign. destruct (get m k) eqn:E.
  - rewrite set_keys_old; [assumption | congruence].
  - destruct (arrayIndex k) eqn:Ek.
    + now apply enumerationOrder_insertIndexed.
    + rewrite set_keys_new by assumption. now apply enumerationOrder_snoc.
Qed.
End Entries.

End JsObjectFacts.

Lemma buildGraph_snoc (fs : list Form) (f : Form) :
  buildGraph (fs ++ [f]) = assignForm (buildGraph fs) f.
Proof. unfold buildGraph. now rewrite fold_left_app. Qed.

(** No graph is built exactly when some form carries the identifier
    "__proto__". *)
Lemma buildGraph_None (fs : list Form) :
  buildGraph fs = None <-> In "__proto__" (map form_id fs).
Proof.
  induction fs as [| f fs IH] using rev_ind; [split; [discriminate | intros []] |].
  rewrite buildGraph_snoc, map_app, in_app_iff. unfold assignForm. simpl.
  destruct (buildGraph fs) as [g |].
  - destruct (String.eqb (form_id f) "__proto__") eqn:E.
    + apply String.eqb_eq in E. split; [auto | reflexivity].
    + apply String.eqb_neq in E. split; [discriminate |].
      intros [H | [H | []]]; [apply IH in H; discriminate | congruence].
  - split; [intros _; left; now apply IH | reflexivity].
Qed.

Lemma buildGraph_spec (fs : list Form) : forall g,
  buildGraph fs = Some g ->
  (forall k, lookup g k = find (fun f => String.eqb (form_id f) k) (rev fs))
  /\ wellFormed g
  /\ enumerationOrder (keys g).
Proof.
  induction fs as [| f fs IH] using rev_ind; intros g Hg.
  - injection Hg as <-. split; [reflexivity |].
    split; [split; [constructor | intros k f []] | exact I].
  - rewrite buildGraph_snoc in Hg. unfold assignForm in Hg.
    destruct (buildGraph fs) as [g0 |]; [| discriminate].
    destruct (String.eqb (form_id f) "__proto__"); [discriminate |].
    injection Hg as <-.
    destruct (IH g0 eq_refl) as (IH1 & [IH2 IH3] & IH4).
    split; [| split; [split |]].
    + intros k. rewrite lookup_get, JsObjectFacts.get_assign, rev_app_distr. simpl.
      destruct (String.eqb (form_id f) k); [reflexivity |].
      rewrite <- lookup_get. apply IH1.
    + now apply JsObjectFacts.assign_NoDup.
    + intros k f' H. apply JsObjectFacts.assign_entries in H.
      destruct H as [[-> ->] | H]; [reflexivity | auto].
    + now apply JsObjectFacts.enumerationOrder_assign.
Qed.

(** X10.  [useForms] builds a graph of the kind modelled here unless some
    form carries the identifier "__proto__" (the assignment then replaces
    the prototype of the graph object).  In the graph built, reading an
    identifier gives the last form of the list that carries it and, when
    none does, the inherited member for the names every object inherits
    and [undefined] otherwise; no key occurs twice, every form is stored
    under its own identifier, and the keys enumerate with the array indices
    first, in ascending order. *)
Theorem X10_buildGraph_lookup (fs : list Form) :
  (buildGraph fs = None <-> In "__proto__" (map form_id fs))
  /\ forall g, buildGraph fs = Some g ->
       (forall k, getProperty g k
                  = match find (fun f => String.eqb (form_id f) k) (rev fs) with
                    | Some f => Found f
                    | None => if isInherited k then Inherited else Missing
                    end)
       /\ wellFormed g
       /\ enumerationOrder (keys g).
Proof.
  split; [apply buildGraph_None |]. intros g Hg.
  destruct (buildGraph_spec fs g Hg) as (H1 & H2 & H3).
  split; [| split; assumption].
  intros k. unfold getProperty. now rewrite H1.
Qed.

(** X10 on three forms, the last of which carries an array index: it
    enumerates first. *)
Lemma X10_buildGraph_lookup_witness :
  buildGraph [mkForm "form-b" "Form B" [] []; mkForm "form-a" "Form A" [] [];
              mkForm "10" "Form 10" [] []; mkForm "9" "Form 9" [] []]
  = Some [ node "9" "Form 9" []; node "10" "Form 10" [];
           node "form-b" "Form B" []; node "form-a" "Form A" [] ]
  /\ wellFormed [ node "9" "Form 9" []; node "10" "Form 10" [];
                  node "form-b" "Form B" []; node "form-a" "Form A" [] ].
Proof.
  split; [reflexivity |].
  apply (proj2 (X10_buildGraph_lookup
                  [mkForm "form-b" "Form B" [] []; mkForm "form-a" "Form A" [] [];
                   mkForm "10" "Form 10" [] []; mkForm "9" "Form 9" [] []])).
  reflexivity.
Defined.

Lemma registerAll_wellFormed (g : FormGraph) : forall r d,
  wellFormed g ->
  DataSourceRegistry.get (registerAll (values g) r) d
  = match lookup g d with
    | Some f => Some (formSource f)
    | None => DataSourceRegistry.get r d
    end.
Proof.
  induction g as [| [k f] g IH]; intros r d [Hnd Hkey]; [reflexivity |].
  simpl in Hnd. inversion Hnd as [| ? ? Hk Hnd']; subst.
  assert (Hwf : wellFormed g).
  { split; [assumption |]. intros k' f' H. apply Hkey. now right. }
  assert (Hid : form_id f = k) by (apply Hkey; now left).
  simpl. change (fold_left _ (values g) ?r0) with (registerAll (values g) r0).
  rewrite (IH _ d Hwf), get_register. simpl. subst k.
  destruct (String.eqb (form_id f) d) eqn:E.
  - apply String.eqb_eq in E. subst d.
    destruct (lookup g (form_id f)) as [f' |] eqn:Ef; [| reflexivity].
    exfalso. apply Hk. eapply lookup_Some_key. eassumption.
  - reflexivity.
Qed.

Lemma registryOf_resolve (g : FormGraph) (s : option GlobalData) (d : string) :
  wellFormed g -> DataSourceRegistry.get (registryOf g s) d = resolve g s d.
Proof.
  intros Hwf.
  assert (Hforms : DataSourceRegistry.get (registerForms g DataSourceRegistry.new) d
                   = option_map formSource (lookup g d)).
  { change (registerForms g DataSourceRegistry.new)
      with (registerAll (values g) DataSourceRegistry.new).
    rewrite (registerAll_wellFormed g _ d Hwf). now destruct (lookup g d). }
  unfold registryOf, resolve. destruct s as [gd |]; [| exact Hforms].
  rewrite registerGlobals_get, Hforms.
  rewrite (String.eqb_sym ORG_ID d), (String.eqb_sym ACTION_ID d). reflexivity.
Qed.

(** On own entries and on a graph in which every form is stored once, under
    its own identifier: for a non-empty target the direct (transitive)
    bucket is the list of what the direct (transitive) dependency
    identifiers resolve to, in their order. *)
Lemma categorize_resolved
    (t : string) (g : FormGraph) (s : option GlobalData) :
  wellFormed g -> t <> "" ->
  directDependencies (categorize (Some t) g s)
  = definedOnly (map (resolve g s) (ownDirect t g))
  /\ transitiveDependencies (categorize (Some t) g s)
     = definedOnly (map (resolve g s) (ownTransitive t g)).
Proof.
  intros Hwf Ht. rewrite (categorize_selected t g s Ht). simpl.
  split; f_equal; apply map_ext; intros d; now apply registryOf_resolve.
Qed.

Lemma mockFormGraph_wellFormed : wellFormed mockFormGraph.
Proof.
  split.
  - repeat constructor; simpl; intuition discriminate.
  - intros k f H. simpl in H.
    repeat (destruct H as [[= <- <-] | H]; [reflexivity |]). destruct H.
Qed.

(** X11.  On a graph in which every form is stored once, under its own
    identifier, and for a non-empty target on which [useDataSources]
    returns, the direct (transitive) bucket is the list of what the direct
    (transitive) dependency identifiers resolve to, in their order: the
    organization source or the action source for their fixed identifiers
    when a snapshot is supplied, otherwise the form-backed source of the
    form stored under the identifier, and nothing for an identifier without
    a form. *)
Theorem X11_buckets_resolved
    (t : string) (g : FormGraph) (s : option GlobalData) (r : CategorizedDataSources) :
  wellFormed g -> t <> "" ->
  useDataSources (Some t) g s = Returns r ->
  exists tr,
    getTransitiveDependencies t g = Returns tr
    /\ directDependencies r
       = definedOnly (map (resolve g s) (getDirectDependencies t g))
    /\ transitiveDependencies r = definedOnly (map (resolve g s) tr).
Proof.
  intros Hwf Ht H. exists (ownTransitive t g).
  split; [eapply useDataSources_transitive; eassumption |].
  apply useDataSources_categorize in H. subst r.
  rewrite getDirectDependencies_own. now apply categorize_resolved.
Qed.

(** X11 on [mockFormGraph] with the target "form-d". *)
Lemma X11_buckets_resolved_witness :
  exists tr,
    getTransitiveDependencies "form-d" mockFormGraph = Returns tr
    /\ [formSource (mkForm "form-b" "Form B" [] ["form-a"])]
       = definedOnly (map (resolve mockFormGraph None)
                          (getDirectDependencies "form-d" mockFormGraph))
    /\ [formSource (mkForm "form-a" "Form A" [] [])]
       = definedOnly (map (resolve mockFormGraph None) tr).
Proof.
  apply (X11_buckets_resolved
           "form-d" mockFormGraph None
           (mkCategorized [formSource (mkForm "form-b" "Form B" [] ["form-a"])]
                          [formSource (mkForm "form-a" "Form A" [] [])] [])
           mockFormGraph_wellFormed).
  - discriminate.
  - reflexivity.
Defined.

(** ** The response transformer *)

Lemma findFormTemplate_hasTemplate
    (templates : list MockServerFormTemplate) (node : MockServerNode) :
  hasTemplate templates node
  = match findFormTemplate (component_id (data node)) templates with
    | Some _ => true
    | None => false
    end.
Proof.
  unfold hasTemplate, findFormTemplate.
  induction templates as [| tpl templates IH]; simpl; [reflexivity |].
  destruct (String.eqb (template_id tpl) (component_id (data node))); [reflexivity | exact IH].
Qed.

Lemma transformNode_Some
    (templates : list MockServerFormTemplate) (node : MockServerNode) (form : Form) :
  transformNode node templates = Some form ->
  hasTemplate templates node = true /\ formOfNode templates node form.
Proof.
  rewrite findFormTemplate_hasTemplate. unfold transformNode, formOfNode.
  destruct (findFormTemplate _ _) as [tpl |]; [| discriminate].
  intros [= <-]. simpl. eauto 8.
Qed.

Lemma transformNode_None
    (templates : list MockServerFormTemplate) (node : MockServerNode) :
  transformNode node templates = None <-> hasTemplate templates node = false.
Proof.
  rewrite findFormTemplate_hasTemplate. unfold transformNode.
  destruct (findFormTemplate _ _); split; congruence.
Qed.

(** X12.  [transformMockServerResponse] turns the nodes that have a form
    template into forms, one each and in the order of the nodes, and drops
    the others; a form takes its identifier, name and dependency list from
    its node (the prerequisites, unfiltered) and its fields from the first
    template whose identifier is the node's component identifier. *)
Theorem X12_transform_keeps_nodes_with_template (response : MockServerResponse) :
  Forall2 (formOfNode (response_forms response))
          (filter (hasTemplate (response_forms response)) (nodes response))
          (forms (transformMockServerResponse response)).
Proof.
  unfold transformMockServerResponse. simpl.
  induction (nodes response) as [| node ns IH]; simpl; [constructor |].
  destruct (transformNode node (response_forms response)) as [form |] eqn:E.
  - apply transformNode_Some in E. destruct E as [Ht Hf]. rewrite Ht.
    now constructor.
  - apply transformNode_None in E. now rewrite E.
Qed.

Lemma loaded_forms (response : MockServerResponse) (form : Form) :
  In form (forms (transformMockServerResponse response))
  <-> exists node, In node (nodes response)
                   /\ transformNode node (response_forms response) = Some form.
Proof. unfold transformMockServerResponse. simpl. apply In_definedOnly. Qed.

Lemma loadedGraph_None (response : MockServerResponse) :
  loadedGraph response = None
  <-> exists node, In node (nodes response) /\ node_id node = "__proto__"
                   /\ hasTemplate (response_forms response) node = true.
Proof.
  unfold loadedGraph. rewrite buildGraph_None, in_map_iff. split.
  - intros [form [Hid Hin]]. apply loaded_forms in Hin.
    destruct Hin as [node [Hn Htr]].
    apply transformNode_Some in Htr. destruct Htr as [Ht [Hfid _]].
    exists node. split; [assumption |]. split; [congruence | assumption].
  - intros (node & Hn & Hid & Ht).
    destruct (transformNode node (response_forms response)) as [form |] eqn:E;
      [| apply transformNode_None in E; congruence].
    exists form. split; [| apply loaded_forms; eauto].
    apply transformNode_Some in E. destruct E as [_ [Hfid _]]. congruence.
Qed.

Lemma loadedGraph_forms (response : MockServerResponse) (g : FormGraph) (d : string) :
  loadedGraph response = Some g ->
  (lookup g d = None
   <-> forall node, In node (nodes response) -> node_id node = d ->
                    hasTemplate (response_forms response) node = false)
  /\ (forall form, lookup g d = Some form ->
        exists node, In node (nodes response) /\ node_id node = d
                     /\ formOfNode (response_forms response) node form).
Proof.
  unfold loadedGraph. intros Hg.
  destruct (buildGraph_spec (forms (transformMockServerResponse response)) g Hg)
    as [Hlook _]. rewrite Hlook. split.
  - split.
    + intros Hnone node Hin Hid.
      destruct (hasTemplate (response_forms response) node) eqn:Ht; [| reflexivity].
      exfalso.
      destruct (transformNode node (response_forms response)) as [form |] eqn:E;
        [| apply transformNode_None in E; congruence].
      assert (Hinr : In form (rev (forms (transformMockServerResponse response))))
        by (rewrite <- in_rev; apply loaded_forms; eauto).
      pose proof (find_none _ _ Hnone form Hinr) as Hf. simpl in Hf.
      apply transformNode_Some in E. destruct E as [_ [Hfid _]].
      rewrite Hfid, Hid, String.eqb_refl in Hf. discriminate.
    + intros Hall.
      destruct (find _ _) as [form |] eqn:E; [exfalso | reflexivity].
      apply find_some in E. destruct E as [Hin Heq].
      rewrite <- in_rev in Hin. apply loaded_forms in Hin.
      destruct Hin as [node [Hn Htr]].
      apply transformNode_Some in Htr. destruct Htr as [Ht [Hfid _]].
      apply String.eqb_eq in Heq. rewrite Hfid in Heq.
      rewrite (Hall node Hn Heq) in Ht. discriminate.
  - intros form E. apply find_some in E. destruct E as [Hin Heq].
    rewrite <- in_rev in Hin. apply loaded_forms in Hin.
    destruct Hin as [node [Hn Htr]].
    apply transformNode_Some in Htr. destruct Htr as [_ Hf].
    apply String.eqb_eq in Heq. exists node.
    split; [assumption |]. split; [| assumption].
    destruct Hf as [Hfid _]. congruence.
Qed.

(** X13.  Loading a response gives a graph of the kind modelled here unless
    a node with a form template carries the identifier "__proto__".  The
    graph then has a form as its own entry under an identifier exactly when
    some node with that identifier has a form template, and every stored
    form is the form of such a node; a prerequisite that names a node
    without a template is therefore a dependency without a form. *)
Theorem X13_loaded_graph_forms (response : MockServerResponse) :
  (loadedGraph response = None
   <-> exists node, In node (nodes response) /\ node_id node = "__proto__"
                    /\ hasTemplate (response_forms response) node = true)
  /\ forall g d, loadedGraph response = Some g ->
       (lookup g d = None
        <-> forall node, In node (nodes response) -> node_id node = d ->
                         hasTemplate (response_forms response) node = false)
       /\ (forall form, lookup g d = Some form ->
             exists node, In node (nodes response) /\ node_id node = d
                          /\ formOfNode (response_forms response) node form).
Proof.
  split; [apply loadedGraph_None |]. intros g d. apply loadedGraph_forms.
Qed.

(** X14.  [extractFields] makes one field per property of the schema, in
    order, with the property key as identifier; the label is the title, or
    the key when the title is empty, so a label is empty only when the key
    is. *)
Theorem X14_extracted_fields (formTemplate : MockServerFormTemplate) :
  map field_id (extractFields formTemplate) = map fst (properties formTemplate)
  /\ Forall2 (fun entry field =>
                field_label field
                = (if String.eqb (title (snd entry)) "" then fst entry
                   else title (snd entry))
                /\ (field_label field = "" -> field_id field = ""))
             (properties formTemplate) (extractFields formTemplate).
Proof.
  unfold extractFields. induction (properties formTemplate) as [| [k def] ps [IH1 IH2]].
  - split; constructor.
  - split; simpl; [now rewrite IH1 |]. constructor; [| exact IH2]. simpl.
    unfold orElse. split; [reflexivity |].
    destruct (String.eqb (title def) "") eqn:E; [auto |].
    intros H. rewrite H in E. discriminate.
Qed.

(** ** The mapping store *)

Section Store.
Import PrefillMappings.

Lemma sameTarget_true (formId fieldId : string) (m : PrefillMapping) :
  sameTarget formId fieldId m = true <-> target m = (formId, fieldId).
Proof.
  unfold sameTarget, target. rewrite andb_true_iff, !String.eqb_eq.
  split; [intros [-> ->]; reflexivity | intros [= -> ->]; auto].
Qed.

Lemma sameTarget_own (m : PrefillMapping) :
  sameTarget (pm_targetFormId m) (pm_targetFieldId m) m = true.
Proof. now apply sameTarget_true. Qed.

Lemma find_app_first {A : Type} (p : A -> bool) (l1 l2 : list A) :
  find p (l1 ++ l2) = match find p l1 with
                      | Some x => Some x
                      | None => find p l2
                      end.
Proof.
  induction l1 as [| a l1 IH]; simpl; [reflexivity |].
  now destruct (p a).
Qed.

Lemma find_filter_keep {A : Type} (p q : A -> bool) (l : list A) :
  (forall x, p x = true -> q x = true) -> find p (filter q l) = find p l.
Proof.
  intros H. induction l as [| a l IH]; simpl; [reflexivity |].
  destruct (p a) eqn:Ep.
  - rewrite (H a Ep). simpl. now rewrite Ep.
  - destruct (q a); simpl; [now rewrite Ep | assumption].
Qed.

Lemma find_filter_none {A : Type} (p q : A -> bool) (l : list A) :
  (forall x, q x = true -> p x = false) -> find p (filter q l) = None.
Proof.
  intros H. induction l as [| a l IH]; simpl; [reflexivity |].
  destruct (q a) eqn:Eq; simpl; [now rewrite (H a Eq) | assumption].
Qed.

Lemma filter_filter_keep {A : Type} (p q : A -> bool) (l : list A) :
  (forall x, p x = true -> q x = true) -> filter p (filter q l) = filter p l.
Proof.
  intros H. induction l as [| a l IH]; simpl; [reflexivity |].
  destruct (p a) eqn:Ep.
  - rewrite (H a Ep). simpl. now rewrite Ep, IH.
  - destruct (q a); simpl; [now rewrite Ep | assumption].
Qed.

Lemma filter_filter_none {A : Type} (p q : A -> bool) (l : list A) :
  (forall x, q x = true -> p x = false) -> filter p (filter q l) = [].
Proof.
  intros H. induction l as [| a l IH]; simpl; [reflexivity |].
  destruct (q a) eqn:Eq; simpl; [now rewrite (H a Eq) | assumption].
Qed.

Lemma sameTarget_other (f fld f' fld' : string) (m : PrefillMapping) :
  sameTarget f' fld' m = true -> (String.eqb f f' && String.eqb fld fld') = false ->
  negb (sameTarget f fld m) = true.
Proof.
  intros H1 H2. apply negb_true_iff. destruct (sameTarget f fld m) eqn:E; [| reflexivity].
  apply sameTarget_true in H1, E. rewrite H1 in E. injection E as <- <-.
  now rewrite !String.eqb_refl in H2.
Qed.

Lemma setMapping_reads
    (mapping : PrefillMapping) (prev : PrefillMappings.t) (formId fieldId : string) :
  getMapping (setMapping mapping prev) formId fieldId
  = (if sameTarget formId fieldId mapping then Some mapping
     else getMapping prev formId fieldId)
  /\ (formId <> pm_targetFormId mapping ->
      getMappingsForForm (setMapping mapping prev) formId
      = getMappingsForForm prev formId).
Proof.
  unfold getMapping, setMapping, getMappingsForForm. split.
  - rewrite find_app_first. simpl.
    destruct (sameTarget formId fieldId mapping) eqn:E.
    + rewrite find_filter_none; [reflexivity |].
      intros x Hx. apply negb_true_iff in Hx.
      apply sameTarget_true in E. injection E as <- <-. exact Hx.
    + rewrite find_filter_keep; [now destruct (find _ prev) |].
      intros x Hx. apply negb_true_iff.
      destruct (sameTarget (pm_targetFormId mapping) (pm_targetFieldId mapping) x)
        eqn:Ex; [| reflexivity].
      apply sameTarget_true in Hx, Ex. rewrite Hx in Ex. injection Ex as -> ->.
      now rewrite sameTarget_own in E.
  - intros Hne. rewrite filter_app. simpl.
    apply String.eqb_neq in Hne. rewrite String.eqb_sym, Hne, app_nil_r.
    apply filter_filter_keep. intros x Hx. apply negb_true_iff.
    unfold sameTarget. apply String.eqb_eq in Hx. rewrite Hx, Hne. reflexivity.
Qed.

(** X15.  The store is read back as written: after [setMapping] the target
    of the new mapping reads as the new mapping, every other target reads
    as before, and the mappings of every other form are the same list. *)
Theorem X15_setMapping_getMapping
    (mapping : PrefillMapping) (prev : PrefillMappings.t) (formId fieldId : string) :
  getMapping (setMapping mapping prev) formId fieldId
  = (if sameTarget formId fieldId mapping then Some mapping
     else getMapping prev formId fieldId)
  /\ (formId <> pm_targetFormId mapping ->
      getMappingsForForm (setMapping mapping prev) formId
      = getMappingsForForm prev formId).
Proof. apply setMapping_reads. Qed.

(** X16.  Clearing removes what it names and nothing else: after
    [clearMapping] the cleared target reads as absent and every other
    target as before; after [clearAllMappingsForForm] the form has no
    mappings and every other form has the ones it had. *)
Theorem X16_clearing (prev : PrefillMappings.t) (formId fieldId f fld : string) :
  getMapping (clearMapping formId fieldId prev) f fld
  = (if String.eqb formId f && String.eqb fieldId fld then None
     else getMapping prev f fld)
  /\ getMappingsForForm (clearAllMappingsForForm formId prev) f
     = (if String.eqb formId f then [] else getMappingsForForm prev f)
  /\ getMapping (clearAllMappingsForForm formId prev) f fld
     = (if String.eqb formId f then None else getMapping prev f fld)
  /\ clearAllMappings prev = [].
Proof.
  unfold getMapping, clearMapping, clearAllMappingsForForm, getMappingsForForm.
  split; [| split; [| split; [| reflexivity]]].
  - destruct (String.eqb formId f && String.eqb fieldId fld) eqn:E.
    + apply andb_true_iff in E. destruct E as [E1 E2].
      apply String.eqb_eq in E1, E2. subst f fld.
      apply find_filter_none. intros x Hx. now apply negb_true_iff in Hx.
    + apply find_filter_keep. intros x Hx. eapply sameTarget_other; eassumption.
  - destruct (String.eqb formId f) eqn:E.
    + apply String.eqb_eq in E. subst f.
      apply filter_filter_none. intros x Hx. now apply negb_true_iff in Hx.
    + apply filter_filter_keep. intros x Hx. apply negb_true_iff.
      apply String.eqb_eq in Hx. rewrite Hx, String.eqb_sym. exact E.
  - destruct (String.eqb formId f) eqn:E.
    + apply String.eqb_eq in E. subst f.
      apply find_filter_none. intros x Hx. apply negb_true_iff in Hx.
      unfold sameTarget. now rewrite Hx.
    + apply find_filter_keep. intros x Hx. apply negb_true_iff.
      apply sameTarget_true in Hx. injection Hx as Hx _.
      rewrite Hx, String.eqb_sym. exact E.
Qed.

Lemma NoDup_map_filter {A B : Type} (k : A -> B) (p : A -> bool) (l : list A) :
  NoDup (map k l) -> NoDup (map k (filter p l)).
Proof.
  induction l as [| a l IH]; simpl; intros H; [constructor |].
  inversion H as [| ? ? Ha Hl]; subst.
  destruct (p a); simpl; [| auto].
  constructor; [| auto].
  intros Hin. apply Ha. apply in_map_iff in Hin. destruct Hin as [x [Hx Hin]].
  apply filter_In in Hin. apply in_map_iff. exists x. tauto.
Qed.

Lemma setMapping_unique (mapping : PrefillMapping) (prev : PrefillMappings.t) :
  uniqueTargets prev -> uniqueTargets (setMapping mapping prev).
Proof.
  unfold uniqueTargets, setMapping. intros H. rewrite map_app. simpl.
  apply NoDup_app.
  - now apply NoDup_map_filter.
  - repeat constructor. intros [].
  - intros y Hy [<- | []]. apply in_map_iff in Hy. destruct Hy as [x [Hx Hin]].
    apply filter_In in Hin. destruct Hin as [_ Hin]. apply negb_true_iff in Hin.
    assert (sameTarget (pm_targetFormId mapping) (pm_targetFieldId mapping) x = true)
      by (apply sameTarget_true; exact Hx).
    congruence.
Qed.

Lemma applyAction_unique (a : StoreAction) (mappings : PrefillMappings.t) :
  uniqueTargets mappings -> uniqueTargets (applyAction mappings a).
Proof.
  destruct a; simpl.
  - apply setMapping_unique.
  - apply NoDup_map_filter.
  - apply NoDup_map_filter.
  - intros _. constructor.
Qed.

(** X17.  The updates keep the store free of duplicates: if no two
    mappings share a target, none do after any sequence of [setMapping],
    [clearMapping], [clearAllMappingsForForm] and [clearAllMappings]. *)
Theorem X17_store_keeps_unique_targets
    (actions : list StoreAction) (mappings : PrefillMappings.t) :
  uniqueTargets mappings -> uniqueTargets (fold_left applyAction actions mappings).
Proof.
  revert mappings. induction actions as [| a actions IH]; intros mappings H; simpl.
  - exact H.
  - apply IH. now apply applyAction_unique.
Qed.

Lemma NoDup_map_inj {A B : Type} (k : A -> B) (l : list A) (a b : A) :
  NoDup (map k l) -> In a l -> In b l -> k a = k b -> a = b.
Proof.
  induction l as [| x l IH]; simpl; intros Hnd Ha Hb Hk; [destruct Ha |].
  inversion Hnd as [| ? ? Hx Hl]; subst.
  destruct Ha as [-> | Ha], Hb as [-> | Hb]; auto.
  - exfalso. apply Hx. rewrite Hk. now apply in_map.
  - exfalso. apply Hx. rewrite <- Hk. now apply in_map.
Qed.

(** X18.  In a store without duplicate targets, [getMapping] returns a
    mapping for a form and a field exactly when [getMappingsForForm] lists
    it for the form and its target field is that field. *)
Theorem X18_getMapping_in_form_list
    (mappings : PrefillMappings.t) (formId fieldId : string) (m : PrefillMapping) :
  uniqueTargets mappings ->
  (getMapping mappings formId fieldId = Some m
   <-> In m (getMappingsForForm mappings formId) /\ pm_targetFieldId m = fieldId).
Proof.
  intros Hu. unfold getMapping, getMappingsForForm. rewrite filter_In. split.
  - intros H. apply find_some in H. destruct H as [Hin Hs].
    apply sameTarget_true in Hs. injection Hs as H1 H2.
    rewrite H1, String.eqb_refl. auto.
  - intros [[Hin Hf] Hfld]. apply String.eqb_eq in Hf.
    destruct (find (sameTarget formId fieldId) mappings) as [m' |] eqn:E.
    + apply find_some in E. destruct E as [Hin' Hs]. apply sameTarget_true in Hs.
      f_equal. apply (NoDup_map_inj target mappings); auto.
      rewrite Hs. unfold target. now rewrite Hf, Hfld.
    + pose proof (find_none _ _ E m Hin) as Hn.
      assert (sameTarget formId fieldId m = true)
        by (apply sameTarget_true; unfold target; now rewrite Hf, Hfld).
      congruence.
Qed.

End Store.

(** X17 from the empty store. *)
Lemma X17_store_keeps_unique_targets_witness :
  uniqueTargets
    (fold_left applyAction
       [ SetMapping sampleMapping; SetMapping sampleMapping2;
         SetMapping sampleMapping; ClearMapping "form-d" "name" ]
       []).
Proof.
  apply (X17_store_keeps_unique_targets _ []). constructor.
Defined.

(** X18 on a store of two mappings. *)
Lemma X18_getMapping_in_form_list_witness :
  PrefillMappings.getMapping [sampleMapping; sampleMapping2] "form-d" "name"
    = Some sampleMapping2
  <-> In sampleMapping2
         (PrefillMappings.getMappingsForForm [sampleMapping; sampleMapping2] "form-d")
      /\ pm_targetFieldId sampleMapping2 = "name".
Proof.
  apply (X18_getMapping_in_form_list [sampleMapping; sampleMapping2]).
  repeat constructor; simpl; intuition discriminate.
Defined.

(** ** The modal and the workflow *)

Lemma FieldType_eqb_eq (a b : FieldType) : FieldType_eqb a b = true <-> a = b.
Proof.
  destruct a, b; simpl; split; try congruence.
  - intros H. apply String.eqb_eq in H. now subst.
  - intros [= ->]. apply String.eqb_refl.
Qed.

(** X19.  While no confirmation is pending, selecting a field whose type
    is the target field's type hands its mapping over at once; selecting a
    field of another type hands nothing over and opens the confirmation,
    during which further selections do nothing; confirming then hands over
    the mapping of the selection that opened it, cancelling hands over
    nothing, and both close the confirmation. *)
Theorem X19_type_mismatch_needs_confirmation
    (targetField : FormField) (source : DataSource) (field : DataField)
    (st : ModalState) :
  showConfirmation st = false ->
  (df_type field = field_type targetField ->
   treeSelectField targetField source field st
   = (st, Some (createMapping targetField source field)))
  /\ (df_type field <> field_type targetField ->
      snd (treeSelectField targetField source field st) = None
      /\ handleConfirmTypeMismatch targetField
           (fst (treeSelectField targetField source field st))
         = (modalClosed, Some (createMapping targetField source field))
      /\ handleCancelTypeMismatch
           (fst (treeSelectField targetField source field st))
         = (modalClosed, None)
      /\ forall source' field',
           snd (treeSelectField targetField source' field'
                  (fst (treeSelectField targetField source field st))) = None
           /\ fst (treeSelectField targetField source' field'
                     (fst (treeSelectField targetField source field st)))
              = fst (treeSelectField targetField source field st)).
Proof.
  intros Hclosed. unfold treeSelectField, handleSelectField. rewrite Hclosed.
  split; intros Hty.
  - apply FieldType_eqb_eq in Hty. now rewrite Hty.
  - destruct (FieldType_eqb (df_type field) (field_type targetField)) eqn:E.
    + apply FieldType_eqb_eq in E. contradiction.
    + simpl. repeat split.
Qed.

(** X19 on an email field offered for a text target. *)
Lemma X19_type_mismatch_needs_confirmation_witness :
  snd (treeSelectField (mkFormField "name" "Name" text)
         (GlobalDataSource sampleGlobalData)
         (mkDataField "e" "E" email "Action.E") modalClosed) = None
  /\ snd (handleConfirmTypeMismatch (mkFormField "name" "Name" text)
            (fst (treeSelectField (mkFormField "name" "Name" text)
                    (GlobalDataSource sampleGlobalData)
                    (mkDataField "e" "E" email "Action.E") modalClosed)))
     = Some (createMapping (mkFormField "name" "Name" text)
               (GlobalDataSource sampleGlobalData)
               (mkDataField "e" "E" email "Action.E")).
Proof.
  destruct (X19_type_mismatch_needs_confirmation
              (mkFormField "name" "Name" text) (GlobalDataSource sampleGlobalData)
              (mkDataField "e" "E" email "Action.E") modalClosed eq_refl)
    as [_ H].
  destruct H as (H1 & H2 & _); [discriminate |].
  split; [exact H1 | now rewrite H2].
Defined.

Lemma handleOpenModal_field (form : Form) (fieldId : string) (tf : FormField) :
  handleOpenModal (Found form) fieldId = Returns (Some tf) ->
  In tf (fields form) /\ field_id tf = fieldId.
Proof.
  simpl. intros [= H]. apply find_some in H. destruct H as [Hin Heq].
  apply String.eqb_eq in Heq. auto.
Qed.

(** X20.  With a form selected (a non-empty identifier stored in the
    graph), the field [handleOpenModal] opens the modal for is the first
    field of that form with the requested identifier; once a source field
    is handed over for it, [handleSelectMapping] stores a mapping under the
    selected form and that field which carries the identifier and the path
    of the source field, and the identifier of the source exactly when the
    source is form-typed; every other target of the store reads as
    before.  Without a selected form the store is left as it is. *)
Theorem X20_selected_field_is_stored
    (g : FormGraph) (formId fieldId : string) (form : Form) (tf : FormField)
    (source : DataSource) (field : DataField) (mappings : PrefillMappings.t) :
  formId <> "" -> lookup g formId = Some form ->
  handleOpenModal (selectedForm (Some formId) g) fieldId = Returns (Some tf) ->
  In tf (fields form) /\ field_id tf = fieldId
  /\ PrefillMappings.getMapping
       (handleSelectMapping (Some formId) (createMapping tf source field) mappings)
       formId fieldId
     = Some (mkPrefillMapping formId fieldId
               (if DataSourceType_eqb (ds_type source) form_t
                then from_form else from_global)
               (if DataSourceType_eqb (ds_type source) form_t
                then Some (ds_id source) else None)
               (df_id field) (df_path field))
  /\ (forall f fld,
        (f, fld) <> (formId, fieldId) ->
        PrefillMappings.getMapping
          (handleSelectMapping (Some formId) (createMapping tf source field) mappings)
          f fld
        = PrefillMappings.getMapping mappings f fld)
  /\ handleSelectMapping None (createMapping tf source field) mappings = mappings
  /\ handleSelectMapping (Some "") (createMapping tf source field) mappings = mappings.
Proof.
  intros Hne Hform Hopen. unfold selectedForm in Hopen.
  apply String.eqb_neq in Hne. rewrite Hne in Hopen.
  rewrite (proj2 (getProperty_Found g formId form) Hform) in Hopen.
  apply handleOpenModal_field in Hopen. destruct Hopen as [Hin Hid].
  split; [assumption |]. split; [assumption |].
  unfold handleSelectMapping. rewrite Hne.
  split; [| split; [| split; reflexivity]].
  - destruct (setMapping_reads
                (mkPrefillMapping formId (pm_targetFieldId (createMapping tf source field))
                   (pm_sourceType (createMapping tf source field))
                   (pm_sourceFormId (createMapping tf source field))
                   (pm_sourceFieldId (createMapping tf source field))
                   (pm_sourcePath (createMapping tf source field)))
                mappings formId fieldId) as [H _].
    rewrite H. simpl. unfold PrefillMappings.sameTarget. simpl.
    now rewrite Hid, !String.eqb_refl.
  - intros f fld Hother.
    destruct (setMapping_reads
                (mkPrefillMapping formId (pm_targetFieldId (createMapping tf source field))
                   (pm_sourceType (createMapping tf source field))
                   (pm_sourceFormId (createMapping tf source field))
                   (pm_sourceFieldId (createMapping tf source field))
                   (pm_sourcePath (createMapping tf source field)))
                mappings f fld) as [H _].
    rewrite H. clear H.
    destruct (PrefillMappings.sameTarget f fld _) eqn:E; [| reflexivity].
    apply sameTarget_true in E. unfold target in E. simpl in E.
    rewrite Hid in E. symmetry in E. contradiction.
Qed.

(** X20 on [graphWithFields]: the "email" field of "form-d", mapped from
    the action properties, into an empty store. *)
Lemma X20_selected_field_is_stored_witness :
  PrefillMappings.getMapping
    (handleSelectMapping (Some "form-d")
       (createMapping (mkFormField "email" "Email" email)
          (GlobalDataSource sampleGlobalData)
          (mkDataField "status" "Status" text "Action.Status"))
       [])
    "form-d" "email"
  = Some (mkPrefillMapping "form-d" "email" from_global None "status" "Action.Status").
Proof.
  destruct (X20_selected_field_is_stored
              graphWithFields "form-d" "email" formWithFields
              (mkFormField "email" "Email" email)
              (GlobalDataSource sampleGlobalData)
              (mkDataField "status" "Status" text "Action.Status") [])
    as (_ & _ & H & _).
  - discriminate.
  - reflexivity.
  - reflexivity.
  - exact H.
Defined.

Lemma registerAll_sources (fs : list Form) (r : DataSourceRegistry.t) (s : DataSource) :
  In s (DataSourceRegistry.getAll (registerAll fs r)) ->
  (exists f, In f fs /\ s = formSource f) \/ In s (DataSourceRegistry.getAll r).
Proof.
  induction fs as [| f fs IH] using rev_ind; intros H; [now right |].
  rewrite registerAll_snoc in H. apply JsMapFacts.values_set in H.
  destruct H as [-> | H].
  - left. exists f. split; [apply in_app_iff; right; now left | reflexivity].
  - destruct (IH H) as [[f' [Hin Hs]] | Hr]; [left | now right].
    exists f'. split; [apply in_app_iff; now left | assumption].
Qed.

(** What the registry of a categorization holds under an identifier: a
    global-backed source, or the form-backed source of a form of the
    graph. *)
Lemma registryOf_sources (g : FormGraph) (s : option GlobalData) (d : string)
    (src : DataSource) :
  DataSourceRegistry.get (registryOf g s) d = Some src ->
  ds_id src = d
  /\ (ds_type src = global_t \/ exists f, In f (values g) /\ src = formSource f).
Proof.
  intros Hget. split; [exact (keyed_registryOf g s _ _ Hget) |].
  unfold registryOf in Hget.
  assert (Hforms : forall src0,
            DataSourceRegistry.get (registerForms g DataSourceRegistry.new) d = Some src0 ->
            exists f, In f (values g) /\ src0 = formSource f).
  { intros src0 H. apply JsMapFacts.get_In_values in H.
    apply (registerAll_sources (values g)) in H. destruct H as [H | []]. exact H. }
  destruct s as [gd |]; [| right; auto].
  rewrite registerGlobals_get in Hget.
  destruct (String.eqb ORG_ID d); [injection Hget as <-; now left |].
  destruct (String.eqb ACTION_ID d); [injection Hget as <-; now left |].
  right. auto.
Qed.

(** On own entries a mapping made from a source of the direct or the
    transitive bucket points upstream. *)
Lemma categorize_mappings_upstream
    (t : string) (g : FormGraph) (s : option GlobalData)
    (source : DataSource) (targetField : FormField) (field : DataField) :
  In source (directDependencies (categorize (Some t) g s)
             ++ transitiveDependencies (categorize (Some t) g s)) ->
  match pm_sourceFormId (createMapping targetField source field) with
  | Some d =>
    pm_sourceType (createMapping targetField source field) = from_form
    /\ In d (ownDependencies t g)
    /\ exists f, In f (values g) /\ form_id f = d /\ source = formSource f
  | None =>
    pm_sourceType (createMapping targetField source field) = from_global
    /\ ds_type source = global_t
  end.
Proof.
  intros Hin.
  destruct (string_dec t "") as [-> | Ht]; [destruct Hin |].
  rewrite (categorize_selected t g s Ht) in Hin. simpl in Hin.
  assert (Hsrc : exists d, In d (ownDependencies t g)
                           /\ DataSourceRegistry.get (registryOf g s) d = Some source).
  { apply in_app_iff in Hin. destruct Hin as [Hin | Hin];
      apply In_definedOnly in Hin; destruct Hin as [d [Hd Hget]];
      exists d; (split; [| assumption]); apply ownDependencies_spec.
    - apply plus_one. now apply ownDirect_spec.
    - now apply ownTransitive_spec in Hd. }
  destruct Hsrc as [d [Hd Hget]].
  apply registryOf_sources in Hget. destruct Hget as [Hid Hkind].
  unfold createMapping. simpl.
  destruct Hkind as [Hglob | [f [Hf ->]]].
  - rewrite Hglob. simpl. auto.
  - simpl in *. subst d. split; [reflexivity |]. split; [assumption |].
    exists f. auto.
Qed.

(** X21.  A mapping made from a source of the direct or the transitive
    bucket that [useDataSources] returned points upstream: if it names a
    source form, that form is a form of the graph, its identifier is among
    what [getDependencies] returns for the target, and the mapping is typed
    "form"; otherwise the source is global-typed and the mapping is typed
    "global". *)
Theorem X21_mappings_point_upstream
    (t : string) (g : FormGraph) (s : option GlobalData) (r : CategorizedDataSources)
    (source : DataSource) (targetField : FormField) (field : DataField) :
  useDataSources (Some t) g s = Returns r ->
  In source (directDependencies r ++ transitiveDependencies r) ->
  match pm_sourceFormId (createMapping targetField source field) with
  | Some d =>
    pm_sourceType (createMapping targetField source field) = from_form
    /\ (exists all, getDependencies t g = Returns all /\ In d all)
    /\ exists f, In f (values g) /\ form_id f = d /\ source = formSource f
  | None =>
    pm_sourceType (createMapping targetField source field) = from_global
    /\ ds_type source = global_t
  end.
Proof.
  intros Hr Hin.
  assert (Ht : t <> "").
  { intros ->. injection Hr as <-. destruct Hin. }
  pose proof (useDataSources_transitive t g s r Ht Hr) as Htr.
  apply getTransitiveDependencies_safeFrom in Htr.
  apply useDataSources_categorize in Hr. subst r.
  pose proof (categorize_mappings_upstream t g s source targetField field Hin) as H.
  destruct (pm_sourceFormId (createMapping targetField source field)) as [d |];
    [| exact H].
  destruct H as (H1 & H2 & H3). split; [exact H1 |]. split; [| exact H3].
  exists (ownDependencies t g). split; [now apply getDependencies_safe | exact H2].
Qed.

(** X21 on [mockFormGraph]: a mapping from "form-b" for the target
    "form-d". *)
Lemma X21_mappings_point_upstream_witness :
  (exists all, getDependencies "form-d" mockFormGraph = Returns all /\ In "form-b" all)
  /\ pm_sourceFormId
       (createMapping (mkFormField "email" "Email" email)
          (formSource (mkForm "form-b" "Form B" [] ["form-a"]))
          (mkDataField "email" "Email" email "Form B.Email"))
     = Some "form-b".
Proof.
  pose proof (X21_mappings_point_upstream
                "form-d" mockFormGraph None
                (mkCategorized [formSource (mkForm "form-b" "Form B" [] ["form-a"])]
                               [formSource (mkForm "form-a" "Form A" [] [])] [])
                (formSource (mkForm "form-b" "Form B" [] ["form-a"]))
                (mkFormField "email" "Email" email)
                (mkDataField "email" "Email" email "Form B.Email")
                eq_refl (or_introl eq_refl)) as H.
  simpl in H. destruct H as (_ & H & _). split; [exact H | reflexivity].
Defined.

(** ** The tree of sources *)

(** X22.  [toggleSource] flips whether the toggled source is expanded and
    leaves every other source as it was; toggling the same source twice
    gives a set with the members it had. *)
Theorem X22_toggleSource_flips (sourceId y : string) (expanded : JsSet.t) :
  JsSet.has (toggleSource sourceId expanded) y
  = (if String.eqb sourceId y then negb (JsSet.has expanded y)
     else JsSet.has expanded y)
  /\ JsSet.has (toggleSource sourceId (toggleSource sourceId expanded)) y
     = JsSet.has expanded y.
Proof.
  assert (Hflip : forall s,
            JsSet.has (toggleSource sourceId s) y
            = (if String.eqb sourceId y then negb (JsSet.has s y) else JsSet.has s y)).
  { intros s. unfold toggleSource, JsSet.to_list.
    assert (Hcopy : forall z, JsSet.has (JsSet.of_list s) z = JsSet.has s z).
    { intros z. apply eq_true_iff_eq.
      now rewrite !JsSetFacts.has_true, JsSetFacts.of_list_In. }
    destruct (JsSet.has (JsSet.of_list s) sourceId) eqn:E;
      rewrite Hcopy in E; apply eq_true_iff_eq.
    - rewrite JsSetFacts.has_true, JsSetFacts.delete_In, JsSetFacts.of_list_In.
      destruct (String.eqb sourceId y) eqn:Exy.
      + apply String.eqb_eq in Exy. subst y. rewrite E. simpl.
        split; [intros [_ H]; congruence | discriminate].
      + apply String.eqb_neq in Exy. rewrite JsSetFacts.has_true.
        split; [tauto | intros H; split; [assumption | congruence]].
    - rewrite JsSetFacts.has_true, JsSetFacts.add_In, JsSetFacts.of_list_In.
      destruct (String.eqb sourceId y) eqn:Exy.
      + apply String.eqb_eq in Exy. subst y. rewrite E. simpl. tauto.
      + apply String.eqb_neq in Exy. rewrite JsSetFacts.has_true.
        split; [intros [H | H]; [assumption | congruence] | tauto]. }
  split; [apply Hflip |].
  rewrite !Hflip. destruct (String.eqb sourceId y); [apply negb_involutive | reflexivity].
Qed.

(** ** The categorizer on the graphs the application builds *)

(** X23.  On the graph the application holds after loading a response, and
    for a non-empty target on which [useDataSources] returns, the direct
    and the transitive bucket are the lists of what the dependency
    identifiers resolve to. *)
Theorem X23_loaded_buckets_resolved
    (response : MockServerResponse) (g : FormGraph) (t : string)
    (s : option GlobalData) (r : CategorizedDataSources) :
  loadedGraph response = Some g -> t <> "" ->
  useDataSources (Some t) g s = Returns r ->
  exists tr,
    getTransitiveDependencies t g = Returns tr
    /\ directDependencies r
       = definedOnly (map (resolve g s) (getDirectDependencies t g))
    /\ transitiveDependencies r = definedOnly (map (resolve g s) tr).
Proof.
  intros Hg Ht H. exists (ownTransitive t g).
  split; [eapply useDataSources_transitive; eassumption |].
  apply useDataSources_categorize in H. subst r.
  rewrite getDirectDependencies_own. apply categorize_resolved; [| assumption].
  now apply (buildGraph_spec _ g Hg).
Qed.

(** X23 on [sampleResponse]: "form-b" names "form-a", which is loaded, and
    "form-x", which is not. *)
Lemma X23_loaded_buckets_resolved_witness :
  exists g r,
    loadedGraph sampleResponse = Some g
    /\ useDataSources (Some "form-b") g None = Returns r
    /\ map ds_id (directDependencies r) = ["form-a"].
Proof.
  assert (Hg : exists g, loadedGraph sampleResponse = Some g) by (eexists; reflexivity).
  destruct Hg as [g Hg].
  assert (Hr : exists r, useDataSources (Some "form-b") g None = Returns r).
  { vm_compute in Hg. injection Hg as <-. eexists. reflexivity. }
  destruct Hr as [r Hr]. exists g, r. split; [exact Hg |]. split; [exact Hr |].
  assert (Hne : "form-b" <> "") by discriminate.
  destruct (X23_loaded_buckets_resolved sampleResponse g "form-b" None r Hg Hne Hr)
    as (tr & _ & H & _).
  rewrite H. vm_compute in Hg. injection Hg as <-. reflexivity.
Defined.

(** On own entries no identifier occurs twice among the sources of the
    direct and the transitive bucket taken together. *)
Lemma categorize_without_repeats
    (t : option string) (g : FormGraph) (s : option GlobalData) :
  NoDup (map ds_id (directDependencies (categorize t g s)
                    ++ transitiveDependencies (categorize t g s))).
Proof.
  destruct t as [t |]; [| constructor].
  destruct (string_dec t "") as [-> | Ht]; [constructor |].
  rewrite (categorize_selected t g s Ht). simpl.
  rewrite map_app, !definedOnly_ids by apply keyed_registryOf.
  rewrite <- filter_app, <- ownDependencies_split.
  apply NoDup_filter, ownDependencies_NoDup.
Qed.

(** X24.  No identifier occurs twice among the sources of the direct and
    the transitive bucket that [useDataSources] returns, taken together:
    no source is listed twice, and none is both direct and transitive. *)
Theorem X24_buckets_without_repeats
    (t : option string) (g : FormGraph) (s : option GlobalData)
    (r : CategorizedDataSources) :
  useDataSources t g s = Returns r ->
  NoDup (map ds_id (directDependencies r ++ transitiveDependencies r)).
Proof.
  intros H. apply useDataSources_categorize in H. subst r.
  apply categorize_without_repeats.
Qed.

(** X24 on [mockFormGraph] with the target "form-e". *)
Lemma X24_buckets_without_repeats_witness :
  NoDup ["form-c"; "form-d"; "form-a"; "form-b"].
Proof.
  assert (Hr : exists r, useDataSources (Some "form-e") mockFormGraph None = Returns r
                         /\ map ds_id (directDependencies r ++ transitiveDependencies r)
                            = ["form-c"; "form-d"; "form-a"; "form-b"])
    by (eexists; split; reflexivity).
  destruct Hr as (r & Hr & Hids). rewrite <- Hids.
  exact (X24_buckets_without_repeats (Some "form-e") mockFormGraph None r Hr).
Defined.

Lemma registerAll_registerList (fs : list Form) (r : DataSourceRegistry.t) :
  registerAll fs r = registerList (map formSource fs) r.
Proof.
  revert r. induction fs as [| f fs IH]; intros r; [reflexivity | apply IH].
Qed.

Lemma registryOf_registerList (g : FormGraph) (gd : GlobalData) :
  registryOf g (Some gd)
  = registerList (map formSource (values g)
                  ++ [GlobalDataSource gd; OrganizationDataSource gd])
                 DataSourceRegistry.new.
Proof.
  unfold registryOf, registerGlobals, registerList. rewrite fold_left_app. simpl.
  change (registerForms g DataSourceRegistry.new)
    with (registerAll (values g) DataSourceRegistry.new).
  now rewrite registerAll_registerList.
Qed.

Lemma registryOf_entries (g : FormGraph) (gd : GlobalData) :
  NoDup (map ds_id (DataSourceRegistry.getAll (registryOf g (Some gd))))
  /\ forall src, In src (DataSourceRegistry.getAll (registryOf g (Some gd))) ->
                 DataSourceRegistry.get (registryOf g (Some gd)) (ds_id src) = Some src.
Proof.
  rewrite registryOf_registerList.
  destruct (registerList_entries
              (map formSource (values g)
               ++ [GlobalDataSource gd; OrganizationDataSource gd])) as [Hnd Hkey].
  set (r := registerList _ _) in *. clearbody r.
  unfold DataSourceRegistry.getAll, JsMap.values. split.
  - rewrite map_map.
    replace (map (fun x => ds_id (snd x)) r) with (map fst r); [assumption |].
    apply map_ext_in. intros [k src] Hin. simpl. symmetry. now apply Hkey.
  - intros src Hin. apply in_map_iff in Hin. destruct Hin as [[k src'] [Heq Hin]].
    simpl in Heq. subst src'. rewrite (Hkey _ _ Hin).
    now apply JsMapKeys.In_get.
Qed.

(** On own entries: with a snapshot and a non-empty target the global
    bucket holds the action source and the organization source, each once,
    and nothing else, whatever the graph. *)
Lemma categorize_global_bucket
    (t : string) (g : FormGraph) (gd : GlobalData) :
  t <> "" ->
  Permutation (globalSources (categorize (Some t) g (Some gd)))
              [GlobalDataSource gd; OrganizationDataSource gd].
Proof.
  intros Ht. rewrite (categorize_selected t g (Some gd) Ht).
  cbn [globalSources].
  destruct (registryOf_entries g gd) as [Hnd Hget].
  apply NoDup_Permutation.
  - apply NoDup_filter. exact (NoDup_map_inv ds_id _ Hnd).
  - repeat constructor; simpl; intuition discriminate.
  - intros src. rewrite In_getByType. split.
    + intros [Hin Hty]. apply Hget in Hin.
      unfold registryOf in Hin. rewrite registerGlobals_get in Hin.
      destruct (String.eqb ORG_ID (ds_id src)); [injection Hin as <-; right; now left |].
      destruct (String.eqb ACTION_ID (ds_id src)); [injection Hin as <-; now left |].
      apply JsMapFacts.get_In_values in Hin.
      apply (registerAll_types (values g)) in Hin.
      destruct Hin as [Hf | []]. congruence.
    + intros [<- | [<- | []]]; apply In_getByType.
      * apply (proj1 (getByType_global_snapshot g gd)).
      * apply (proj2 (getByType_global_snapshot g gd)).
Qed.

(** X25.  With a snapshot and a non-empty target on which [useDataSources]
    returns, the global bucket holds the action source and the organization
    source, each once, and nothing else, whatever the graph. *)
Theorem X25_global_bucket_two_sources
    (t : string) (g : FormGraph) (gd : GlobalData) (r : CategorizedDataSources) :
  t <> "" -> useDataSources (Some t) g (Some gd) = Returns r ->
  Permutation (globalSources r) [GlobalDataSource gd; OrganizationDataSource gd].
Proof.
  intros Ht H. apply useDataSources_categorize in H. subst r.
  now apply categorize_global_bucket.
Qed.

(** X25 on [mockFormGraph]. *)
Lemma X25_global_bucket_two_sources_witness :
  exists r,
    useDataSources (Some "form-d") mockFormGraph (Some sampleGlobalData) = Returns r
    /\ List.length (globalSources r) = 2.
Proof.
  assert (Hne : "form-d" <> "") by discriminate.
  assert (Hr : exists r, useDataSources (Some "form-d") mockFormGraph
                                        (Some sampleGlobalData) = Returns r)
    by (eexists; reflexivity).
  destruct Hr as [r Hr]. exists r. split; [exact Hr |].
  exact (Permutation_length
           (X25_global_bucket_two_sources "form-d" mockFormGraph sampleGlobalData r Hne Hr)).
Defined.

(** X29.  [useDataSources] throws exactly when the target is not the empty
    string and the target, or an identifier reachable from it through the
    dependency lists of stored forms, is not a key of the graph and names a
    member every object inherits; otherwise it returns. *)
Theorem X29_useDataSources_throws_iff
    (t : string) (g : FormGraph) (s : option GlobalData) :
  (useDataSources (Some t) g s = Throws
   <-> t <> "" /\ exists x, star (dep g) t x /\ getProperty g x = Inherited)
  /\ (safeFrom g t -> exists r, useDataSources (Some t) g s = Returns r)
  /\ exists r, useDataSources None g s = Returns r.
Proof.
  split; [| split].
  - now rewrite useDataSources_throws, getDependencies_throws_iff.
  - intros Hs. eexists. now apply useDataSources_safe.
  - eexists. reflexivity.
Qed.

